(** * portracker: classification, probing, aggregation and annotation store

    A shallow embedding of the backend of portracker (backend/index.js and
    routes/auth.js) together with the properties its design document states
    about it.  JavaScript values are modelled by the data they carry:
    numbers that are integers as [Z], strings as [string], a field that may
    be absent, [null] or [undefined] as [option], objects as records.  The
    SQLite tables are lists of rows (SQLite keeps duplicates of a key whose
    [container_id] is NULL, so order and multiplicity matter), the response
    cache is a finite map. *)

From Stdlib Require Import ZArith Lia Bool List Ascii String.
From Stdlib Require Import DecimalString.
From Stdlib Require DecimalPos.
From stdpp Require Import base option list strings gmap.

Local Open Scope string_scope.
Local Open Scope list_scope.
Local Open Scope Z_scope.

(** ** JavaScript primitives used by the handlers *)

Module JS.

(** [String.prototype.toLowerCase], on the ASCII range. *)
Definition lower_ascii (c : ascii) : ascii :=
  let n := nat_of_ascii c in
  if (Nat.leb 65 n && Nat.leb n 90)%bool then ascii_of_nat (n + 32) else c.

Fixpoint toLowerCase (s : string) : string :=
  match s with
  | EmptyString => EmptyString
  | String c r => String (lower_ascii c) (toLowerCase r)
  end.

Fixpoint startsWith (p s : string) : bool :=
  match p, s with
  | EmptyString, _ => true
  | String _ _, EmptyString => false
  | String a p', String b s' => (Ascii.eqb a b && startsWith p' s')%bool
  end.

(** [s.includes(sub)] *)
Fixpoint includes (s sub : string) : bool :=
  (startsWith sub s ||
   match s with
   | EmptyString => false
   | String _ r => includes r sub
   end)%bool.

(** White space removed by [String.prototype.trim], on the ASCII range:
    TAB, LF, VT, FF, CR and SPACE. *)
Definition is_space (c : ascii) : bool :=
  let n := nat_of_ascii c in
  ((Nat.leb 9 n && Nat.leb n 13) || Nat.eqb n 32)%bool.

Fixpoint trimStart (s : string) : string :=
  match s with
  | EmptyString => EmptyString
  | String c r => if is_space c then trimStart r else s
  end.

Fixpoint trimEnd (s : string) : string :=
  match s with
  | EmptyString => EmptyString
  | String c r =>
      match trimEnd r with
      | EmptyString => if is_space c then EmptyString else String c EmptyString
      | r' => String c r'
      end
  end.

Definition trim (s : string) : string := trimEnd (trimStart s).

(** Template-literal rendering of an integer number. *)
Definition num_to_string (z : Z) : string :=
  NilEmpty.string_of_int (Z.to_int z).

(** Truthiness of the values the handlers test. *)
Definition truthy_str (s : string) : bool := negb (String.eqb s "").
Definition truthy_num (z : Z) : bool := negb (Z.eqb z 0).
Definition truthy_opt {A} (t : A -> bool) (o : option A) : bool :=
  match o with Some a => t a | None => false end.

(** [x !== undefined && x !== null] *)
Definition present {A} (o : option A) : bool :=
  match o with Some _ => true | None => false end.

(** [o === s] for a string literal [s], and the truthiness of an optional
    boolean. *)
Definition str_eq (o : option string) (s : string) : bool :=
  match o with Some t => String.eqb t s | None => false end.
Definition truthy_bool (o : option bool) : bool :=
  match o with Some b => b | None => false end.

(** Strict equality of two values that are strings or absent. *)
Definition opt_str_eqb (a b : option string) : bool :=
  match a, b with
  | Some x, Some y => String.eqb x y
  | None, None => true
  | _, _ => false
  end.

(** [a || null] on an optional string: the empty string is falsy. *)
Definition or_null (o : option string) : option string :=
  match o with
  | Some s => if truthy_str s then Some s else None
  | None => None
  end.

(** [Array.prototype.join] over strings; [undefined] and [null] elements are
    rendered as the empty string. *)
Definition render_opt (o : option string) : string :=
  match o with Some s => s | None => "" end.

Fixpoint join (sep : string) (l : list (option string)) : string :=
  match l with
  | [] => ""
  | [x] => render_opt x
  | x :: r => render_opt x +:+ sep +:+ join sep r
  end.

End JS.

(** ** ServiceClassifier: [detectServiceType] *)

Module Classifier.
Import JS.

Record ServiceDescriptor := mkDesc {
  name : string;
  type : string;
  description : string
}.

Definition WELL_KNOWN_PORTS : list (Z * ServiceDescriptor) :=
  [ (22, mkDesc "SSH" "system" "Secure Shell (SSH)");
    (23, mkDesc "Telnet" "system" "Telnet protocol");
    (25, mkDesc "SMTP" "system" "Simple Mail Transfer Protocol (SMTP)");
    (53, mkDesc "DNS" "system" "Domain Name System (DNS)");
    (80, mkDesc "HTTP" "web" "Hypertext Transfer Protocol (HTTP)");
    (110, mkDesc "POP3" "system" "Post Office Protocol version 3 (POP3)");
    (143, mkDesc "IMAP" "system" "Internet Message Access Protocol (IMAP)");
    (443, mkDesc "HTTPS" "web" "HTTP Secure (HTTPS)");
    (993, mkDesc "IMAPS" "system" "IMAP over SSL");
    (995, mkDesc "POP3S" "system" "POP3 over SSL");
    (1433, mkDesc "SQL Server" "database" "Microsoft SQL Server database");
    (3306, mkDesc "MySQL" "database" "MySQL database");
    (5432, mkDesc "PostgreSQL" "database" "PostgreSQL database");
    (6379, mkDesc "Redis" "database" "Redis in-memory database");
    (8080, mkDesc "HTTP Alt" "web" "HTTP alternative port");
    (8443, mkDesc "HTTPS Alt" "web" "HTTPS alternative port");
    (9000, mkDesc "Management" "web" "Common management interface port") ].

(** [WELL_KNOWN_PORTS[portNum]] *)
Fixpoint table_get (t : list (Z * ServiceDescriptor)) (k : Z)
  : option ServiceDescriptor :=
  match t with
  | [] => None
  | (k', d) :: r => if Z.eqb k k' then Some d else table_get r k
  end.

(** [parseInt(port, 10)] of an integer number is that number. *)
Definition parseInt10 (port : Z) : Z := port.

Definition detectServiceType (port : Z) (owner : option string)
  : ServiceDescriptor :=
  let portNum := parseInt10 port in
  match table_get WELL_KNOWN_PORTS portNum with
  | Some d => d
  | None =>
    let by_owner :=
      match owner with
      | Some o =>
        if truthy_str o then
          let ownerLower := toLowerCase o in
          if (includes ownerLower "ssh" || includes ownerLower "sshd")%bool
          then Some (mkDesc "SSH" "system" "SSH service")
          else if (includes ownerLower "nginx" || includes ownerLower "apache"
                   || includes ownerLower "httpd")%bool
          then Some (mkDesc "Web Server" "web" "Web server")
          else if (includes ownerLower "mysql" || includes ownerLower "postgres"
                   || includes ownerLower "redis")%bool
          then Some (mkDesc "Database" "database" "Database service")
          else None
        else None
      | None => None
      end in
    match by_owner with
    | Some d => d
    | None =>
      if ((portNum =? 80) || (portNum =? 443) || (portNum =? 8080)
          || (portNum =? 8443)
          || ((3000 <=? portNum) && (portNum <=? 3999))
          || ((4000 <=? portNum) && (portNum <=? 4999))
          || ((8000 <=? portNum) && (portNum <=? 8999))
          || ((9000 <=? portNum) && (portNum <=? 9999)))%bool
      then mkDesc "Web Service" "web" "Web service"
      else if portNum <? 1024
      then mkDesc "System Service" "system" "System service"
      else mkDesc "Service" "service" "Application service"
    end
  end.

End Classifier.

(** ** StatusResolver: [determineServiceStatus] *)

Module Resolver.
Import JS.

(** The object [testProtocol] resolves to.  A field that the returned object
    literal does not carry is [None] ([undefined] when read). *)
Record ProbeResult := mkProbe {
  reachable : bool;
  statusCode : option Z;
  protocol : option string;
  method : option string;
  responseTime : option Z;
  isSPA : option bool;
  error : option string
}.

Record StatusResult := mkStatus {
  status : string;
  color : string;
  title : string;
  description : string;
  sprotocol : option string
}.

(** Relational operators against a number; a comparison with [undefined]
    is false, and so is [undefined === n]. *)
Definition num_ge (o : option Z) (n : Z) : bool :=
  match o with Some z => n <=? z | None => false end.
Definition num_lt (o : option Z) (n : Z) : bool :=
  match o with Some z => z <? n | None => false end.
Definition num_eq (o : option Z) (n : Z) : bool :=
  match o with Some z => z =? n | None => false end.

(** [`${statusCode}`] *)
Definition render_code (o : option Z) : string :=
  match o with Some z => num_to_string z | None => "undefined" end.

(** The choice of [workingResponse]; [None] is [null]. *)
Definition workingResponse (httpsResponse httpResponse : ProbeResult)
  : option ProbeResult :=
  if (reachable httpsResponse && num_ge (statusCode httpsResponse) 200
      && num_lt (statusCode httpsResponse) 300)%bool
  then Some httpsResponse
  else if (reachable httpResponse && num_ge (statusCode httpResponse) 200
           && num_lt (statusCode httpResponse) 300)%bool
  then Some httpResponse
  else if reachable httpsResponse then Some httpsResponse
  else if reachable httpResponse then Some httpResponse
  else None.

Definition web_status (serviceInfo : Classifier.ServiceDescriptor)
  (w : ProbeResult) : option StatusResult :=
  let nm := Classifier.name serviceInfo in
  let ds := Classifier.description serviceInfo in
  let sc := statusCode w in
  if (num_ge sc 200 && num_lt sc 400)%bool then
    Some (mkStatus "accessible" "green" (nm +:+ " - Web service accessible")
            ds (protocol w))
  else if num_eq sc 401 then
    Some (mkStatus "accessible" "green" (nm +:+ " - Web accessible (auth)")
            ds (protocol w))
  else if num_eq sc 403 then
    Some (mkStatus "listening" "yellow" (nm +:+ " - Listening (Forbidden)")
            ds (protocol w))
  else if (num_eq sc 405 && str_eq (method w) "HEAD")%bool then
    Some (mkStatus "accessible" "green" (nm +:+ " - Web accessible (GET)")
            ds (protocol w))
  else if num_eq sc 404 then
    if truthy_bool (isSPA w) then
      Some (mkStatus "accessible" "green" (nm +:+ " - Web accessible")
              ds (protocol w))
    else
      Some (mkStatus "listening" "yellow" (nm +:+ " - Listening (no web UI)")
              ds (protocol w))
  else if (num_ge sc 400 && num_lt sc 500)%bool then
    Some (mkStatus "accessible" "green"
            (nm +:+ " - Web accessible (HTTP " +:+ render_code sc +:+ ")")
            ds (protocol w))
  else if num_ge sc 500 then
    Some (mkStatus "error" "red"
            (nm +:+ " - HTTP " +:+ render_code sc +:+ " error")
            ds (protocol w))
  else None.

Definition other_status (serviceInfo : Classifier.ServiceDescriptor)
  (w : ProbeResult) : StatusResult :=
  let nm := Classifier.name serviceInfo in
  let ds := Classifier.description serviceInfo in
  let sc := statusCode w in
  if num_eq sc 401 then
    mkStatus "accessible" "green" (nm +:+ " - HTTP accessible (auth)")
      ds (protocol w)
  else if num_eq sc 403 then
    mkStatus "listening" "yellow" (nm +:+ " - Listening (Forbidden)")
      ds (protocol w)
  else if num_lt sc 500 then
    mkStatus "accessible" "green" (nm +:+ " - HTTP accessible") ds (protocol w)
  else
    mkStatus "listening" "yellow" (nm +:+ " - Service listening (not HTTP)")
      ds None.

Definition determineServiceStatus (serviceInfo : Classifier.ServiceDescriptor)
  (httpsResponse httpResponse : ProbeResult) : StatusResult :=
  let serviceType := Classifier.type serviceInfo in
  let nm := Classifier.name serviceInfo in
  let ds := Classifier.description serviceInfo in
  let fallback := mkStatus "listening" "yellow" (nm +:+ " - Service listening")
                    ds None in
  if String.eqb serviceType "system" then
    mkStatus "system" "gray" (nm +:+ " - System service") ds None
  else
    match workingResponse httpsResponse httpResponse with
    | None =>
        mkStatus "unreachable" "red" (nm +:+ " - Service not reachable") ds None
    | Some w =>
        let after_web :=
          if String.eqb serviceType "web" then web_status serviceInfo w
          else None in
        match after_web with
        | Some r => r
        | None =>
            if (String.eqb serviceType "database"
                || String.eqb serviceType "service")%bool
            then other_status serviceInfo w
            else fallback
        end
    end.

End Resolver.

(** ** Response cache: [SimpleTTLCache]

    The class lives in utils/cache, which is not among the sources at hand;
    its three operations are taken from the design document.  An entry is the
    value with the time at which it expires. *)

Module Cache.

Section WithValue.
Context {V : Type}.

(** Modelled from the spec: [get(key) -> value | undefined] of the missing
    [SimpleTTLCache]; entries expire by elapsed time since [set], and expiry
    is checked lazily on [get]. *)
Definition get (c : gmap string (V * Z)) (key : string) (now : Z)
  : option V :=
  match c !! key with
  | Some (v, expires) => if now <? expires then Some v else None
  | None => None
  end.

(** Modelled from the spec: [set(key, value, ttlMs)] of the missing
    [SimpleTTLCache]. *)
Definition set (c : gmap string (V * Z)) (key : string) (v : V)
  (ttlMs now : Z) : gmap string (V * Z) :=
  <[ key := (v, now + ttlMs) ]> c.

(** Modelled from the spec: [delete(key)] of the missing [SimpleTTLCache]. *)
Definition delete (c : gmap string (V * Z)) (key : string)
  : gmap string (V * Z) :=
  base.delete key c.

End WithValue.

End Cache.

(** ** PortAggregator: the normalize/reduce of [GET /api/ports] *)

Module Aggregator.
Import JS.

Record PortObservation := mkObs {
  host_ip : option string;
  host_port : option Z;
  protocol : string;
  owner : option string;
  pid : option Z;
  container_id : option string;
  internal : bool
}.

(** An entry of the accumulator object: the spread of the first observation
    of its key, with the [owners] and [pids] arrays. *)
Record Group := mkGroup {
  entry : PortObservation;
  owners : list (option string);
  pids : list Z
}.

(** An element of the payload: the group with its flat [owner] string, which
    shadows the [owner] of the spread observation. *)
Record AggregatedPort := mkAgg {
  group : Group;
  flat_owner : string
}.

(** [e.host_port && e.host_ip] *)
Definition keep (e : PortObservation) : bool :=
  (truthy_opt truthy_num (host_port e) && truthy_opt truthy_str (host_ip e))%bool.

Definition render_num (o : option Z) : string :=
  match o with Some z => num_to_string z | None => "undefined" end.
Definition render_str (o : option string) : string :=
  match o with Some s => s | None => "undefined" end.

(** [`${entry.host_ip}:${entry.host_port}:${entry.protocol}`] *)
Definition key_of (e : PortObservation) : string :=
  render_str (host_ip e) +:+ ":" +:+ render_num (host_port e) +:+ ":"
  +:+ protocol e.

(** [acc[key]] on the accumulator object, whose own keys are kept in
    insertion order (no key of this shape is an array index). *)
Fixpoint acc_get (acc : list (string * Group)) (key : string) : option Group :=
  match acc with
  | [] => None
  | (k, g) :: r => if String.eqb k key then Some g else acc_get r key
  end.

Fixpoint acc_modify (f : Group -> Group) (acc : list (string * Group))
  (key : string) : list (string * Group) :=
  match acc with
  | [] => []
  | (k, g) :: r =>
      if String.eqb k key then (k, f g) :: r
      else (k, g) :: acc_modify f r key
  end.

(** [owners.includes(x)] and [pids.includes(x)] *)
Definition owners_include (l : list (option string)) (x : option string) : bool :=
  existsb (opt_str_eqb x) l.
Definition pids_include (l : list Z) (x : Z) : bool :=
  existsb (Z.eqb x) l.

(** [[entry.pid].filter(Boolean)] *)
Definition truthy_pid (p : option Z) : list Z :=
  match p with
  | Some n => if truthy_num n then [n] else []
  | None => []
  end.

Definition merge (e : PortObservation) (g : Group) : Group :=
  let owners' :=
    if owners_include (owners g) (owner e) then owners g
    else (owners g ++ [owner e])%list in
  let pids' :=
    match pid e with
    | Some n =>
        if (truthy_num n && negb (pids_include (pids g) n))%bool
        then (pids g ++ [n])%list else pids g
    | None => pids g
    end in
  mkGroup (entry g) owners' pids'.

(** The reducer. *)
Definition step (acc : list (string * Group)) (e : PortObservation)
  : list (string * Group) :=
  let key := key_of e in
  match acc_get acc key with
  | None => (acc ++ [(key, mkGroup e [owner e] (truthy_pid (pid e)))])%list
  | Some _ => acc_modify (merge e) acc key
  end.

Definition normalized (entries : list PortObservation)
  : list (string * Group) :=
  fold_left step (List.filter keep entries) [].

(** [Object.values(normalized).map(...)] *)
Definition aggregate (entries : list PortObservation) : list AggregatedPort :=
  List.map (fun kg => mkAgg (snd kg) (join ", " (owners (snd kg))))
    (normalized entries).

End Aggregator.

(** ** AnnotationStore: the tables and the SQL statements of the handlers *)

Module Store.
Import JS.

(** The identity columns shared by [notes], [ignores] and
    [custom_service_names]; [container_id] is nullable, [internal] holds the
    0/1 flag the handlers bind. *)
Record Key := mkKey {
  server_id : string;
  host_ip : string;
  host_port : Z;
  protocol : string;
  container_id : option string;
  internal : bool
}.

Record NoteRow := mkNote {
  note_key : Key;
  note : string;
  note_created_at : Z;
  note_updated_at : option Z
}.

Record IgnoreRow := mkIgnore {
  ignore_key : Key;
  ignore_created_at : Z
}.

Record NameRow := mkName {
  name_key : Key;
  custom_name : string;
  original_name : option string;
  name_created_at : Z;
  name_updated_at : Z
}.

Record DB := mkDB {
  servers : list string;
  notes : list NoteRow;
  ignores : list IgnoreRow;
  custom_service_names : list NameRow
}.

(** [server_id = ? AND host_ip = ? AND host_port = ? AND protocol = ? AND
    (container_id = ? OR (container_id IS NULL AND ? IS NULL)) AND
    internal = ?]: a comparison with NULL is never true, so the
    [container_id] test is equality of the nullable values. *)
Definition key_eqb (row q : Key) : bool :=
  (String.eqb (server_id row) (server_id q)
   && String.eqb (host_ip row) (host_ip q)
   && (host_port row =? host_port q)
   && String.eqb (protocol row) (protocol q)
   && opt_str_eqb (container_id row) (container_id q)
   && Bool.eqb (internal row) (internal q))%bool.

Section Statements.
Context {R : Type} (key : R -> Key).

(** [SELECT ... WHERE <key>] read with [.get()]: the first matching row. *)
Definition select_get (rows : list R) (q : Key) : option R :=
  List.find (fun r => key_eqb (key r) q) rows.

(** [DELETE ... WHERE <key>]: the remaining rows and [changes]. *)
Definition delete_where (rows : list R) (q : Key) : list R * Z :=
  (List.filter (fun r => negb (key_eqb (key r) q)) rows,
   Z.of_nat (List.length (List.filter (fun r => key_eqb (key r) q) rows))).

(** [UPDATE ... SET ... WHERE <key>] *)
Definition update_where (f : R -> R) (rows : list R) (q : Key) : list R :=
  List.map (fun r => if key_eqb (key r) q then f r else r) rows.

(** The composite PRIMARY KEY: SQLite holds NULLs distinct from every value,
    so only a key without NULL can collide. *)
Definition pk_conflict (rows : list R) (k : Key) : bool :=
  match container_id k with
  | None => false
  | Some _ => existsb (fun r => key_eqb (key r) k) rows
  end.

End Statements.

(** [FOREIGN KEY (server_id) REFERENCES servers(id)] *)
Definition fk_ok (d : DB) (k : Key) : bool :=
  existsb (String.eqb (server_id k)) (servers d).

(** *** Execution monad: the world a handler runs in, and exceptions *)

Record World := mkWorld {
  db : DB;
  cache : gmap string (list Aggregator.AggregatedPort * Z);
  clock : Z
}.

Inductive outcome (A : Type) :=
| Return (a : A)
| Throw (message : string).
Arguments Return {A} a.
Arguments Throw {A} message.

Definition M (A : Type) := World -> World * outcome A.

Definition ret {A} (a : A) : M A := fun w => (w, Return a).
Definition throw {A} (msg : string) : M A := fun w => (w, Throw msg).
Definition bind {A B} (m : M A) (f : A -> M B) : M B :=
  fun w =>
    match m w with
    | (w', Return a) => f a w'
    | (w', Throw msg) => (w', Throw msg)
    end.
(** [try { m } catch (e) { h(e.message) }] *)
Definition try_catch {A} (m : M A) (h : string -> M A) : M A :=
  fun w =>
    match m w with
    | (w', Return a) => (w', Return a)
    | (w', Throw msg) => h msg w'
    end.

Declare Scope store_scope.
Delimit Scope store_scope with store.
Notation "x <- m ;; k" := (bind m (fun x => k))
  (at level 100, m at next level, right associativity) : store_scope.
Notation "m ;;; k" := (bind m (fun _ => k))
  (at level 100, right associativity) : store_scope.
Local Open Scope store_scope.

Definition get_db : M DB := fun w => (w, Return (db w)).
Definition put_db (d : DB) : M unit :=
  fun w => (mkWorld d (cache w) (clock w), Return tt).
Definition get_now : M Z := fun w => (w, Return (clock w)).
(** [responseCache.delete(key)] *)
Definition cache_delete (key : string) : M unit :=
  fun w => (mkWorld (db w) (Cache.delete (cache w) key) (clock w), Return tt).

Definition set_notes (d : DB) (l : list NoteRow) : DB :=
  mkDB (servers d) l (ignores d) (custom_service_names d).
Definition set_ignores (d : DB) (l : list IgnoreRow) : DB :=
  mkDB (servers d) (notes d) l (custom_service_names d).
Definition set_names (d : DB) (l : list NameRow) : DB :=
  mkDB (servers d) (notes d) (ignores d) l.

Definition FK_FAILED : string := "FOREIGN KEY constraint failed".
Definition PK_FAILED (table : string) : string :=
  "UNIQUE constraint failed: " +:+ table.
Definition NOT_NULL_FAILED (column : string) : string :=
  "NOT NULL constraint failed: " +:+ column.

(** *** Statements on [notes] *)

Definition notes_get (q : Key) : M (option NoteRow) :=
  d <- get_db ;; ret (select_get note_key (notes d) q).

Definition notes_delete (q : Key) : M Z :=
  d <- get_db ;;
  let '(rest, changes) := delete_where note_key (notes d) q in
  put_db (set_notes d rest) ;;; ret changes.

(** [UPDATE notes SET note = ?, updated_at = datetime('now') WHERE ...] *)
Definition notes_update (text : string) (q : Key) : M unit :=
  d <- get_db ;; t <- get_now ;;
  put_db (set_notes d
            (update_where note_key
               (fun r => mkNote (note_key r) text (note_created_at r) (Some t))
               (notes d) q)).

(** [INSERT INTO notes (...) VALUES (...)]; [created_at] is the current time
    (by default, or as CURRENT_TIMESTAMP); [updated_at] stays NULL unless the
    statement lists it ([stamp_updated], the batch handler's INSERT). *)
Definition notes_insert (k : Key) (text : string) (stamp_updated : bool)
  : M unit :=
  d <- get_db ;; t <- get_now ;;
  if pk_conflict note_key (notes d) k then throw (PK_FAILED "notes")
  else if negb (fk_ok d k) then throw FK_FAILED
  else put_db (set_notes d
                 (notes d ++ [mkNote k text t
                                (if stamp_updated then Some t else None)])%list).

(** *** Statements on [ignores] *)

Definition ignores_get (q : Key) : M (option IgnoreRow) :=
  d <- get_db ;; ret (select_get ignore_key (ignores d) q).

Definition ignores_delete (q : Key) : M Z :=
  d <- get_db ;;
  let '(rest, changes) := delete_where ignore_key (ignores d) q in
  put_db (set_ignores d rest) ;;; ret changes.

Definition ignores_insert (k : Key) : M unit :=
  d <- get_db ;; t <- get_now ;;
  if pk_conflict ignore_key (ignores d) k then throw (PK_FAILED "ignores")
  else if negb (fk_ok d k) then throw FK_FAILED
  else put_db (set_ignores d (ignores d ++ [mkIgnore k t])%list).

(** *** Statements on [custom_service_names]

    [custom_name] is declared NOT NULL; the single-item validator lets a
    request without [custom_name] through, and the statement then fails. *)

Definition names_get (q : Key) : M (option NameRow) :=
  d <- get_db ;; ret (select_get name_key (custom_service_names d) q).

Definition names_delete (q : Key) : M Z :=
  d <- get_db ;;
  let '(rest, changes) := delete_where name_key (custom_service_names d) q in
  put_db (set_names d rest) ;;; ret changes.

Definition names_update (cn : option string) (orig : option string) (q : Key)
  : M unit :=
  d <- get_db ;; t <- get_now ;;
  match cn with
  | None =>
      if existsb (fun r => key_eqb (name_key r) q) (custom_service_names d)
      then throw (NOT_NULL_FAILED "custom_service_names.custom_name")
      else ret tt
  | Some c =>
      put_db (set_names d
                (update_where name_key
                   (fun r => mkName (name_key r) c orig (name_created_at r) t)
                   (custom_service_names d) q))
  end.

Definition names_insert (k : Key) (cn : option string) (orig : option string)
  : M unit :=
  d <- get_db ;; t <- get_now ;;
  match cn with
  | None => throw (NOT_NULL_FAILED "custom_service_names.custom_name")
  | Some c =>
      if pk_conflict name_key (custom_service_names d) k
      then throw (PK_FAILED "custom_service_names")
      else if negb (fk_ok d k) then throw FK_FAILED
      else put_db (set_names d
                     (custom_service_names d ++ [mkName k c orig t t])%list)
  end.

End Store.

(** ** The annotation and ports handlers of backend/index.js *)

(** The JSON body of a request, and of one operation of a batch.  Every field
    may be absent; a present field has the type the validators ask for. *)
Module Req.
Record t := mk {
  action : option string;
  server_id : option string;
  host_ip : option string;
  host_port : option Z;
  protocol : option string;
  note : option string;
  ignored : option bool;
  custom_name : option string;
  original_name : option string;
  container_id : option string;
  internal : option bool
}.
End Req.

Module Api.
Import JS Store.
Local Open Scope store_scope.

(** One element of [results] of [POST /api/custom-service-names/batch]. *)
Record NameOutcome := mkNameOutcome {
  no_host_ip : option string;
  no_host_port : option Z;
  no_protocol : option string;
  no_container_id : option string;
  no_action : string
}.

(** One element of [results] of [POST /api/notes/batch]. *)
Record NoteOutcome := mkNoteOutcome {
  success : bool;
  o_action : option string;
  o_error : option string;
  o_host_ip : option string;
  o_host_port : option Z;
  o_container_id : option string;
  o_internal : option Z;
  o_deletedCount : option Z
}.

Inductive Body :=
| Saved (message : string)
| Failed (error : string) (details : option string) (field : option string)
| NameResults (results : list NameOutcome)
| NoteResults (results : list NoteOutcome)
| Ports (cached : bool) (ttlMs : Z) (data : list Aggregator.AggregatedPort).

Record Response := mkResp {
  code : Z;
  body : Body
}.

Definition invalid (details field : string) : Response :=
  mkResp 400 (Failed "Validation failed" (Some details) (Some field)).

(** [!s] and [s.trim().length === 0] on an optional string. *)
Definition missing (o : option string) : bool := negb (truthy_opt truthy_str o).
Definition blank (o : option string) : bool :=
  match o with Some s => String.eqb (trim s) "" | None => true end.
Definition bad_protocol (o : option string) : bool :=
  negb (str_eq o "tcp" || str_eq o "udp").
(** [host_port == null || !Number.isInteger(host_port) || host_port <= 0 ||
    host_port > 65535] *)
Definition bad_port (o : option Z) : bool :=
  match o with Some p => (p <=? 0) || (65535 <? p) | None => true end.
(** [container_id != null && container_id.trim().length === 0] *)
Definition bad_container (o : option string) : bool :=
  match o with Some s => String.eqb (trim s) "" | None => false end.

(** The values bound to the identity placeholders of a statement:
    [server_id, host_ip, host_port, protocol, container_id || null,
    internal ? 1 : 0].  The validators have checked that the first four are
    present by the time a statement runs. *)
Definition bound_key (sid : option string) (b : Req.t) : Key :=
  mkKey (default "" sid) (default "" (Req.host_ip b))
    (default 0 (Req.host_port b)) (default "" (Req.protocol b))
    (or_null (Req.container_id b)) (truthy_bool (Req.internal b)).

(** [try { ... res.status(200).json(...) } catch (err) { res.status(500)... }] *)
Definition respond (m : M Response) (on_error : string -> Response)
  : World -> World * Response :=
  fun w =>
    match m w with
    | (w', Return r) => (w', r)
    | (w', Throw msg) => (w', on_error msg)
    end.

Definition db_failed (details : string) : string -> Response :=
  fun _ => mkResp 500 (Failed "Database operation failed" (Some details) None).

(** *** [POST /api/notes] *)

Definition validateNoteInput (b : Req.t) (d : DB) : option Response :=
  if missing (Req.server_id b) then
    Some (invalid "Field 'server_id' is required and must be a string"
            "server_id")
  else if missing (Req.host_ip b) then
    Some (invalid "Field 'host_ip' is required and must be a string" "host_ip")
  else if negb (present (Req.host_port b)) then
    Some (invalid "Field 'host_port' is required and must be a valid port number"
            "host_port")
  else if bad_protocol (Req.protocol b) then
    Some (invalid "Field 'protocol' is required and must be either 'tcp' or 'udp'"
            "protocol")
  else if bad_container (Req.container_id b) then
    Some (mkResp 400 (Failed "Invalid input for note entry"
            (Some "container_id must be a non-empty string when provided")
            (Some "container_id")))
  else if negb (existsb (String.eqb (default "" (Req.server_id b))) (servers d))
  then
    Some (mkResp 404 (Failed "Validation failed"
            (Some ("Server with id '" +:+ default "" (Req.server_id b)
                   +:+ "' not found"))
            (Some "server_id")))
  else None.

(** [note ? note.trim() : ""] *)
Definition noteTrimmed (b : Req.t) : string :=
  match Req.note b with
  | Some n => if truthy_str n then trim n else ""
  | None => ""
  end.

Definition post_notes (b : Req.t) : World -> World * Response :=
  fun w =>
    match validateNoteInput b (db w) with
    | Some r => (w, r)
    | None =>
        let q := bound_key (Req.server_id b) b in
        respond
          (existing <- notes_get q ;;
           match existing with
           | Some _ =>
               if String.eqb (noteTrimmed b) "" then
                 _ <- notes_delete q ;; ret tt
               else notes_update (noteTrimmed b) q
           | None =>
               if negb (String.eqb (noteTrimmed b) "")
               then notes_insert q (noteTrimmed b) false
               else ret tt
           end ;;;
           ret (mkResp 200 (Saved "Note saved successfully")))
          (db_failed "Unable to save note") w
    end.

(** [GET /api/notes?server_id=...], for a present [server_id]: the rows of
    that server (the columns other than the time stamps). *)
Definition get_notes (sid : string) (w : World) : list (Key * string) :=
  List.map (fun r => (note_key r, note r))
    (List.filter (fun r => String.eqb (server_id (note_key r)) sid)
       (notes (db w))).

(** *** [POST /api/ignores] *)

Definition validateIdentity (b : Req.t) : option Response :=
  if missing (Req.server_id b) || blank (Req.server_id b) then
    Some (invalid "server_id is required and must be a non-empty string"
            "server_id")
  else if missing (Req.host_ip b) || blank (Req.host_ip b) then
    Some (invalid "host_ip is required and must be a non-empty string"
            "host_ip")
  else if bad_port (Req.host_port b) then
    Some (invalid
            "host_port is required and must be a valid port number (1-65535)"
            "host_port")
  else if bad_protocol (Req.protocol b) then
    Some (invalid "Field 'protocol' is required and must be either 'tcp' or 'udp'"
            "protocol")
  else None.

Definition validateContainer (b : Req.t) : option Response :=
  if bad_container (Req.container_id b) then
    Some (invalid "container_id must be a non-empty string when provided"
            "container_id")
  else None.

Definition validateIgnoreInput (b : Req.t) : option Response :=
  match validateIdentity b with
  | Some r => Some r
  | None =>
      if negb (present (Req.ignored b)) then
        Some (invalid "ignored is required and must be a boolean" "ignored")
      else validateContainer b
  end.

Definition post_ignores (b : Req.t) : World -> World * Response :=
  fun w =>
    match validateIgnoreInput b with
    | Some r => (w, r)
    | None =>
        let q := bound_key (Req.server_id b) b in
        respond
          (existing <- ignores_get q ;;
           (if truthy_bool (Req.ignored b) then
              match existing with
              | None => ignores_insert q
              | Some _ => ret tt
              end
            else
              match existing with
              | Some _ => _ <- ignores_delete q ;; ret tt
              | None => ret tt
              end) ;;;
           ret (mkResp 200 (Saved "Ignore status updated")))
          (db_failed "Unable to update ignore status") w
    end.

(** *** [POST /api/custom-service-names] *)

Definition validateCustomServiceNameInput (b : Req.t) : option Response :=
  match validateIdentity b with
  | Some r => Some r
  | None =>
      if bad_container (Req.custom_name b) then
        Some (invalid "custom_name must be a non-empty string when provided"
                "custom_name")
      else validateContainer b
  end.

(** [!container_id && !internal && host_ip === ip] *)
Definition wildcard_target (b : Req.t) (ip : string) : bool :=
  negb (truthy_opt truthy_str (Req.container_id b))
  && negb (truthy_bool (Req.internal b))
  && str_eq (Req.host_ip b) ip.

(** The row addressed by [host_ip = ip AND container_id IS NULL AND
    internal = 0] for the server, port and protocol of the request. *)
Definition sibling_key (sid : option string) (b : Req.t) (ip : string) : Key :=
  mkKey (default "" sid) ip (default 0 (Req.host_port b))
    (default "" (Req.protocol b)) None false.

(** The upsert of the other wildcard address; a failing INSERT is caught and
    logged, a failing UPDATE is not. *)
Definition mirror_upsert (b : Req.t) (ip : string) : M unit :=
  let mk := sibling_key (Req.server_id b) b ip in
  variant <- names_get mk ;;
  match variant with
  | Some _ => names_update (Req.custom_name b) (or_null (Req.original_name b)) mk
  | None =>
      try_catch
        (names_insert mk (Req.custom_name b) (or_null (Req.original_name b)))
        (fun _ => ret tt)
  end.

Definition post_custom_service_names (b : Req.t) : World -> World * Response :=
  fun w =>
    match validateCustomServiceNameInput b with
    | Some r => (w, r)
    | None =>
        let q := bound_key (Req.server_id b) b in
        respond
          (existing <- names_get q ;;
           match existing with
           | Some _ =>
               names_update (Req.custom_name b) (or_null (Req.original_name b)) q
           | None =>
               names_insert q (Req.custom_name b) (or_null (Req.original_name b))
           end ;;;
           (if wildcard_target b "0.0.0.0" then mirror_upsert b "::"
            else if wildcard_target b "::" then mirror_upsert b "0.0.0.0"
            else ret tt) ;;;
           cache_delete "endpoint:ports:local" ;;;
           ret (mkResp 200 (Saved "Custom service name saved successfully")))
          (db_failed "Unable to save custom service name") w
    end.

(** [GET /api/custom-service-names?server_id=...] for a present [server_id]. *)
Definition get_custom_service_names (sid : string) (w : World)
  : list (Key * string * option string) :=
  List.map (fun r => (name_key r, custom_name r, original_name r))
    (List.filter (fun r => String.eqb (server_id (name_key r)) sid)
       (custom_service_names (db w))).

(** *** [DELETE /api/custom-service-names] *)

Definition validateCustomServiceNameDeleteInput (b : Req.t) : option Response :=
  match validateIdentity b with
  | Some r => Some r
  | None => validateContainer b
  end.

Definition delete_custom_service_names (b : Req.t)
  : World -> World * Response :=
  fun w =>
    match validateCustomServiceNameDeleteInput b with
    | Some r => (w, r)
    | None =>
        let q := bound_key (Req.server_id b) b in
        respond
          (changes <- names_delete q ;;
           legacy <-
             (if (changes =? 0) && truthy_opt truthy_str (Req.container_id b)
              then names_delete
                     (mkKey (server_id q) (host_ip q) (host_port q)
                        (protocol q) None (internal q))
              else ret 0) ;;
           variant <-
             (if wildcard_target b "0.0.0.0"
              then names_delete (sibling_key (Req.server_id b) b "::")
              else if wildcard_target b "::"
              then names_delete (sibling_key (Req.server_id b) b "0.0.0.0")
              else ret 0) ;;
           let deletedCount := changes + legacy + variant in
           if 0 <? deletedCount then
             cache_delete "endpoint:ports:local" ;;;
             ret (mkResp 200 (Saved "Custom service name deleted successfully"))
           else
             ret (mkResp 404 (Failed "Custom service name not found" None None)))
          (db_failed "Unable to delete custom service name") w
    end.

(** *** [POST /api/custom-service-names/batch] *)

Definition dq : string := String (ascii_of_nat 34) EmptyString.

Definition bad_request (msg : string) : Response :=
  mkResp 400 (Failed msg None None).

Definition at_index (i : Z) (msg : string) : string :=
  "Operation at index " +:+ num_to_string i +:+ ": " +:+ msg.

Definition validate_name_op (i : Z) (op : Req.t) : option Response :=
  if negb (str_eq (Req.action op) "set"
           || str_eq (Req.action op) "delete") then
    Some (bad_request (at_index i ("action must be " +:+ dq +:+ "set" +:+ dq
                                   +:+ " or " +:+ dq +:+ "delete" +:+ dq)))
  else if missing (Req.host_ip op) || blank (Req.host_ip op) then
    Some (bad_request
            (at_index i "host_ip is required and must be a non-empty string"))
  else if bad_port (Req.host_port op) then
    Some (bad_request
            (at_index i "host_port must be a valid port number (1-65535)"))
  else if bad_protocol (Req.protocol op) then
    Some (bad_request
            (at_index i
               "protocol is required and must be either 'tcp' or 'udp'"))
  else if str_eq (Req.action op) "set" && blank (Req.custom_name op)
  then
    Some (bad_request
            (at_index i ("custom_name is required for " +:+ dq +:+ "set" +:+ dq
                         +:+ " action")))
  else if bad_container (Req.container_id op) then
    Some (bad_request
            (at_index i "container_id must be a non-empty string when provided"))
  else None.

(** The validation loop: the first operation that fails answers.  (An
    operation is an object here, so the test [!op || typeof op !== "object"]
    never fires.) *)
Fixpoint validate_name_ops (i : Z) (ops : list Req.t) : option Response :=
  match ops with
  | [] => None
  | op :: rest =>
      match validate_name_op i op with
      | Some r => Some r
      | None => validate_name_ops (i + 1) rest
      end
  end.

Definition name_outcome (op : Req.t) (act : string) : NameOutcome :=
  mkNameOutcome (Req.host_ip op) (Req.host_port op) (Req.protocol op)
    (Req.container_id op) act.

(** The body of the [for (const op of operations)] loop: what it pushes. *)
Definition name_batch_op (sid : option string) (op : Req.t)
  : M (list NameOutcome) :=
  let q := bound_key sid op in
  if str_eq (Req.action op) "set" then
    existing <- names_get q ;;
    match existing with
    | Some _ =>
        names_update (Req.custom_name op) (or_null (Req.original_name op)) q ;;;
        ret [name_outcome op "updated"]
    | None =>
        names_insert q (Req.custom_name op) (or_null (Req.original_name op)) ;;;
        ret [name_outcome op "created"]
    end
  else if str_eq (Req.action op) "delete" then
    changes <- names_delete q ;;
    ret [name_outcome op (if 0 <? changes then "deleted" else "not_found")]
  else ret [].

Fixpoint name_batch_loop (sid : option string) (ops : list Req.t)
  (results : list NameOutcome) : M (list NameOutcome) :=
  match ops with
  | [] => ret results
  | op :: rest =>
      pushed <- name_batch_op sid op ;;
      name_batch_loop sid rest (results ++ pushed)%list
  end.

Definition post_custom_service_names_batch (sid : option string)
  (operations : option (list Req.t)) : World -> World * Response :=
  fun w =>
    if missing sid || blank sid then
      (w, bad_request "server_id is required and must be a non-empty string")
    else
      match operations with
      | None | Some [] =>
          (w, bad_request "operations array is required and must not be empty")
      | Some ops =>
          match validate_name_ops 0 ops with
          | Some r => (w, r)
          | None =>
              respond
                (results <- name_batch_loop sid ops [] ;;
                 cache_delete "endpoint:ports:local" ;;;
                 ret (mkResp 200 (NameResults results)))
                (db_failed
                   "Unable to process batch custom service name operations") w
          end
      end.

(** *** [POST /api/notes/batch] *)

Definition note_failure (msg : string) : NoteOutcome :=
  mkNoteOutcome false None (Some msg) None None None None None.

Definition flag (b : bool) : Z := if b then 1 else 0.

(** The [try] block of one operation. *)
Definition note_batch_try (sid : option string) (op : Req.t)
  : M (list NoteOutcome) :=
  let q := bound_key sid op in
  let internalFlag := flag (truthy_bool (Req.internal op)) in
  if str_eq (Req.action op) "set"
     && truthy_opt truthy_str (Req.note op) then
    let trimmed := trim (default "" (Req.note op)) in
    if truthy_str trimmed then
      existingNote <- notes_get q ;;
      match existingNote with
      | Some _ => notes_update trimmed q
      | None => notes_insert q trimmed true
      end ;;;
      ret [mkNoteOutcome true (Some "set") None (Req.host_ip op)
             (Req.host_port op) (Req.container_id op) (Some internalFlag) None]
    else ret []
  else if str_eq (Req.action op) "delete" then
    changes <- notes_delete q ;;
    ret [mkNoteOutcome true (Some "delete") None (Req.host_ip op)
           (Req.host_port op) (Req.container_id op) (Some internalFlag)
           (Some changes)]
  else ret [].

(** The body of the [for (const operation of operations)] loop. *)
Definition note_batch_op (sid : option string) (op : Req.t)
  : M (list NoteOutcome) :=
  if missing (Req.action op) || missing (Req.host_ip op)
     || negb (present (Req.host_port op)) then
    ret [note_failure "Missing required fields: action, host_ip, host_port"]
  else if bad_port (Req.host_port op) then
    ret [note_failure "host_port must be a valid port number (1-65535)"]
  else if bad_protocol (Req.protocol op) then
    ret [note_failure "protocol is required and must be either 'tcp' or 'udp'"]
  else
    try_catch (note_batch_try sid op)
      (fun msg =>
         ret [mkNoteOutcome false None (Some msg) (Req.host_ip op)
                (Req.host_port op) (Req.container_id op) None None]).

Fixpoint note_batch_loop (sid : option string) (ops : list Req.t)
  (results : list NoteOutcome) : M (list NoteOutcome) :=
  match ops with
  | [] => ret results
  | op :: rest =>
      pushed <- note_batch_op sid op ;;
      note_batch_loop sid rest (results ++ pushed)%list
  end.

Definition post_notes_batch (sid : option string)
  (operations : option (list Req.t)) : World -> World * Response :=
  fun w =>
    match operations with
    | Some ops =>
        if missing sid then
          (w, bad_request "server_id and operations array are required")
        else
          respond
            (results <- note_batch_loop sid ops [] ;;
             cache_delete "endpoint:ports:local" ;;;
             ret (mkResp 200 (NoteResults results)))
            (db_failed "Unable to process batch note operations") w
    | None => (w, bad_request "server_id and operations array are required")
    end.

(** *** [GET /api/ports]

    [dockerPorts] and [systemPorts] are what the two collectors resolve to;
    [cache_on] is [!debug && process.env.DISABLE_CACHE !== 'true']. *)

Definition RESP_TTL_PORTS : Z := 3000.

Definition get_ports (cache_on : bool)
  (dockerPorts systemPorts : outcome (list Aggregator.PortObservation))
  : World -> World * Response :=
  fun w =>
    let cacheKey := "endpoint:ports:local" in
    match (if cache_on then Cache.get (cache w) cacheKey (clock w) else None)
    with
    | Some cached => (w, mkResp 200 (Ports true RESP_TTL_PORTS cached))
    | None =>
        match dockerPorts, systemPorts with
        | Return dp, Return sp =>
            let payload := Aggregator.aggregate (dp ++ sp)%list in
            let w' :=
              if cache_on
              then mkWorld (db w)
                     (Cache.set (cache w) cacheKey payload RESP_TTL_PORTS
                        (clock w))
                     (clock w)
              else w in
            (w', mkResp 200 (Ports false RESP_TTL_PORTS payload))
        | Throw msg, _ | Return _, Throw msg =>
            (w, mkResp 500 (Failed "Failed to scan ports" (Some msg) None))
        end
    end.

End Api.

(** ** Login: routes/auth.js and lib/recovery-manager.js *)

Module Auth.
Import JS.

(** The fields of the [RecoveryManager] singleton. *)
Record RecoveryManager := mkRecovery {
  recoveryKey : option string;
  expiresAt : option Z;
  used : bool
}.

Definition invalidate (r : RecoveryManager) : RecoveryManager :=
  if truthy_opt truthy_str (recoveryKey r) then mkRecovery None None true
  else r.

(** [validateKey(inputKey)] at time [now]: the answer and the manager
    afterwards (an expired key is invalidated). *)
Definition validateKey (r : RecoveryManager) (now : Z) (inputKey : string)
  : bool * RecoveryManager :=
  if negb (truthy_opt truthy_str (recoveryKey r)) || used r then (false, r)
  else if default 0 (expiresAt r) <? now then (false, invalidate r)
  else (str_eq (recoveryKey r) inputKey, r).

Definition markAsUsed (r : RecoveryManager) : RecoveryManager :=
  mkRecovery (recoveryKey r) (expiresAt r) true.

Record User := mkUser {
  id : string;
  username : string;
  password_hash : string;
  last_login : option Z
}.

(** What a run of the handler does besides answering. *)
Inductive Event :=
| QueryUser (name : string)
| QueryAnyUser
| BcryptCompare (password hash : string)
| UpdateLastLogin (user : string) (at_time : Z)
| SessionRegenerate
| SessionSave (userId uname : string) (requirePasswordChange : bool).

Inductive AuthBody :=
| AuthError (error : string)
| LoggedIn (uname : string) (requirePasswordChange : bool).

Record AuthResponse := mkAuthResp {
  code : Z;
  body : AuthBody
}.

Record Server := mkServer {
  authEnabled : bool;
  users : list User;
  recovery : RecoveryManager;
  now : Z;
  regenerate_fails : bool;
  save_fails : bool
}.

Definition DUMMY_HASH : string :=
  "$2a$10$AAAAAAAAAAAAAAAAAAAAAA.AAAAAAAAAAAAAAAAAAAAAAAAAAAAAAAAA".

Section Login.
(** [bcrypt.compare(password, hash)] *)
Variable bcrypt_compare : string -> string -> bool.

Definition set_recovery (s : Server) (r : RecoveryManager) : Server :=
  mkServer (authEnabled s) (users s) r (now s) (regenerate_fails s)
    (save_fails s).

Definition touch (s : Server) (uid : string) : Server :=
  mkServer (authEnabled s)
    (List.map (fun u => if String.eqb (id u) uid
                        then mkUser (id u) (username u) (password_hash u)
                               (Some (now s))
                        else u) (users s))
    (recovery s) (now s) (regenerate_fails s) (save_fails s).

(** [req.session.regenerate(... req.session.save(...))] *)
Definition open_session (s : Server) (u : User) (change : bool)
  (failure : string) : AuthResponse * list Event :=
  if regenerate_fails s then
    (mkAuthResp 500 (AuthError failure), [SessionRegenerate])
  else if save_fails s then
    (mkAuthResp 500 (AuthError failure),
     [SessionRegenerate; SessionSave (id u) (username u) change])
  else
    (mkAuthResp 200 (LoggedIn (username u) change),
     [SessionRegenerate; SessionSave (id u) (username u) change]).

(** [router.post('/login', ...)]: the server afterwards, the answer and the
    calls made, in order. *)
Definition login (s : Server) (uname password : option string)
  : Server * AuthResponse * list Event :=
  if negb (authEnabled s) then
    (s, mkAuthResp 400 (AuthError "Authentication is not enabled"), [])
  else
    match uname, password with
    | Some un, Some pw =>
        if negb (truthy_str un) || negb (truthy_str pw) then
          (s, mkAuthResp 400 (AuthError "Username and password are required"),
           [])
        else
          let trimmedUsername := trim un in
          let '(isRecoveryKey, r) := validateKey (recovery s) (now s) pw in
          let s := set_recovery s r in
          if isRecoveryKey then
            match users s with
            | [] =>
                (s, mkAuthResp 400 (AuthError "No users found in database"),
                 [QueryAnyUser])
            | user :: _ =>
                let s := set_recovery s (markAsUsed r) in
                let '(resp, ev) := open_session s user true "Recovery failed" in
                (s, resp, QueryAnyUser :: ev)
            end
          else
            let user :=
              List.find (fun u => String.eqb (username u) trimmedUsername)
                (users s) in
            let hashToCompare :=
              match user with
              | Some u => password_hash u
              | None => DUMMY_HASH
              end in
            let isValid := bcrypt_compare pw hashToCompare in
            match user with
            | Some u =>
                if isValid then
                  let s := touch s (id u) in
                  let '(resp, ev) := open_session s u false "Login failed" in
                  (s, resp,
                   QueryUser trimmedUsername :: BcryptCompare pw hashToCompare
                   :: UpdateLastLogin (id u) (now s) :: ev)
                else
                  (s, mkAuthResp 401 (AuthError "Invalid credentials"),
                   [QueryUser trimmedUsername; BcryptCompare pw hashToCompare])
            | None =>
                (s, mkAuthResp 401 (AuthError "Invalid credentials"),
                 [QueryUser trimmedUsername; BcryptCompare pw hashToCompare])
            end
    | _, _ =>
        (s, mkAuthResp 400 (AuthError "Username and password are required"), [])
    end.

End Login.

End Auth.

(** ** ReachabilityProbe: [testProtocol]

    Time is counted in milliseconds from the call of [testProtocol], which
    arms the one [AbortController] of the probe: its signal aborts at
    [PING_TIMEOUT].  The network is given by what it would do with each of
    the three requests. *)

Module Probe.
Import JS.

Definition PING_TIMEOUT : Z := 2000.

(** The fate of one request, left to itself: a response (status line and
    headers after [latency], then the body; [None] when reading the body
    fails), a failure (refused connection, TLS error), or silence. *)
Inductive Reply :=
| Responds (latency : Z) (status : Z) (contentType : option string)
    (text : option string)
| Fails (latency : Z) (message : string)
| Hangs.

Record Network := mkNet {
  head : Reply;
  get : Reply;
  permissive : Reply
}.

Record FetchResponse := mkFetch {
  fstatus : Z;
  fcontentType : option string;
  ftext : option string
}.

Definition ABORTED : string := "This operation was aborted".

(** [await fetch(url, { signal: controller.signal, ... })] issued at [start]:
    the time at which the promise settles, and how.  A signal that has
    already aborted rejects the call at once; otherwise the abort at
    [PING_TIMEOUT] rejects it unless the reply comes first. *)
Definition fetch (start : Z) (r : Reply) : Z * (FetchResponse + string) :=
  if PING_TIMEOUT <=? start then (start, inr ABORTED)
  else
    match r with
    | Responds d st ct tx =>
        if start + d <? PING_TIMEOUT then (start + d, inl (mkFetch st ct tx))
        else (PING_TIMEOUT, inr ABORTED)
    | Fails d msg =>
        if start + d <? PING_TIMEOUT then (start + d, inr msg)
        else (PING_TIMEOUT, inr ABORTED)
    | Hangs => (PING_TIMEOUT, inr ABORTED)
    end.

(** [https.request({ rejectUnauthorized: false, timeout: PING_TIMEOUT })]
    issued at [start]: its own timer destroys the request with the error
    ['timeout'].  The status is [res.statusCode || 200]. *)
Definition permissive_request (start : Z) (r : Reply) : Z * (Z + string) :=
  match r with
  | Responds d st _ _ =>
      if d <? PING_TIMEOUT then (start + d, inl (if st =? 0 then 200 else st))
      else (start + PING_TIMEOUT, inr "timeout")
  | Fails d msg =>
      if d <? PING_TIMEOUT then (start + d, inr msg)
      else (start + PING_TIMEOUT, inr "timeout")
  | Hangs => (start + PING_TIMEOUT, inr "timeout")
  end.

Definition dq : string := String (ascii_of_nat 34) EmptyString.

(** The test made on the body of a 404 answer. *)
Definition detectSPA (r : FetchResponse) : bool :=
  match ftext r with
  | None => false
  | Some body =>
      let contentType := default "" (fcontentType r) in
      if includes contentType "text/html"
         && (100 <? Z.of_nat (String.length body)) then
        let lower := toLowerCase body in
        let hasDoctype :=
          includes lower "<!doctype html>" || includes lower "<html" in
        let hasScriptTags := includes lower "<script" in
        let hasMetaTags := includes lower "<meta" in
        let hasAppRoot :=
          includes body ("id=" +:+ dq +:+ "root" +:+ dq)
          || includes body ("id=" +:+ dq +:+ "app" +:+ dq)
          || includes body "id='root'" || includes body "id='app'" in
        hasDoctype && hasScriptTags && (hasAppRoot || hasMetaTags)
      else false
  end.

Definition unreachable (msg : string) : Resolver.ProbeResult :=
  Resolver.mkProbe false None None None None None (Some msg).

Definition reached (scheme method : string) (st duration : Z)
  (spa : option bool) : Resolver.ProbeResult :=
  Resolver.mkProbe true (Some st) (Some scheme) (Some method) (Some duration)
    spa None.

(** The permissive retry inside [catch (getError)], then the common exit. *)
Definition permissive_stage (scheme : string) (net : Network) (start : Z)
  : Z * Resolver.ProbeResult :=
  if String.eqb scheme "https" then
    match permissive_request start (permissive net) with
    | (t, inl st) =>
        if st <? 500 then (t, reached scheme "GET" st (t - start) None)
        else (t, unreachable "No successful response")
    | (t, inr _) => (t, unreachable "No successful response")
    end
  else (start, unreachable "No successful response").

(** The GET stage, entered at [start] when HEAD gave nothing usable. *)
Definition get_stage (scheme : string) (net : Network) (start : Z)
  : Z * Resolver.ProbeResult :=
  match fetch start (get net) with
  | (t, inl resp) =>
      if fstatus resp <? 500 then
        let isSPA := if fstatus resp =? 404 then detectSPA resp else false in
        (t, reached scheme "GET" (fstatus resp) (t - start) (Some isSPA))
      else (t, unreachable "No successful response")
  | (t, inr _) => permissive_stage scheme net t
  end.

(** [testProtocol(scheme, host_ip, port, path)]: when it resolves, and to
    what. *)
Definition testProtocol (scheme : string) (net : Network)
  : Z * Resolver.ProbeResult :=
  match fetch 0 (head net) with
  | (t, inl resp) =>
      if (fstatus resp <? 500) && negb (fstatus resp =? 404)
      then (t, reached scheme "HEAD" (fstatus resp) t None)
      else get_stage scheme net t
  | (t, inr _) => get_stage scheme net t
  end.

End Probe.

(** ** The classifier rules of the design document

    The rules of the design document in its own words, to compare
    [detectServiceType] with: which rule fires first, and what it yields. *)

Module ClassifierRules.
Import JS Classifier.

Inductive Rule :=
| WellKnownPort
| OwnerKeyword (ty nm : string)
| WebPortRange
| PortBelow1024
| DefaultService.

Definition well_known_ports : list Z :=
  [22; 23; 25; 53; 80; 110; 143; 443; 993; 995; 1433; 3306; 5432; 6379; 8080;
   8443; 9000].

Definition keyword_groups : list (list string * (string * string)) :=
  [ (["ssh"; "sshd"], ("system", "SSH"));
    (["nginx"; "apache"; "httpd"], ("web", "Web Server"));
    (["mysql"; "postgres"; "redis"], ("database", "Database")) ].

(** Case-insensitive substring match of the owner against the groups. *)
Definition owner_rule (owner : option string) : option Rule :=
  match owner with
  | None => None
  | Some o =>
      match List.find (fun g => existsb (includes (toLowerCase o)) (fst g))
              keyword_groups with
      | Some (_, (ty, nm)) => Some (OwnerKeyword ty nm)
      | None => None
      end
  end.

Definition web_port (p : Z) : bool :=
  existsb (Z.eqb p) [80; 443; 8080; 8443]
  || ((3000 <=? p) && (p <=? 3999)) || ((4000 <=? p) && (p <=? 4999))
  || ((8000 <=? p) && (p <=? 8999)) || ((9000 <=? p) && (p <=? 9999)).

Definition first_match (port : Z) (owner : option string) : Rule :=
  if existsb (Z.eqb port) well_known_ports then WellKnownPort
  else
    match owner_rule owner with
    | Some r => r
    | None =>
        if web_port port then WebPortRange
        else if port <? 1024 then PortBelow1024
        else DefaultService
    end.

Definition yields (r : Rule) (port : Z) (d : ServiceDescriptor) : Prop :=
  match r with
  | WellKnownPort => table_get WELL_KNOWN_PORTS port = Some d
  | OwnerKeyword ty nm => type d = ty /\ name d = nm
  | WebPortRange => type d = "web" /\ name d = "Web Service"
  | PortBelow1024 => type d = "system" /\ name d = "System Service"
  | DefaultService => type d = "service" /\ name d = "Service"
  end.

End ClassifierRules.

(** ** [parseInt(string, 10)] *)

Module JSNumber.
Import JS.

Definition digit_value (c : ascii) : option Z :=
  let n := nat_of_ascii c in
  if (Nat.leb 48 n && Nat.leb n 57)%bool then Some (Z.of_nat (n - 48))
  else None.

(** The value of the longest prefix of decimal digits, continuing [acc]. *)
Fixpoint parse_digits (s : string) (acc : Z) : Z :=
  match s with
  | EmptyString => acc
  | String c r =>
      match digit_value c with
      | Some v => parse_digits r (10 * acc + v)
      | None => acc
      end
  end.

(** [parseInt(s, 10)]: leading white space is skipped, one sign is read,
    then the longest run of decimal digits; [None] is NaN (no digit there).
    The value is the exact integer; a double is exact up to 2^53, far above
    any port. *)
Definition parseInt (s : string) : option Z :=
  let s1 := trimStart s in
  let '(sign, s2) :=
    match s1 with
    | String "-"%char r => (-1, r)
    | String "+"%char r => (1, r)
    | _ => (1, s1)
    end in
  match s2 with
  | String c _ =>
      if present (digit_value c) then Some (sign * parse_digits s2 0) else None
  | EmptyString => None
  end.

End JSNumber.

(** ** PingEndpoint: [GET /api/ping] *)

Module Ping.
Import JS JSNumber.

(** The query string of the request. *)
Record Query := mkQuery {
  host_ip : option string;
  host_port : option string;
  target_server_url : option string;
  owner : option string;
  internal : option string;
  container_id : option string;
  source : option string;
  server_id : option string;
  debug : option string
}.

(** What the handler consults outside its own code: the [url] column of the
    row of a server ([None] when there is no row or the column is NULL; the
    query may throw), the peer that a remote ping is forwarded to (given the
    base url and the parameters set on the query; it answers with a status
    and a body, or the fetch fails), the health report of the Docker client
    (a client that rejects is not modelled: the handler does not catch it),
    the [hostname] of a parsed URL ([None] when the constructor throws), the
    environment test for Docker with the address [getDockerHostIP] returns,
    and the network in front of each probe. *)
Record Env := mkEnv {
  peer_url : string -> Store.outcome (option string);
  proxy : string -> list (string * string) -> Store.outcome (Z * string);
  container_health : string -> option string * option string;
  url_hostname : string -> option string;
  isInDocker : bool;
  dockerHostIP : string;
  https_net : string -> Z -> Probe.Network;
  http_net : string -> Z -> Probe.Network
}.

Record PingStatus := mkPing {
  reachable : bool;
  status : string;
  color : string;
  title : string;
  protocol : option string;
  serviceType : string;
  serviceName : string;
  description : option string
}.

Inductive Answer :=
| Rejected (code : Z) (error : string)
| Proxied (code : Z) (body : string)
| Status (r : PingStatus).

(** [url.replace(/\/$/, '')] *)
Fixpoint strip_trailing_slash (s : string) : string :=
  match s with
  | EmptyString => EmptyString
  | String c EmptyString => if Ascii.eqb c "/" then EmptyString else s
  | String c r => String c (strip_trailing_slash r)
  end.

(** The parameters set on the forwarded query, in order. *)
Definition forwarded (q : Query) : list (string * string) :=
  [("internal", "true"); ("container_id", default "" (container_id q))]
  ++ (if truthy_opt truthy_str (host_ip q)
      then [("host_ip", default "" (host_ip q))] else [])
  ++ (if truthy_opt truthy_str (host_port q)
      then [("host_port", default "" (host_port q))] else [])
  ++ (if truthy_opt truthy_str (owner q)
      then [("owner", default "" (owner q))] else [])
  ++ (if truthy_opt truthy_str (source q)
      then [("source", default "" (source q))] else [])
  ++ (if str_eq (debug q) "true" then [("debug", "true")] else []).

(** The colour, status and title drawn from the health of a container. *)
Definition container_verdict (health : option string * option string)
  : string * string * string :=
  let state := toLowerCase (render_opt (or_null (fst health))) in
  let h := toLowerCase (render_opt (or_null (snd health))) in
  if String.eqb state "running" then
    if String.eqb h "healthy" then ("green", "reachable", "Container healthy")
    else if String.eqb h "starting" || String.eqb h "none"
            || String.eqb h "unhealthy" || String.eqb h "unknown" then
      ("yellow", "unknown",
       if String.eqb h "unhealthy" then "Container unhealthy"
       else "Container running")
    else ("yellow", "unknown", "Container running")
  else if String.eqb state "exited" || String.eqb state "dead"
          || String.eqb state "created" then
    ("red", "unreachable", "Container not running")
  else ("gray", "unknown", "Container status unknown").

Definition generic_host (h : string) : bool :=
  String.eqb h "0.0.0.0" || String.eqb h "127.0.0.1" || String.eqb h "[::]"
  || String.eqb h "[::1]".

(** The host that is probed in place of [host_ip]. *)
Definition pingable_host (env : Env) (q : Query) (ip : string) : string :=
  if truthy_opt truthy_str (target_server_url q) && generic_host ip then
    match url_hostname env (default "" (target_server_url q)) with
    | Some h => h
    | None => ip
    end
  else if generic_host ip then
    if isInDocker env then dockerHostIP env else "localhost"
  else ip.

(** The handler.  [detectServiceType] is handed the text of the port and
    parses it as the handler has just done, to the same number. *)
Definition ping (env : Env) (q : Query) : Answer :=
  if Api.missing (host_ip q) || Api.missing (host_port q) then
    Rejected 400 "host_ip and host_port are required"
  else
    match parseInt (default "" (host_port q)) with
    | None => Rejected 400 "Invalid host_port"
    | Some portNum =>
      if (portNum <=? 0) || (65535 <? portNum) then
        Rejected 400 "Invalid host_port"
      else
        let serviceInfo := Classifier.detectServiceType portNum (owner q) in
        if str_eq (internal q) "true" && truthy_opt truthy_str (container_id q)
        then
          if truthy_opt truthy_str (server_id q)
             && negb (str_eq (server_id q) "local") then
            match peer_url env (default "" (server_id q)) with
            | Store.Throw _ => Rejected 502 "failed to proxy remote ping"
            | Store.Return row =>
                if negb (truthy_opt truthy_str row) then
                  Rejected 400 "server url not found for remote ping"
                else
                  match proxy env (strip_trailing_slash (default "" row))
                          (forwarded q) with
                  | Store.Return (st, body) => Proxied st body
                  | Store.Throw _ => Rejected 502 "failed to proxy remote ping"
                  end
            end
          else
            let '(color, status, title) :=
              container_verdict
                (container_health env (default "" (container_id q))) in
            Status (mkPing (String.eqb color "green") status color title None
                      "service" (Classifier.name serviceInfo)
                      (Some "Internal port status based on container health"))
        else if String.eqb (Classifier.type serviceInfo) "system"
                || str_eq (source q) "system" then
          Status (mkPing true "system" "gray"
                    (if str_eq (source q) "system" then "System service"
                     else Classifier.description serviceInfo)
                    None "system"
                    (if str_eq (source q) "system" then "System Service"
                     else Classifier.name serviceInfo)
                    None)
        else
          let host := pingable_host env q (default "" (host_ip q)) in
          let httpsResponse :=
            snd (Probe.testProtocol "https" (https_net env host portNum)) in
          let httpResponse :=
            snd (Probe.testProtocol "http" (http_net env host portNum)) in
          let result :=
            Resolver.determineServiceStatus serviceInfo httpsResponse
              httpResponse in
          Status (mkPing
                    (negb (String.eqb (Resolver.status result) "unreachable"))
                    (Resolver.status result) (Resolver.color result)
                    (Resolver.title result)
                    (or_null (Resolver.sprotocol result))
                    (Classifier.type serviceInfo)
                    (Classifier.name serviceInfo)
                    (Some (Resolver.description result)))
    end.

End Ping.

(** ** The enrichment of a local scan: [GET /api/servers/:id/scan] *)

Module Scan.
Import JS Store.

(** A port as a collector reports it: the fields the two statements bind. *)
Record Port := mkPort {
  host_ip : string;
  host_port : Z;
  protocol : string;
  container_id : option string;
  internal : bool
}.

Record Enriched := mkEnriched {
  port : Port;
  note : option string;
  ignored : bool
}.

(** The values bound to the statements: [server_id = 'local'], then
    [port.host_ip, port.host_port, port.protocol, port.container_id || null,
    internalFlag]. *)
Definition local_key (p : Port) : Key :=
  mkKey "local" (host_ip p) (host_port p) (protocol p)
    (or_null (container_id p)) (internal p).

(** [{ ...port, note: noteEntry ? noteEntry.note : null,
       ignored: !!ignoreEntry }] *)
Definition enrich (d : DB) (p : Port) : Enriched :=
  mkEnriched p
    (option_map Store.note (select_get note_key (notes d) (local_key p)))
    (present (select_get ignore_key (ignores d) (local_key p))).

Definition enrichedPorts (d : DB) (ports : list Port) : list Enriched :=
  List.map (enrich d) ports.

End Scan.

(** ** RecoveryManager: the generation of keys *)

Module Recovery.
Import JS Auth.

Definition ADJECTIVES : list string :=
  ["hungry"; "stellar"; "brisk"; "caffeinated"; "curious"; "wired"; "silent";
   "vigilant"; "midnight"; "luminous"; "restless"; "velvet"; "electric";
   "braided"; "sly"].

Definition NOUNS : list string :=
  ["otter"; "ferret"; "jaguar"; "lemur"; "heron"; "badger"; "chisel";
   "daemon"; "antenna"; "pluto"; "vortex"; "relay"; "sparrow"; "circuit";
   "capsule"].

(** [toUpperCase] on one character. *)
Definition upper_ascii (c : ascii) : ascii :=
  let n := nat_of_ascii c in
  if (97 <=? n)%nat && (n <=? 122)%nat then ascii_of_nat (n - 32) else c.

Fixpoint toUpperCase (s : string) : string :=
  match s with
  | EmptyString => EmptyString
  | String c r => String (upper_ascii c) (toUpperCase r)
  end.

(** [word.charAt(0).toUpperCase() + word.slice(1)] *)
Definition capitalizeWord (word : string) : string :=
  match word with
  | EmptyString => EmptyString
  | String c r => String (upper_ascii c) r
  end.

(** What the random sources give in one call: the two indices
    [Math.floor(Math.random() * 15)], below 15, and the two bytes of
    [crypto.randomBytes(2)]. *)
Record Draw := mkDraw {
  adjective : nat;
  noun : nat;
  byte1 : Z;
  byte2 : Z
}.

Definition hex_digit (n : Z) : ascii :=
  if n <? 10 then ascii_of_nat (Z.to_nat (48 + n))
  else ascii_of_nat (Z.to_nat (87 + n)).

(** [Buffer.toString('hex')] on one byte. *)
Definition hex_byte (b : Z) : string :=
  String (hex_digit (b / 16)) (String (hex_digit (b mod 16)) EmptyString).

Definition buildFriendlyKey (d : Draw) : string :=
  capitalizeWord (nth (adjective d) ADJECTIVES "")
  +:+ capitalizeWord (nth (noun d) NOUNS "")
  +:+ toUpperCase (hex_byte (byte1 d) +:+ hex_byte (byte2 d)).

(** [generateKey()] at time [now]; [enabled] is [RECOVERY_MODE === 'true']. *)
Definition generateKey (enabled : bool) (r : RecoveryManager) (now : Z)
  (d : Draw) : option string * RecoveryManager :=
  if negb enabled then (None, r)
  else
    let key := buildFriendlyKey d in
    (Some key, mkRecovery (Some key) (Some (now + 15 * 60 * 1000)) false).

End Recovery.

(** ** AuthRoutes: setup and change-password *)

Module Account.
Import JS Auth.

(** The session of a request: [req.session.userId], [req.session.username]
    and [req.session.requirePasswordChange]. *)
Record Session := mkSession {
  userId : option string;
  sessionUser : option string;
  requirePasswordChange : bool
}.

Inductive Body :=
| Error (error : string)
| SetupDone (uname : string)
| PasswordChanged.

Record Response := mkResponse {
  code : Z;
  body : Body
}.

Definition set_users (s : Server) (l : list User) : Server :=
  mkServer (authEnabled s) l (recovery s) (now s) (regenerate_fails s)
    (save_fails s).

Section Handlers.
(** [bcrypt.compare(password, hash)], and [bcrypt.hash(password, 10)] with
    the salt drawn in the call. *)
Variable bcrypt_compare : string -> string -> bool.
Variable bcrypt_hash : string -> string.

(** [router.post('/setup', ...)]: [uuid] is what [crypto.randomUUID()]
    gives.  The server afterwards, the answer, and the session that was
    saved, if any.  The row carries [created_at] and [last_login], both the
    current time. *)
Definition setup (s : Server) (uuid : string) (uname password : option string)
  : Server * Response * option Session :=
  if negb (authEnabled s) then
    (s, mkResponse 400 (Error "Authentication is not enabled"), None)
  else if negb (truthy_opt truthy_str uname)
          || negb (truthy_opt truthy_str password) then
    (s, mkResponse 400 (Error "Username and password are required"), None)
  else
    let un := default "" uname in
    let pw := default "" password in
    if Z.of_nat (String.length (trim un)) <? 3 then
      (s, mkResponse 400 (Error "Username must be at least 3 characters"), None)
    else if Z.of_nat (String.length pw) <? 8 then
      (s, mkResponse 400 (Error "Password must be at least 8 characters"), None)
    else if 0 <? Z.of_nat (List.length (users s)) then
      (s, mkResponse 400 (Error "Setup already completed"), None)
    else
      let passwordHash := bcrypt_hash pw in
      let s' :=
        set_users s
          (users s ++ [mkUser uuid (trim un) passwordHash (Some (now s))]) in
      if regenerate_fails s then
        (s', mkResponse 500 (Error "Setup failed"), None)
      else if save_fails s then
        (s', mkResponse 500 (Error "Setup failed"), None)
      else
        (s', mkResponse 200 (SetupDone (trim un)),
         Some (mkSession (Some uuid) (Some (trim un)) false)).

(** [router.post('/change-password', ...)]: the server afterwards, the
    answer, and the session object afterwards. *)
Definition change_password (s : Server) (session : option Session)
  (currentPassword newPassword : option string)
  : Server * Response * option Session :=
  if negb (authEnabled s) then
    (s, mkResponse 400 (Error "Authentication is not enabled"), session)
  else
    match session with
    | None => (s, mkResponse 401 (Error "Not authenticated"), session)
    | Some sess =>
        if negb (truthy_opt truthy_str (userId sess)) then
          (s, mkResponse 401 (Error "Not authenticated"), session)
        else if negb (truthy_opt truthy_str newPassword) then
          (s, mkResponse 400 (Error "New password is required"), session)
        else if Z.of_nat (String.length (default "" newPassword)) <? 8 then
          (s, mkResponse 400 (Error "Password must be at least 8 characters"),
           session)
        else if negb (requirePasswordChange sess)
                && negb (truthy_opt truthy_str currentPassword) then
          (s, mkResponse 400 (Error "Current password is required"), session)
        else
          match List.find
                  (fun u => String.eqb (id u) (default "" (userId sess)))
                  (users s) with
          | None => (s, mkResponse 404 (Error "User not found"), session)
          | Some user =>
              if negb (requirePasswordChange sess)
                 && negb (bcrypt_compare (default "" currentPassword)
                            (password_hash user)) then
                (s, mkResponse 401 (Error "Current password is incorrect"),
                 session)
              else
                let passwordHash := bcrypt_hash (default "" newPassword) in
                let s' :=
                  set_users s
                    (List.map
                       (fun u =>
                          if String.eqb (id u) (id user)
                          then mkUser (id u) (username u) passwordHash
                                 (last_login u)
                          else u) (users s)) in
                let sess' :=
                  mkSession (userId sess) (sessionUser sess) false in
                if save_fails s then
                  (s', mkResponse 500 (Error "Password change failed"),
                   Some sess')
                else (s', mkResponse 200 PasswordChanged, Some sess')
          end
    end.

End Handlers.

End Account.

(** ** The table of servers: [POST /api/servers] and
    [DELETE /api/servers/:id] *)

Module Servers.
Import JS Store Api.

(** A row of [servers]: the columns the handlers read or write ([platform]
    and [platform_config], which no handler names, are left to their
    defaults).  In the schema of db.js [id] is the primary key, [label],
    [url] and [type] are NOT NULL, [parentId] references [servers(id)], and
    the three annotation tables reference [servers(id)] ON DELETE CASCADE. *)
Record ServerRow := mkServerRow {
  id : string;
  label : string;
  url : string;
  type : string;
  parentId : option string;
  platform_type : option string;
  unreachable : Z
}.

(** The four tables. *)
Record Registry := mkRegistry {
  rows : list ServerRow;
  notes : list NoteRow;
  ignores : list IgnoreRow;
  custom_service_names : list NameRow
}.

(** The body of [POST /api/servers]. *)
Record ServerBody := mkBody {
  b_id : option string;
  b_label : option string;
  b_url : option string;
  b_parentId : option string;
  b_type : option string;
  b_unreachable : option bool;
  b_platform_type : option string
}.

Definition has_id (l : list ServerRow) (i : string) : bool :=
  existsb (fun r => String.eqb (id r) i) l.

(** [FOREIGN KEY (parentId) REFERENCES servers(id)], checked when the
    statement ends. *)
Definition parent_ok (l : list ServerRow) (p : option string) : bool :=
  match p with
  | None => true
  | Some i => has_id l i
  end.

(** [INSERT INTO servers (id, label, url, parentId, type, unreachable,
    platform_type) VALUES (...)]; [url] is declared NOT NULL. *)
Definition servers_insert (l : list ServerRow) (i lb : string)
  (u p : option string) (t : string) (un : Z) (pt : option string)
  : list ServerRow + string :=
  match u with
  | None => inr (NOT_NULL_FAILED "servers.url")
  | Some u' =>
      if has_id l i then inr (PK_FAILED "servers.id")
      else
        let l' := l ++ [mkServerRow i lb u' t p pt un] in
        if parent_ok l' p then inl l' else inr FK_FAILED
  end.

(** [UPDATE servers SET label = ?, url = ?, parentId = ?, type = ?,
    unreachable = ?, platform_type = ? WHERE id = ?] *)
Definition servers_update (l : list ServerRow) (i lb : string)
  (u p : option string) (t : string) (un : Z) (pt : option string)
  : list ServerRow + string :=
  if has_id l i then
    match u with
    | None => inr (NOT_NULL_FAILED "servers.url")
    | Some u' =>
        if parent_ok l p then
          inl (List.map
                 (fun r => if String.eqb (id r) i
                           then mkServerRow (id r) lb u' t p pt un else r) l)
        else inr FK_FAILED
    end
  else inl l.

Definition set_rows (g : Registry) (l : list ServerRow) : Registry :=
  mkRegistry l (notes g) (ignores g) (custom_service_names g).

Section Handlers.
(** Whether [new URL(s)] returns. *)
Variable url_parses : string -> bool.

(** The body as [validateServerInput] hands it on. *)
Definition normalised (b : ServerBody) : ServerBody :=
  mkBody (b_id b) (Some (trim (default "" (b_label b))))
    (if truthy_opt truthy_str (b_url b)
     then Some (trim (default "" (b_url b))) else None)
    (b_parentId b)
    (Some (default "peer" (or_null (b_type b))))
    (b_unreachable b)
    (Some (default "unknown" (or_null (b_platform_type b)))).

(** [validateServerInput]: the answer, or the body as the handler finds
    it. *)
Definition validateServerInput (b : ServerBody) : Response + ServerBody :=
  if missing (b_label b) || blank (b_label b) then
    inl (invalid "Field 'label' is required and must be a non-empty string"
           "label")
  else if str_eq (b_type b) "peer" && truthy_opt truthy_str (b_url b)
          && negb (blank (b_url b)) then
    if url_parses (trim (default "" (b_url b))) then inr (normalised b)
    else
      inl (invalid
             "Field 'url' must be a valid URL format if provided for a peer"
             "url")
  else if str_eq (b_type b) "peer"
          && (missing (b_url b) || blank (b_url b))
          && negb (truthy_bool (b_unreachable b)) then
    inl (invalid
           "Peer servers must include a valid URL unless marked unreachable"
           "url")
  else inr (normalised b).

(** The [catch] of the handler. *)
Definition save_failed (i msg : string) : Response :=
  if includes msg "UNIQUE constraint failed" then
    mkResp 409 (Failed ("Server with ID '" +:+ i +:+ "' already exists.")
                  None None)
  else if includes (toLowerCase msg) "can only bind"
          || includes (toLowerCase msg) "datatype mismatch" then
    mkResp 500 (Failed "Failed to save server due to data type issue."
                  (Some msg) None)
  else mkResp 500 (Failed "Failed to save server" (Some msg) None).

(** [POST /api/servers], behind [validateServerInput]. *)
Definition post_servers (body : ServerBody) (g : Registry)
  : Registry * Response :=
  match validateServerInput body with
  | inl r => (g, r)
  | inr b =>
      if missing (b_id b) then
        (g, mkResp 400 (Failed "Field 'id' is required" None None))
      else if str_eq (b_type b) "peer" && negb (truthy_bool (b_unreachable b))
              && (missing (b_url b) || blank (b_url b)) then
        (g, invalid "Field 'url' is required for reachable peer servers" "url")
      else
        let i := default "" (b_id b) in
        let dbUnreachable := if truthy_bool (b_unreachable b) then 1 else 0 in
        let statement :=
          if has_id (rows g) i then servers_update else servers_insert in
        match statement (rows g) i (default "" (b_label b)) (b_url b)
                (or_null (b_parentId b)) (default "" (b_type b))
                dbUnreachable (b_platform_type b) with
        | inl l =>
            (set_rows g l,
             if has_id (rows g) i
             then mkResp 200 (Saved "Server updated successfully")
             else mkResp 201 (Saved "Server added successfully"))
        | inr msg => (g, save_failed i msg)
        end
  end.

End Handlers.

(** [validateServerIdParam] *)
Definition validateServerIdParam (serverId : option string)
  : option Response :=
  if missing serverId || blank serverId then
    Some (invalid
            "Server ID parameter is required and must be a non-empty string"
            "id")
  else None.

(** The transaction of [DELETE /api/servers/:id]; the last statement takes
    with it, by ON DELETE CASCADE, the rows of the three tables that
    reference the server. *)
Definition deleteTransaction (serverId : string) (g : Registry) : Registry :=
  let detached :=
    List.map
      (fun r => if opt_str_eqb (parentId r) (Some serverId)
                then mkServerRow (id r) (label r) (url r) (type r) None
                       (platform_type r) (unreachable r)
                else r) (rows g) in
  let notes' :=
    List.filter
      (fun r => negb (String.eqb (server_id (note_key r)) serverId))
      (notes g) in
  let ignores' :=
    List.filter
      (fun r => negb (String.eqb (server_id (ignore_key r)) serverId))
      (ignores g) in
  let rows' :=
    List.filter (fun r => negb (String.eqb (id r) serverId)) detached in
  let names' :=
    List.filter
      (fun r => negb (String.eqb (server_id (name_key r)) serverId))
      (custom_service_names g) in
  mkRegistry rows' notes' ignores' names'.

Definition delete_servers (serverId : option string) (g : Registry)
  : Registry * Response :=
  match validateServerIdParam serverId with
  | Some r => (g, r)
  | None =>
      let sid := default "" serverId in
      if negb (has_id (rows g) sid) then
        (g, mkResp 404 (Failed "Server not found" None None))
      else if String.eqb sid "local" then
        (g, mkResp 400 (Failed "Cannot delete local server" None None))
      else
        let server :=
          List.find (fun r => String.eqb (id r) sid) (rows g) in
        (deleteTransaction sid g,
         mkResp 200
           (Saved ("Server '" +:+ default "" (option_map label server)
                   +:+ "' (ID: " +:+ sid +:+ ") deleted successfully")))
  end.

(** The store that the annotation handlers work on. *)
Definition store_of (g : Registry) : DB :=
  mkDB (List.map id (rows g)) (notes g) (ignores g) (custom_service_names g).

End Servers.

(** ** The address of the Docker host: [getDockerHostIP] *)

Module Route.
Import JS.

(** [String.prototype.split] with a separator of one character. *)
Fixpoint split_on (sep : ascii) (s : string) : list string :=
  match s with
  | EmptyString => [EmptyString]
  | String c r =>
      if Ascii.eqb c sep then EmptyString :: split_on sep r
      else
        match split_on sep r with
        | h :: t => String c h :: t
        | [] => [String c EmptyString]
        end
  end.

Definition hex_value (c : ascii) : option Z :=
  let n := Z.of_nat (nat_of_ascii c) in
  if (48 <=? n) && (n <=? 57) then Some (n - 48)
  else if (97 <=? n) && (n <=? 102) then Some (n - 87)
  else if (65 <=? n) && (n <=? 70) then Some (n - 55)
  else None.

Fixpoint parse_hex (s : string) (acc : Z) : Z :=
  match s with
  | EmptyString => acc
  | String c r =>
      match hex_value c with
      | Some d => parse_hex r (16 * acc + d)
      | None => acc
      end
  end.

(** [parseInt(s, 16)]: leading white space, a sign, an optional [0x], then
    the longest run of hexadecimal digits; [None] is [NaN]. *)
Definition parseInt16 (s : string) : option Z :=
  let s1 := trimStart s in
  let '(sign, s2) :=
    match s1 with
    | String "-"%char r => (-1, r)
    | String "+"%char r => (1, r)
    | _ => (1, s1)
    end in
  let s3 :=
    match s2 with
    | String "0"%char (String "x"%char r) => r
    | String "0"%char (String "X"%char r) => r
    | _ => s2
    end in
  match s3 with
  | String c _ =>
      if present (hex_value c) then Some (sign * parse_hex s3 0) else None
  | EmptyString => None
  end.

(** A number in [Array.prototype.join]. *)
Definition render (n : option Z) : option string :=
  match n with
  | Some z => Some (num_to_string z)
  | None => Some "NaN"
  end.

(** The gateway column of [/proc/net/route] as dotted decimal. *)
Definition gateway_of (gatewayHex : string) : string :=
  join "."
    [render (parseInt16 (substring 6 2 gatewayHex));
     render (parseInt16 (substring 4 2 gatewayHex));
     render (parseInt16 (substring 2 2 gatewayHex));
     render (parseInt16 (substring 0 2 gatewayHex))].

Definition field (fields : list string) (n : nat) : option string :=
  nth_error fields n.

(** The loop of [getDockerHostIP] over the lines. *)
Fixpoint first_default_gateway (lines : list string) : option string :=
  match lines with
  | [] => None
  | line :: rest =>
      let fields := split_on "009"%char line in
      if str_eq (field fields 1) "00000000"
         && str_eq (field fields 7) "00000000" then
        Some (gateway_of (default "" (field fields 2)))
      else first_default_gateway rest
  end.

(** [getDockerHostIP()]: [platform] is [os.platform()], [desktop] what
    [isDockerDesktopEnvironment()] returns, [routes] the text of
    [/proc/net/route] ([None] when the file is missing or cannot be
    read). *)
Definition getDockerHostIP (platform : string) (desktop : bool)
  (routes : option string) : string :=
  if String.eqb platform "darwin" || String.eqb platform "win32" then
    "host.docker.internal"
  else if desktop then "host.docker.internal"
  else
    match routes with
    | Some text =>
        match first_default_gateway (split_on "010"%char text) with
        | Some gateway => gateway
        | None => "172.17.0.1"
        end
    | None => "172.17.0.1"
    end.

End Route.

(** ** The port lists of [GET /api/containers/:id/details] *)

Module Container.
Import JS JSNumber.

(** An element of [NetworkSettings.Ports[containerPort]]. *)
Record Binding := mkBinding {
  HostIp : option string;
  HostPort : option string
}.

(** An element of [portMappings]; a number that is [NaN] is [None], and
    [internal] is set only on the entries of unbound ports. *)
Record Mapping := mkMapping {
  host_ip : string;
  host_port : option Z;
  container_port : option Z;
  protocol : string;
  internal : bool
}.

Record Exposed := mkExposed {
  port : option Z;
  exposed_protocol : string
}.

(** [parseInt(x, 10)] on a value that may be [undefined]. *)
Definition parse (o : option string) : option Z :=
  match o with
  | Some s => parseInt s
  | None => None
  end.

Definition or_default (d : string) (o : option string) : string :=
  match or_null o with
  | Some s => s
  | None => d
  end.

(** The body of the loop over [Object.entries(portsObj)]: what it pushes to
    [portMappings] and to [exposedUnmapped]. *)
Definition map_port (containerPort : string)
  (hostBindings : option (list Binding)) : list Mapping * list Exposed :=
  let parts := Route.split_on "/"%char containerPort in
  let p := nth_error parts 0 in
  let proto := nth_error parts 1 in
  match hostBindings with
  | Some (hb :: rest) =>
      (List.map
         (fun hb =>
            mkMapping (or_default "0.0.0.0" (HostIp hb)) (parse (HostPort hb))
              (parse p) (or_default "tcp" proto) false)
         (hb :: rest),
       [])
  | _ =>
      let portNum := parse p in
      ([mkMapping "0.0.0.0" portNum portNum (or_default "tcp" proto) true],
       [mkExposed portNum (or_default "tcp" proto)])
  end.

Fixpoint map_ports (ports : list (string * option (list Binding)))
  : list Mapping * list Exposed :=
  match ports with
  | [] => ([], [])
  | (containerPort, hostBindings) :: rest =>
      let '(m, e) := map_port containerPort hostBindings in
      let '(ms, es) := map_ports rest in
      (m ++ ms, e ++ es)
  end.

End Container.

(** * Properties *)

(** ** ServiceClassifier *)

Section ClassifierProps.
Import JS Classifier ClassifierRules.

Lemma table_get_keys (t : list (Z * ServiceDescriptor)) (k : Z) :
  existsb (Z.eqb k) (List.map fst t) = false <-> table_get t k = None.
Proof.
  induction t as [|[k' d] t IH]; simpl; [tauto|].
  destruct (k =? k'); simpl; [split; discriminate | exact IH].
Qed.

Lemma well_known_ports_are_the_table :
  well_known_ports = List.map fst WELL_KNOWN_PORTS.
Proof. reflexivity. Qed.

(** C6: for every port number in 0..65535 and every owner (or none),
    [detectServiceType] returns a descriptor (the function is total: no
    path throws), and that descriptor is the one of the first rule that
    matches, in the order: well-known port table, owner keyword, web port
    range, port below 1024, default. *)
Theorem detectServiceType_first_match (port : Z) (owner : option string) :
  0 <= port <= 65535 ->
  yields (first_match port owner) port (detectServiceType port owner).
Proof.
  intros _. unfold first_match, detectServiceType, parseInt10.
  rewrite well_known_ports_are_the_table.
  destruct (table_get WELL_KNOWN_PORTS port) as [d|] eqn:Ht.
  - destruct (existsb (Z.eqb port) (List.map fst WELL_KNOWN_PORTS)) eqn:He.
    + exact Ht.
    + apply table_get_keys in He. congruence.
  - apply table_get_keys in Ht. rewrite Ht.
    assert (Hrange :
      yields (if web_port port then WebPortRange
              else if port <? 1024 then PortBelow1024 else DefaultService)
        port
        (if ((port =? 80) || (port =? 443) || (port =? 8080) || (port =? 8443)
             || ((3000 <=? port) && (port <=? 3999))
             || ((4000 <=? port) && (port <=? 4999))
             || ((8000 <=? port) && (port <=? 8999))
             || ((9000 <=? port) && (port <=? 9999)))
         then mkDesc "Web Service" "web" "Web service"
         else if port <? 1024
              then mkDesc "System Service" "system" "System service"
              else mkDesc "Service" "service" "Application service")).
    { unfold web_port. simpl existsb. rewrite orb_false_r, !orb_assoc.
      destruct ((port =? 80) || (port =? 443) || (port =? 8080)
                || (port =? 8443)
                || ((3000 <=? port) && (port <=? 3999))
                || ((4000 <=? port) && (port <=? 4999))
                || ((8000 <=? port) && (port <=? 8999))
                || ((9000 <=? port) && (port <=? 9999))); simpl.
      - split; reflexivity.
      - destruct (port <? 1024); simpl; split; reflexivity. }
    destruct owner as [o|]; simpl owner_rule; [|exact Hrange].
    unfold keyword_groups. simpl List.find.
    rewrite !orb_false_r.
    destruct (truthy_str o) eqn:Htr.
    + generalize (toLowerCase o); intros lo.
      destruct (includes lo "ssh"), (includes lo "sshd"),
        (includes lo "nginx"), (includes lo "apache"), (includes lo "httpd"),
        (includes lo "mysql"), (includes lo "postgres"), (includes lo "redis");
        simpl; first [exact Hrange | split; reflexivity].
    + unfold truthy_str in Htr. apply negb_false_iff in Htr.
      apply String.eqb_eq in Htr. subst o. simpl. exact Hrange.
Qed.

Lemma detectServiceType_first_match_witness :
  0 <= 8081 <= 65535 /\
  yields (first_match 8081 (Some "Nginx: worker"))
    8081 (detectServiceType 8081 (Some "Nginx: worker")).
Proof.
  split; [lia | apply (detectServiceType_first_match 8081); lia].
Defined.

End ClassifierProps.

(** ** StatusResolver *)

Section ResolverProps.
Import Classifier Resolver.

(** C5: the decision-table cases of the status resolver.  A web descriptor
    with HTTPS unreachable and HTTP reachable with status 404 and no SPA
    signature is listening/yellow; with the SPA signature it is
    accessible/green; a system descriptor is system/gray whatever the probes
    say; a database descriptor whose working response has status 403 is
    listening/yellow. *)
Theorem determineServiceStatus_table :
  (forall info https http,
     type info = "web" -> reachable https = false -> reachable http = true ->
     statusCode http = Some 404 -> isSPA http = Some false ->
     status (determineServiceStatus info https http) = "listening"
     /\ color (determineServiceStatus info https http) = "yellow")
  /\ (forall info https http,
        type info = "web" -> reachable https = false -> reachable http = true ->
        statusCode http = Some 404 -> isSPA http = Some true ->
        status (determineServiceStatus info https http) = "accessible"
        /\ color (determineServiceStatus info https http) = "green")
  /\ (forall info https http,
        type info = "system" ->
        status (determineServiceStatus info https http) = "system"
        /\ color (determineServiceStatus info https http) = "gray")
  /\ (forall info https http w,
        type info = "database" ->
        workingResponse https http = Some w -> statusCode w = Some 403 ->
        status (determineServiceStatus info https http) = "listening"
        /\ color (determineServiceStatus info https http) = "yellow").
Proof.
  repeat split; intros;
    unfold determineServiceStatus, workingResponse, web_status, other_status in *;
    repeat first
      [ progress (repeat match goal with H : _ = _ |- _ => rewrite H end)
      | progress simpl ];
    split; reflexivity.
Qed.

End ResolverProps.

(** ** PortAggregator *)

Section AggregatorProps.
Import JS Aggregator.

Lemma opt_str_eqb_eq (a b : option string) : opt_str_eqb a b = true <-> a = b.
Proof.
  destruct a as [x|], b as [y|]; simpl; try (split; congruence).
  rewrite String.eqb_eq. split; congruence.
Qed.

Lemma owners_include_spec (l : list (option string)) (x : option string) :
  owners_include l x = true <-> x ∈ l.
Proof.
  unfold owners_include. rewrite existsb_exists. split.
  - intros (y & Hy & Heq). apply opt_str_eqb_eq in Heq. subst.
    now apply list_elem_of_In.
  - intros H. exists x. split; [now apply list_elem_of_In|].
    now apply opt_str_eqb_eq.
Qed.

Lemma pids_include_spec (l : list Z) (x : Z) :
  pids_include l x = true <-> x ∈ l.
Proof.
  unfold pids_include. rewrite existsb_exists. split.
  - intros (y & Hy & Heq). apply Z.eqb_eq in Heq. subst.
    now apply list_elem_of_In.
  - intros H. exists x. split; [now apply list_elem_of_In | apply Z.eqb_refl].
Qed.

Lemma acc_get_None (acc : list (string * Group)) (k : string) :
  acc_get acc k = None <-> k ∉ List.map fst acc.
Proof.
  induction acc as [|[k' g] acc IH]; simpl.
  - split; [intros _; apply not_elem_of_nil | reflexivity].
  - rewrite not_elem_of_cons. destruct (String.eqb_spec k' k) as [->|Hne].
    + split; [discriminate | intros [H _]; congruence].
    + rewrite IH. split; [intros H; split; congruence | tauto].
Qed.

Lemma acc_get_Some (acc : list (string * Group)) (k : string) (g : Group) :
  acc_get acc k = Some g -> (k, g) ∈ acc.
Proof.
  induction acc as [|[k' g'] acc IH]; simpl; [discriminate|].
  destruct (String.eqb_spec k' k) as [->|Hne].
  - intros [= ->]. apply elem_of_cons; now left.
  - intros H. apply elem_of_cons; right; auto.
Qed.

Lemma acc_modify_keys (f : Group -> Group) (acc : list (string * Group))
  (k : string) :
  List.map fst (acc_modify f acc k) = List.map fst acc.
Proof.
  induction acc as [|[k' g] acc IH]; simpl; [reflexivity|].
  destruct (String.eqb k' k); simpl; congruence.
Qed.

Lemma acc_modify_elem (f : Group -> Group) (acc : list (string * Group))
  (k k' : string) (g' : Group) :
  NoDup (List.map fst acc) ->
  (k', g') ∈ acc_modify f acc k ->
  (k' <> k /\ (k', g') ∈ acc) \/ (k' = k /\ exists g, (k, g) ∈ acc /\ g' = f g).
Proof.
  induction acc as [|[k0 g0] acc IH]; simpl.
  - intros _ H. now apply elem_of_nil in H.
  - rewrite NoDup_cons. intros [Hk0 Hnd].
    destruct (String.eqb_spec k0 k) as [->|Hne].
    + rewrite elem_of_cons. intros [[= -> ->]|H].
      * right. split; [reflexivity|]. exists g0. split; [|reflexivity].
        apply elem_of_cons; now left.
      * left. split; [|apply elem_of_cons; now right].
        intros ->. apply Hk0.
        change k with (fst (k, g')). now apply list_elem_of_fmap_2.
    + rewrite elem_of_cons. intros [[= -> ->]|H].
      * left. split; [assumption|]. apply elem_of_cons; now left.
      * destruct (IH Hnd H) as [[? ?]|[-> (g & ? & ->)]].
        -- left. split; [assumption|]. apply elem_of_cons; now right.
        -- right. split; [reflexivity|]. exists g. split; [|reflexivity].
           apply elem_of_cons; now right.
Qed.

(** What the accumulator holds once the observations [l] (all of them
    kept by the filter) have been folded in. *)
Definition pids_of_group (l : list PortObservation) (k : string) (g : Group)
  : Prop :=
  NoDup (pids g)
  /\ forall n, n ∈ pids g <->
       n <> 0 /\ exists e, e ∈ l /\ key_of e = k /\ pid e = Some n.

Definition owners_of_group (l : list PortObservation) (k : string) (g : Group)
  : Prop :=
  NoDup (owners g)
  /\ forall o, o ∈ owners g <-> exists e, e ∈ l /\ key_of e = k /\ owner e = o.

Definition acc_inv (l : list PortObservation) (acc : list (string * Group))
  : Prop :=
  NoDup (List.map fst acc)
  /\ (forall e, e ∈ l -> key_of e ∈ List.map fst acc)
  /\ (forall k g, (k, g) ∈ acc ->
        key_of (entry g) = k /\ entry g ∈ l
        /\ pids_of_group l k g /\ owners_of_group l k g).

Lemma truthy_pid_elem (p : option Z) (n : Z) :
  n ∈ truthy_pid p <-> n <> 0 /\ p = Some n.
Proof.
  unfold truthy_pid, truthy_num. destruct p as [m|].
  - destruct (Z.eqb_spec m 0) as [->|Hm]; simpl.
    + rewrite elem_of_nil. split; [tauto | intros [H [= <-]]; congruence].
    + rewrite list_elem_of_singleton. split.
      * intros ->. split; [assumption | reflexivity].
      * intros [_ [= ->]]. reflexivity.
  - rewrite elem_of_nil. split; [tauto | intros [_ H]; discriminate].
Qed.

Lemma truthy_pid_NoDup (p : option Z) : NoDup (truthy_pid p).
Proof.
  unfold truthy_pid. destruct p as [m|]; [|constructor].
  destruct (truthy_num m); [apply NoDup_singleton | constructor].
Qed.

Lemma merge_pids (l : list PortObservation) (e : PortObservation) (g : Group) :
  pids_of_group l (key_of e) g ->
  pids_of_group (l ++ [e]) (key_of e) (merge e g).
Proof.
  intros [Hnd Hiff]. unfold pids_of_group, merge; simpl.
  assert (Hold : forall n,
            (n <> 0 /\ exists e', e' ∈ l ++ [e] /\ key_of e' = key_of e
                                  /\ pid e' = Some n)
            <-> n ∈ pids g \/ (n <> 0 /\ pid e = Some n)).
  { intros n. rewrite Hiff. split.
    - intros [Hn (e' & Hin & Hk & Hp)]. apply elem_of_app in Hin as [Hin|Hin].
      + left. split; [assumption|]. now exists e'.
      + apply list_elem_of_singleton in Hin. subst e'. now right.
    - intros [[Hn (e' & Hin & Hk & Hp)]|[Hn Hp]].
      + split; [assumption|]. exists e'. split; [|tauto].
        apply elem_of_app; now left.
      + split; [assumption|]. exists e. split; [|tauto].
        apply elem_of_app; right. now apply list_elem_of_singleton. }
  destruct (pid e) as [m|] eqn:Hp.
  - unfold truthy_num. destruct (Z.eqb_spec m 0) as [->|Hm]; simpl.
    + split; [assumption|]. intros n. rewrite Hold. split; [tauto|].
      intros [H|[Hn [= <-]]]; [assumption | congruence].
    + destruct (pids_include (pids g) m) eqn:Hinc; simpl.
      * apply pids_include_spec in Hinc. split; [assumption|].
        intros n. rewrite Hold. split; [tauto|].
        intros [H|[Hn [= <-]]]; assumption.
      * assert (Hnotin : m ∉ pids g).
        { intros H. apply pids_include_spec in H. congruence. }
        split.
        -- apply NoDup_app. split; [assumption|]. split.
           ++ intros x Hx Hx'. apply list_elem_of_singleton in Hx'. now subst.
           ++ apply NoDup_singleton.
        -- intros n. rewrite Hold, elem_of_app, list_elem_of_singleton.
           split.
           ++ intros [H| ->]; [now left | right; split; [assumption|reflexivity]].
           ++ intros [H|[Hn [= <-]]]; [now left | now right].
  - split; [assumption|]. intros n. rewrite Hold. split; [tauto|].
    intros [H|[_ H]]; [assumption | discriminate].
Qed.

Lemma merge_owners (l : list PortObservation) (e : PortObservation)
  (g : Group) :
  owners_of_group l (key_of e) g ->
  owners_of_group (l ++ [e]) (key_of e) (merge e g).
Proof.
  intros [Hnd Hiff]. unfold owners_of_group, merge; simpl.
  assert (Hold : forall o,
            (exists e', e' ∈ l ++ [e] /\ key_of e' = key_of e /\ owner e' = o)
            <-> o ∈ owners g \/ owner e = o).
  { intros o. rewrite Hiff. split.
    - intros (e' & Hin & Hk & Ho). apply elem_of_app in Hin as [Hin|Hin].
      + left. now exists e'.
      + apply list_elem_of_singleton in Hin. subst e'. now right.
    - intros [(e' & Hin & Hk & Ho)|Ho].
      + exists e'. split; [|tauto]. apply elem_of_app; now left.
      + exists e. split; [|tauto].
        apply elem_of_app; right. now apply list_elem_of_singleton. }
  destruct (owners_include (owners g) (owner e)) eqn:Hinc.
  - apply owners_include_spec in Hinc. split; [assumption|].
    intros o. rewrite Hold. split; [tauto|]. intros [H| <-]; assumption.
  - assert (Hnotin : owner e ∉ owners g).
    { intros H. apply owners_include_spec in H. congruence. }
    split.
    + apply NoDup_app. split; [assumption|]. split.
      * intros x Hx Hx'. apply list_elem_of_singleton in Hx'. now subst.
      * apply NoDup_singleton.
    + intros o. rewrite Hold, elem_of_app, list_elem_of_singleton.
      split; (intros [H|H]; [now left | now right]).
Qed.

Lemma group_other_key (l : list PortObservation) (e : PortObservation)
  (k : string) (g : Group) :
  k <> key_of e ->
  pids_of_group l k g /\ owners_of_group l k g ->
  pids_of_group (l ++ [e]) k g /\ owners_of_group (l ++ [e]) k g.
Proof.
  intros Hne [[Hnd Hp] [Hnd' Ho]]. split; (split; [assumption|]).
  - intros n. rewrite Hp. split; intros [Hn (e' & Hin & Hk & Hpid)];
      (split; [assumption|]); exists e'; (split; [|tauto]).
    + apply elem_of_app; now left.
    + apply elem_of_app in Hin as [Hin|Hin]; [assumption|].
      apply list_elem_of_singleton in Hin. subst e'. congruence.
  - intros o. rewrite Ho. split; intros (e' & Hin & Hk & Hown);
      exists e'; (split; [|tauto]).
    + apply elem_of_app; now left.
    + apply elem_of_app in Hin as [Hin|Hin]; [assumption|].
      apply list_elem_of_singleton in Hin. subst e'. congruence.
Qed.

Lemma step_inv (l : list PortObservation) (acc : list (string * Group))
  (e : PortObservation) :
  acc_inv l acc -> acc_inv (l ++ [e]) (step acc e).
Proof.
  intros (Hnd & Hcov & Hgrp). unfold step.
  destruct (acc_get acc (key_of e)) as [g0|] eqn:Hget.
  - apply acc_get_Some in Hget.
    split; [now rewrite acc_modify_keys|]. split.
    + intros e' Hin. rewrite acc_modify_keys.
      apply elem_of_app in Hin as [Hin|Hin]; [now apply Hcov|].
      apply list_elem_of_singleton in Hin. subst e'.
      change (key_of e) with (fst (key_of e, g0)).
      now apply list_elem_of_fmap_2.
    + intros k g Hin.
      apply acc_modify_elem in Hin as [[Hne Hin]|[-> (g1 & Hin & ->)]];
        [| |assumption].
      * destruct (Hgrp k g Hin) as (Hk & He & Hp & Ho).
        split; [assumption|]. split; [apply elem_of_app; now left|].
        now apply group_other_key.
      * destruct (Hgrp _ g1 Hin) as (Hk & He & Hp & Ho).
        split; [assumption|]. split; [apply elem_of_app; now left|].
        split; [now apply merge_pids|]. now apply merge_owners.
  - apply acc_get_None in Hget. split.
    + rewrite map_app. simpl. apply NoDup_app. split; [assumption|]. split.
      * intros x Hx Hx'. apply list_elem_of_singleton in Hx'. now subst.
      * apply NoDup_singleton.
    + split.
      * intros e' Hin. rewrite map_app, elem_of_app. simpl.
        apply elem_of_app in Hin as [Hin|Hin]; [left; now apply Hcov|].
        apply list_elem_of_singleton in Hin. subst e'.
        right. now apply list_elem_of_singleton.
      * intros k g Hin. apply elem_of_app in Hin as [Hin|Hin].
        -- destruct (Hgrp k g Hin) as (Hk & He & Hp & Ho).
           split; [assumption|]. split; [apply elem_of_app; now left|].
           apply group_other_key; [|tauto].
           intros ->. apply Hget.
           change (key_of e) with (fst (key_of e, g)).
           now apply list_elem_of_fmap_2.
        -- apply list_elem_of_singleton in Hin. injection Hin as -> ->.
           assert (Hfresh : forall e', e' ∈ l -> key_of e' <> key_of e).
           { intros e' He' Heq. apply Hget. rewrite <- Heq. now apply Hcov. }
           unfold pids_of_group, owners_of_group. cbn [entry pids owners].
           split; [reflexivity|].
           split; [apply elem_of_app; right; now apply list_elem_of_singleton|].
           split; split.
           ++ apply truthy_pid_NoDup.
           ++ intros n. rewrite truthy_pid_elem. split.
              ** intros [Hn Hp]. split; [assumption|]. exists e.
                 split; [|tauto]. apply elem_of_app; right.
                 now apply list_elem_of_singleton.
              ** intros [Hn (e' & He' & Hk & Hp)]. split; [assumption|].
                 apply elem_of_app in He' as [He'|He'].
                 --- now apply Hfresh in He'.
                 --- apply list_elem_of_singleton in He'. now subst.
           ++ apply NoDup_singleton.
           ++ intros o. rewrite list_elem_of_singleton. split.
              ** intros ->. exists e. split; [|tauto].
                 apply elem_of_app; right. now apply list_elem_of_singleton.
              ** intros (e' & He' & Hk & Ho).
                 apply elem_of_app in He' as [He'|He'].
                 --- now apply Hfresh in He'.
                 --- apply list_elem_of_singleton in He'. now subst.
Qed.

Lemma fold_step_inv (l l0 : list PortObservation)
  (acc : list (string * Group)) :
  acc_inv l0 acc -> acc_inv (l0 ++ l) (fold_left step l acc).
Proof.
  revert l0 acc. induction l as [|e l IH]; intros l0 acc H; simpl.
  - now rewrite app_nil_r.
  - replace (l0 ++ e :: l) with ((l0 ++ [e]) ++ l)
      by (now rewrite <- app_assoc).
    apply IH. now apply step_inv.
Qed.

Lemma normalized_inv (entries : list PortObservation) :
  acc_inv (List.filter keep entries) (normalized entries).
Proof.
  unfold normalized.
  apply (fold_step_inv (List.filter keep entries) [] []).
  split; [constructor|]. split.
  - intros e H. now apply elem_of_nil in H.
  - intros k g H. now apply elem_of_nil in H.
Qed.

Lemma aggregate_elem (entries : list PortObservation) (p : AggregatedPort) :
  p ∈ aggregate entries ->
  exists k, (k, group p) ∈ normalized entries
            /\ flat_owner p = join ", " (owners (group p)).
Proof.
  unfold aggregate. intros H. apply list_elem_of_In, in_map_iff in H.
  destruct H as ([k g] & <- & Hin). exists k. simpl.
  split; [now apply list_elem_of_In | reflexivity].
Qed.

Lemma kept_elem (entries : list PortObservation) (e : PortObservation) :
  e ∈ List.filter keep entries <-> e ∈ entries /\ keep e = true.
Proof. rewrite !list_elem_of_In. apply filter_In. Qed.

(** The design document's sentence on [pids], read literally: every pid
    that is not null, of every observation of the group, is in [pids]. *)
Definition pids_hold_every_non_null_pid : Prop :=
  forall entries p e n,
    p ∈ aggregate entries -> e ∈ entries -> keep e = true ->
    key_of e = key_of (entry (group p)) -> pid e = Some n ->
    n ∈ pids (group p).

(** C7, as stated, fails: a pid of 0 is not null, yet [[entry.pid]
    .filter(Boolean)] and the test [entry.pid && ...] leave it out. *)
Lemma pid_zero_is_dropped : ~ pids_hold_every_non_null_pid.
Proof.
  intros H.
  pose (e := mkObs (Some "0.0.0.0") (Some 8080) "tcp" (Some "nginx") (Some 0)
               None false).
  specialize (H [e] (mkAgg (mkGroup e [Some "nginx"] []) "nginx") e 0).
  assert (Hin : 0 ∈ @nil Z).
  { apply H; try reflexivity.
    - vm_compute. apply list_elem_of_singleton. reflexivity.
    - apply list_elem_of_singleton. reflexivity. }
  now apply elem_of_nil in Hin.
Qed.

(** C7 (amended): two kept observations with the same host_ip, host_port
    and protocol and the owners nginx and caddy yield exactly one entry, its
    flat owner is the string nginx, caddy and its owners are nginx then caddy,
    once each; and for any input, the pids of an entry are, without
    duplicates, exactly the truthy pids (neither null nor 0) of the kept
    observations that share its key, its owners exactly their owners. *)
Theorem aggregate_merges_group :
  (forall e1 e2,
     keep e1 = true -> keep e2 = true ->
     host_ip e1 = host_ip e2 -> host_port e1 = host_port e2 ->
     protocol e1 = protocol e2 ->
     owner e1 = Some "nginx" -> owner e2 = Some "caddy" ->
     exists g, aggregate [e1; e2] = [mkAgg g "nginx, caddy"]
               /\ owners g = [Some "nginx"; Some "caddy"])
  /\ (forall entries p,
        p ∈ aggregate entries ->
        flat_owner p = join ", " (owners (group p))
        /\ NoDup (pids (group p)) /\ NoDup (owners (group p))
        /\ (forall n, n ∈ pids (group p) <->
               n <> 0 /\ exists e, e ∈ entries /\ keep e = true
                          /\ key_of e = key_of (entry (group p))
                          /\ pid e = Some n)
        /\ (forall o, o ∈ owners (group p) <->
               exists e, e ∈ entries /\ keep e = true
                         /\ key_of e = key_of (entry (group p))
                         /\ owner e = o)).
Proof.
  split.
  - intros e1 e2 K1 K2 Hip Hport Hproto O1 O2.
    assert (Hkey : key_of e2 = key_of e1).
    { unfold key_of. now rewrite Hip, Hport, Hproto. }
    unfold aggregate, normalized. simpl List.filter. rewrite K1, K2.
    simpl fold_left. unfold step at 2. simpl acc_get.
    unfold step. simpl acc_get. rewrite Hkey, String.eqb_refl.
    simpl acc_modify. rewrite String.eqb_refl.
    unfold merge. cbn [owners pids entry]. rewrite O1, O2.
    eexists. split; reflexivity.
  - intros entries p Hp.
    destruct (aggregate_elem _ _ Hp) as (k & Hin & Hflat).
    destruct (normalized_inv entries) as (_ & _ & Hgrp).
    destruct (Hgrp k (group p) Hin) as (Hk & _ & [Hnd Hpid] & [Hnd' Hown]).
    repeat split; try assumption.
    + intros Hn. now apply Hpid in Hn.
    + apply Hpid in H as [_ (e & He & Hke & Hpe)].
      apply kept_elem in He as [He Hkeep]. exists e. rewrite Hk. tauto.
    + intros [Hn (e & He & Hkeep & Hke & Hpe)]. apply Hpid.
      split; [assumption|]. exists e. rewrite kept_elem. rewrite <- Hk. tauto.
    + intros Ho. apply Hown in Ho as (e & He & Hke & Hoe).
      apply kept_elem in He as [He Hkeep]. exists e. rewrite Hk. tauto.
    + intros (e & He & Hkeep & Hke & Hoe). apply Hown.
      exists e. rewrite kept_elem. rewrite <- Hk. tauto.
Qed.

(** C9: the filter of the aggregation is by truthiness.  An observation is
    dropped exactly when its host_port is absent or 0, or its host_ip is
    absent or the empty string; a dropped observation leaves no trace in the
    payload, and every entry of the payload stems from a kept observation. *)
Theorem aggregate_filters_by_truthiness :
  (forall e,
     keep e = false <->
     host_port e = None \/ host_port e = Some 0
     \/ host_ip e = None \/ host_ip e = Some "")
  /\ (forall l1 e l2,
        keep e = false -> aggregate (l1 ++ e :: l2) = aggregate (l1 ++ l2))
  /\ (forall entries p,
        p ∈ aggregate entries ->
        entry (group p) ∈ entries
        /\ host_port (entry (group p)) <> Some 0
        /\ host_ip (entry (group p)) <> Some "").
Proof.
  assert (Hkeep : forall e,
            keep e = false <->
            host_port e = None \/ host_port e = Some 0
            \/ host_ip e = None \/ host_ip e = Some "").
  { intros e. unfold keep, truthy_opt, truthy_num, truthy_str.
    destruct (host_port e) as [n|], (host_ip e) as [s|]; simpl.
    - destruct (Z.eqb_spec n 0) as [->|Hn], (String.eqb_spec s "") as [->|Hs];
        simpl; split; try tauto; try discriminate.
      intros [H|[[= H]|[H|[= H]]]]; congruence.
    - destruct (Z.eqb_spec n 0); simpl; tauto.
    - tauto.
    - tauto. }
  split; [exact Hkeep|]. split.
  - intros l1 e l2 He. unfold aggregate, normalized.
    rewrite !List.filter_app. simpl. now rewrite He.
  - intros entries p Hp.
    destruct (aggregate_elem _ _ Hp) as (k & Hin & _).
    destruct (normalized_inv entries) as (_ & _ & Hgrp).
    destruct (Hgrp k (group p) Hin) as (_ & He & _).
    apply kept_elem in He as [He Hk]. split; [assumption|].
    split; intros Hbad;
      (assert (Hf : keep (entry (group p)) = false) by (apply Hkeep; tauto));
      congruence.
Qed.

End AggregatorProps.

(** ** AnnotationStore: notes *)

Section StoreLemmas.
Import JS Store.

Lemma key_eqb_eq (a b : Key) : key_eqb a b = true <-> a = b.
Proof.
  unfold key_eqb. rewrite !andb_true_iff, !String.eqb_eq, Z.eqb_eq.
  rewrite opt_str_eqb_eq, Bool.eqb_true_iff.
  destruct a, b; simpl. split; [intros; f_equal; tauto|].
  intros [= -> -> -> -> -> ->]. tauto.
Qed.

Lemma key_eqb_refl (a : Key) : key_eqb a a = true.
Proof. now apply key_eqb_eq. Qed.

Lemma key_eqb_neq (a b : Key) : a <> b -> key_eqb a b = false.
Proof.
  intros H. destruct (key_eqb a b) eqn:E; [|reflexivity].
  now apply key_eqb_eq in E.
Qed.

Context {R : Type} (key : R -> Key).

Lemma select_get_None (rows : list R) (q : Key) :
  select_get key rows q = None <-> forall r, r ∈ rows -> key r <> q.
Proof.
  unfold select_get. split.
  - intros H r Hin Heq. apply list_elem_of_In in Hin.
    apply (find_none _ _ H) in Hin. simpl in Hin.
    rewrite Heq, key_eqb_refl in Hin. discriminate.
  - intros H. destruct (List.find _ rows) as [r|] eqn:E; [|reflexivity].
    apply find_some in E as [Hin Hk]. apply key_eqb_eq in Hk.
    apply list_elem_of_In in Hin. now apply H in Hin.
Qed.

Lemma select_get_Some (rows : list R) (q : Key) (r : R) :
  select_get key rows q = Some r -> r ∈ rows /\ key r = q.
Proof.
  unfold select_get. intros E. apply find_some in E as [Hin Hk].
  apply key_eqb_eq in Hk. split; [now apply list_elem_of_In | assumption].
Qed.

Lemma pk_conflict_None (rows : list R) (q : Key) :
  select_get key rows q = None -> pk_conflict key rows q = false.
Proof.
  intros H. unfold pk_conflict. destruct (container_id q); [|reflexivity].
  destruct (existsb _ rows) eqn:E; [|reflexivity].
  apply existsb_exists in E as (r & Hin & Hk). apply key_eqb_eq in Hk.
  apply list_elem_of_In in Hin.
  now apply (proj1 (select_get_None rows q) H) in Hin.
Qed.

Lemma delete_where_elem (rows : list R) (q : Key) (r : R) :
  r ∈ fst (delete_where key rows q) <-> r ∈ rows /\ key r <> q.
Proof.
  unfold delete_where. simpl. rewrite !list_elem_of_In, filter_In.
  rewrite negb_true_iff. split; intros [H1 H2]; (split; [assumption|]).
  - intros Heq. rewrite Heq, key_eqb_refl in H2. discriminate.
  - now apply key_eqb_neq.
Qed.

Lemma update_where_elem (f : R -> R) (rows : list R) (q : Key) (r' : R) :
  r' ∈ update_where key f rows q <->
  exists r, r ∈ rows /\ ((key r = q /\ r' = f r) \/ (key r <> q /\ r' = r)).
Proof.
  unfold update_where. rewrite list_elem_of_In, in_map_iff.
  split; intros (r & H1 & H2); exists r.
  - apply list_elem_of_In in H2. split; [assumption|].
    destruct (key_eqb (key r) q) eqn:E.
    + apply key_eqb_eq in E. now left.
    + right. split; [|congruence]. intros Heq.
      rewrite Heq, key_eqb_refl in E. discriminate.
  - apply list_elem_of_In in H1. split; [|assumption].
    destruct H2 as [[Hk ->]|[Hk ->]].
    + now rewrite Hk, key_eqb_refl.
    + now rewrite key_eqb_neq.
Qed.

End StoreLemmas.

Section NoteProps.
Import JS Store Api.

Lemma get_notes_elem (w : World) (k : Key) (t : string) :
  (k, t) ∈ get_notes (server_id k) w <->
  exists r, r ∈ notes (db w) /\ note_key r = k /\ note r = t.
Proof.
  unfold get_notes. rewrite list_elem_of_In, in_map_iff. split.
  - intros (r & [= <- <-] & Hin). apply filter_In in Hin as [Hin _].
    exists r. split; [now apply list_elem_of_In | tauto].
  - intros (r & Hin & <- & <-). exists r. split; [reflexivity|].
    apply filter_In. split; [now apply list_elem_of_In|].
    apply String.eqb_refl.
Qed.

Lemma validateNoteInput_server (b : Req.t) (d : DB) :
  validateNoteInput b d = None ->
  fk_ok d (bound_key (Req.server_id b) b) = true.
Proof.
  unfold validateNoteInput, fk_ok, bound_key. simpl.
  repeat match goal with
         | |- (if ?c then _ else _) = None -> _ =>
             destruct c eqn:?; [discriminate|]
         end.
  intros _. now apply negb_false_iff.
Qed.

(** What [POST /api/notes] does on a request that passes validation. *)
Lemma post_notes_run (b : Req.t) (w : World) :
  validateNoteInput b (db w) = None ->
  let q := bound_key (Req.server_id b) b in
  post_notes b w =
  match select_get note_key (notes (db w)) q,
        String.eqb (noteTrimmed b) "" with
  | Some _, true =>
      (mkWorld (set_notes (db w) (fst (delete_where note_key (notes (db w)) q)))
         (cache w) (clock w),
       mkResp 200 (Saved "Note saved successfully"))
  | Some _, false =>
      (mkWorld (set_notes (db w)
                  (update_where note_key
                     (fun r => mkNote (note_key r) (noteTrimmed b)
                                 (note_created_at r) (Some (clock w)))
                     (notes (db w)) q))
         (cache w) (clock w),
       mkResp 200 (Saved "Note saved successfully"))
  | None, false =>
      (mkWorld (set_notes (db w)
                  (notes (db w) ++ [mkNote q (noteTrimmed b) (clock w) None]))
         (cache w) (clock w),
       mkResp 200 (Saved "Note saved successfully"))
  | None, true => (w, mkResp 200 (Saved "Note saved successfully"))
  end.
Proof.
  intros Hval q.
  pose proof (validateNoteInput_server b (db w) Hval) as Hfk. fold q in Hfk.
  unfold post_notes. rewrite Hval. fold q.
  unfold respond, notes_get, notes_delete, notes_update, notes_insert,
    get_db, get_now, put_db, ret, throw, bind, delete_where.
  cbv beta iota.
  destruct (select_get note_key (notes (db w)) q) eqn:Hsel;
    destruct (String.eqb (noteTrimmed b) "") eqn:Hemp;
    cbv beta iota; cbn [negb db clock cache];
    try rewrite (pk_conflict_None note_key _ _ Hsel);
    try rewrite Hfk; try reflexivity.
Qed.

(** The design document's round trip, read literally: after a successful
    write of a non-empty text, the rows read back hold that very text for
    the identity written. *)
Definition note_round_trip_is_exact : Prop :=
  forall b w text,
    Req.note b = Some text -> text <> "" ->
    validateNoteInput b (db w) = None ->
    let q := bound_key (Req.server_id b) b in
    (q, text) ∈ get_notes (server_id q) (fst (post_notes b w)).

Definition padded_note : Req.t :=
  Req.mk None (Some "local") (Some "0.0.0.0") (Some 8080) (Some "tcp")
    (Some " hi ") None None None None None.

Definition fresh_world : World :=
  mkWorld (mkDB ["local"] [] [] []) ∅ 1000.

(** C8, as stated, fails: the handler stores [note.trim()], so a note written
    with surrounding white space does not read back as written. *)
Lemma padded_note_reads_back_trimmed : ~ note_round_trip_is_exact.
Proof.
  intros H. specialize (H padded_note fresh_world " hi " eq_refl).
  assert (Hin : (bound_key (Some "local") padded_note, " hi ")
                ∈ get_notes "local" (fst (post_notes padded_note fresh_world))).
  { apply H; [discriminate | reflexivity]. }
  apply list_elem_of_In in Hin. vm_compute in Hin.
  destruct Hin as [Hin|[]]. discriminate Hin.
Qed.

(** C8 (amended): on a request that passes validation the handler answers
    200 and follows the case split on the identity key: trimmed text empty
    and a row exists, the row is deleted; trimmed text non-empty and a row
    exists, its text and updated_at are updated; trimmed text non-empty and no
    row, a row is inserted; trimmed text empty and no row, nothing changes.
    Reading back after a write whose trimmed text is non-empty returns exactly
    the trimmed text for that identity; after a write whose trimmed text is
    empty it returns no row for it. *)
Theorem post_notes_upsert (b : Req.t) (w : World) :
  validateNoteInput b (db w) = None ->
  let q := bound_key (Req.server_id b) b in
  let w' := fst (post_notes b w) in
  snd (post_notes b w) = mkResp 200 (Saved "Note saved successfully")
  /\ match select_get note_key (notes (db w)) q,
           String.eqb (noteTrimmed b) "" with
     | Some _, true =>
         notes (db w') = fst (delete_where note_key (notes (db w)) q)
     | Some _, false =>
         notes (db w') =
         update_where note_key
           (fun r => mkNote (note_key r) (noteTrimmed b) (note_created_at r)
                       (Some (clock w)))
           (notes (db w)) q
     | None, false =>
         notes (db w') =
         notes (db w) ++ [mkNote q (noteTrimmed b) (clock w) None]
     | None, true => w' = w
     end
  /\ (noteTrimmed b <> "" ->
      (q, noteTrimmed b) ∈ get_notes (server_id q) w'
      /\ forall t, (q, t) ∈ get_notes (server_id q) w' -> t = noteTrimmed b)
  /\ (noteTrimmed b = "" -> forall t, (q, t) ∉ get_notes (server_id q) w').
Proof.
  intros Hval q w'.
  pose proof (post_notes_run b w Hval) as Hrun. cbv zeta in Hrun. fold q in Hrun.
  subst w'. rewrite Hrun.
  destruct (select_get note_key (notes (db w)) q) as [r0|] eqn:Hsel;
    destruct (String.eqb_spec (noteTrimmed b) "") as [Hemp|Hemp];
    cbn [fst snd].
  - (* delete *)
    split; [reflexivity|]. split; [reflexivity|]. split; [tauto|].
    intros _ t Hin. apply get_notes_elem in Hin as (r & Hin & Hk & _).
    cbn in Hin. apply delete_where_elem in Hin. tauto.
  - (* update *)
    split; [reflexivity|]. split; [reflexivity|]. split; [|tauto].
    intros _. apply select_get_Some in Hsel as [Hin0 Hk0]. split.
    + apply get_notes_elem. cbn.
      exists (mkNote (note_key r0) (noteTrimmed b) (note_created_at r0)
                (Some (clock w))).
      split; [|now cbn]. apply update_where_elem. exists r0. tauto.
    + intros t Hin. apply get_notes_elem in Hin as (r & Hin & Hk & <-).
      cbn in Hin. apply update_where_elem in Hin as (r1 & _ & [[_ ->]|[Hne ->]]).
      * reflexivity.
      * contradiction.
  - (* nothing to do *)
    split; [reflexivity|]. split; [reflexivity|]. split; [tauto|].
    intros _ t Hin. apply get_notes_elem in Hin as (r & Hin & Hk & _).
    now apply (proj1 (select_get_None note_key _ _) Hsel) in Hin.
  - (* insert *)
    split; [reflexivity|]. split; [reflexivity|]. split; [|tauto].
    intros _. split.
    + apply get_notes_elem. cbn.
      exists (mkNote q (noteTrimmed b) (clock w) None).
      split; [|now cbn]. apply elem_of_app. right.
      now apply list_elem_of_singleton.
    + intros t Hin. apply get_notes_elem in Hin as (r & Hin & Hk & <-).
      cbn in Hin. apply elem_of_app in Hin as [Hin|Hin].
      * now apply (proj1 (select_get_None note_key _ _) Hsel) in Hin.
      * apply list_elem_of_singleton in Hin. now subst r.
Qed.

Lemma post_notes_upsert_witness :
  validateNoteInput padded_note (db fresh_world) = None
  /\ snd (post_notes padded_note fresh_world)
     = mkResp 200 (Saved "Note saved successfully").
Proof.
  split; [reflexivity|].
  exact (proj1 (post_notes_upsert padded_note fresh_world eq_refl)).
Defined.

(** A note write leaves the rows of every other identity as they were. *)
Lemma post_notes_other_rows (b : Req.t) (w : World) (r : NoteRow) :
  validateNoteInput b (db w) = None ->
  note_key r <> bound_key (Req.server_id b) b ->
  (r ∈ notes (db (fst (post_notes b w))) <-> r ∈ notes (db w)).
Proof.
  intros Hval Hne. rewrite (post_notes_run b w Hval).
  destruct (select_get note_key _ _); destruct (String.eqb _ "");
    cbn [fst db notes set_notes].
  - rewrite delete_where_elem. tauto.
  - rewrite update_where_elem. split.
    + intros (r1 & Hin & [[Hk ->]|[_ ->]]); [|assumption]. now cbn in Hne.
    + intros Hin. exists r. tauto.
  - reflexivity.
  - rewrite elem_of_app, list_elem_of_singleton. split; [|tauto].
    intros [H| ->]; [assumption|]. now cbn in Hne.
Qed.

(** What [POST /api/ignores] does on a request that passes validation. *)
Lemma post_ignores_run (b : Req.t) (w : World) :
  validateIgnoreInput b = None ->
  let q := bound_key (Req.server_id b) b in
  post_ignores b w =
  match truthy_bool (Req.ignored b),
        select_get ignore_key (ignores (db w)) q with
  | true, None =>
      if fk_ok (db w) q then
        (mkWorld (set_ignores (db w) (ignores (db w) ++ [mkIgnore q (clock w)]))
           (cache w) (clock w),
         mkResp 200 (Saved "Ignore status updated"))
      else (w, db_failed "Unable to update ignore status" FK_FAILED)
  | false, Some _ =>
      (mkWorld (set_ignores (db w)
                  (fst (delete_where ignore_key (ignores (db w)) q)))
         (cache w) (clock w),
       mkResp 200 (Saved "Ignore status updated"))
  | _, _ => (w, mkResp 200 (Saved "Ignore status updated"))
  end.
Proof.
  intros Hval q. unfold post_ignores. rewrite Hval. fold q.
  unfold respond, ignores_get, ignores_delete, ignores_insert,
    get_db, get_now, put_db, ret, throw, bind, delete_where.
  cbv beta iota.
  destruct (truthy_bool (Req.ignored b));
    destruct (select_get ignore_key (ignores (db w)) q) eqn:Hsel;
    cbv beta iota; cbn [negb db clock cache];
    try rewrite (pk_conflict_None ignore_key _ _ Hsel);
    try reflexivity.
  destruct (fk_ok (db w) q); reflexivity.
Qed.

(** An ignore write leaves the rows of every other identity as they were. *)
Lemma post_ignores_other_rows (b : Req.t) (w : World) (r : IgnoreRow) :
  validateIgnoreInput b = None ->
  ignore_key r <> bound_key (Req.server_id b) b ->
  (r ∈ ignores (db (fst (post_ignores b w))) <-> r ∈ ignores (db w)).
Proof.
  intros Hval Hne. rewrite (post_ignores_run b w Hval).
  destruct (truthy_bool _); destruct (select_get ignore_key _ _);
    try destruct (fk_ok _ _); cbn [fst db ignores set_ignores];
    try reflexivity.
  - rewrite elem_of_app, list_elem_of_singleton. split; [|tauto].
    intros [H| ->]; [assumption|]. now cbn in Hne.
  - rewrite delete_where_elem. tauto.
Qed.

End NoteProps.

(** ** AnnotationStore: custom names and the wildcard mirror *)

Section NameProps.
Import JS Store Api.

(** The rows of [custom_service_names] hold [c] and [o] for the key [k]:
    there is a row for [k], and every row for [k] carries them. *)
Definition holds_name (rows : list NameRow) (k : Key) (c : string)
  (o : option string) : Prop :=
  (exists r, r ∈ rows /\ name_key r = k)
  /\ forall r, r ∈ rows -> name_key r = k ->
       custom_name r = c /\ original_name r = o.

(** The table after the update-or-insert of one key. *)
Definition upserted (rows : list NameRow) (k : Key) (c : string)
  (o : option string) (now : Z) : list NameRow :=
  match select_get name_key rows k with
  | Some _ =>
      update_where name_key
        (fun r => mkName (name_key r) c o (name_created_at r) now) rows k
  | None => rows ++ [mkName k c o now now]
  end.

(** The FOREIGN KEY of [custom_service_names] holds in the table. *)
Definition names_fk (d : DB) : bool :=
  forallb (fun r => fk_ok d (name_key r)) (custom_service_names d).

Lemma holds_name_upserted (rows : list NameRow) (k : Key) (c : string)
  (o : option string) (now : Z) :
  holds_name (upserted rows k c o now) k c o.
Proof.
  unfold upserted, holds_name.
  destruct (select_get name_key rows k) as [r0|] eqn:Hsel.
  - apply select_get_Some in Hsel as [Hin Hk]. split.
    + exists (mkName (name_key r0) c o (name_created_at r0) now).
      split; [|assumption]. apply update_where_elem. exists r0. tauto.
    + intros r Hr Hkr.
      apply update_where_elem in Hr as (r1 & _ & [[_ ->]|[Hne ->]]);
        [now cbn | contradiction].
  - split.
    + exists (mkName k c o now now). split; [|reflexivity].
      apply elem_of_app. right. now apply list_elem_of_singleton.
    + intros r Hr Hkr. apply elem_of_app in Hr as [Hr|Hr].
      * now apply (proj1 (select_get_None name_key _ _) Hsel) in Hr.
      * apply list_elem_of_singleton in Hr. now subst r.
Qed.

Lemma upserted_other (rows : list NameRow) (k k' : Key) (c : string)
  (o : option string) (now : Z) (r : NameRow) :
  name_key r = k' -> k' <> k ->
  (r ∈ upserted rows k c o now <-> r ∈ rows).
Proof.
  intros Hk Hne. unfold upserted.
  destruct (select_get name_key rows k) as [r0|] eqn:Hsel.
  - rewrite update_where_elem. split.
    + intros (r1 & Hin & [[Hk1 ->]|[_ ->]]); [|assumption].
      cbn in Hk. congruence.
    + intros Hin. exists r. split; [assumption|]. right.
      split; [congruence | reflexivity].
  - rewrite elem_of_app, list_elem_of_singleton. split; [|tauto].
    intros [H| ->]; [assumption|]. cbn in Hk. congruence.
Qed.

Lemma holds_name_other (rows : list NameRow) (k k' : Key) (c c' : string)
  (o o' : option string) (now : Z) :
  k' <> k -> holds_name rows k' c' o' ->
  holds_name (upserted rows k c o now) k' c' o'.
Proof.
  intros Hne [(r & Hin & Hk) Hall]. split.
  - exists r. split; [|assumption]. now apply (upserted_other _ k k').
  - intros r1 Hin1 Hk1. apply Hall; [|assumption].
    now apply (upserted_other _ k k') in Hin1.
Qed.

Lemma names_get_run (q : Key) (w : World) :
  names_get q w = (w, Return (select_get name_key (custom_service_names (db w)) q)).
Proof. reflexivity. Qed.

Lemma names_delete_run (q : Key) (w : World) :
  names_delete q w =
  (mkWorld (set_names (db w)
              (fst (delete_where name_key (custom_service_names (db w)) q)))
     (cache w) (clock w),
   Return (snd (delete_where name_key (custom_service_names (db w)) q))).
Proof. reflexivity. Qed.

(** The update-or-insert of a key, as each handler spells it out. *)
Definition names_upsert (q : Key) (cn o : option string) : M unit :=
  bind (names_get q)
    (fun existing =>
       match existing with
       | Some _ => names_update cn o q
       | None => names_insert q cn o
       end).

Lemma names_upsert_run (q : Key) (cn o : option string) (w : World) :
  names_fk (db w) = true ->
  forall w', names_upsert q cn o w = (w', Return tt) ->
  exists c, cn = Some c
    /\ fk_ok (db w) q = true
    /\ w' = mkWorld (set_names (db w)
                       (upserted (custom_service_names (db w)) q c o (clock w)))
              (cache w) (clock w).
Proof.
  intros Hfk w'. unfold names_upsert, bind. rewrite names_get_run.
  unfold upserted.
  destruct (select_get name_key (custom_service_names (db w)) q) as [r0|] eqn:Hsel.
  - apply select_get_Some in Hsel as [Hin Hk].
    assert (Hq : fk_ok (db w) q = true).
    { unfold names_fk in Hfk. rewrite forallb_forall in Hfk.
      rewrite <- Hk. apply Hfk. now apply list_elem_of_In. }
    unfold names_update, bind, get_db, get_now, put_db, throw, ret.
    destruct cn as [c|].
    + intros [= <-]. now exists c.
    + destruct (existsb _ _) eqn:E; [discriminate|].
      exfalso. apply not_true_iff_false in E. apply E.
      apply existsb_exists. exists r0.
      split; [now apply list_elem_of_In | now apply key_eqb_eq].
  - unfold names_insert, bind, get_db, get_now, put_db, throw, ret.
    destruct cn as [c|]; [|discriminate].
    rewrite (pk_conflict_None name_key _ _ Hsel).
    destruct (fk_ok (db w) q) eqn:Hq; cbn [negb]; [|discriminate].
    intros [= <-]. now exists c.
Qed.

Lemma validateIdentity_code (b : Req.t) (r : Response) :
  validateIdentity b = Some r -> code r = 400.
Proof.
  unfold validateIdentity.
  repeat match goal with
         | |- (if ?c then _ else _) = Some _ -> _ => destruct c
         end; try discriminate; now intros [= <-].
Qed.

Lemma validateContainer_code (b : Req.t) (r : Response) :
  validateContainer b = Some r -> code r = 400.
Proof.
  unfold validateContainer. destruct (bad_container _); [|discriminate].
  now intros [= <-].
Qed.

Lemma validateCustomServiceNameInput_code (b : Req.t) (r : Response) :
  validateCustomServiceNameInput b = Some r -> code r = 400.
Proof.
  unfold validateCustomServiceNameInput.
  destruct (validateIdentity b) eqn:E.
  - intros [= <-]. now apply (validateIdentity_code b).
  - destruct (bad_container _); [now intros [= <-]|].
    apply validateContainer_code.
Qed.

Lemma fk_ok_set_names (d : DB) (l : list NameRow) (k k' : Key) :
  server_id k = server_id k' -> fk_ok (set_names d l) k = fk_ok d k'.
Proof. unfold fk_ok. cbn. now intros ->. Qed.

Lemma mirror_upsert_run (b : Req.t) (ip c : string) (w : World) :
  Req.custom_name b = Some c ->
  fk_ok (db w) (sibling_key (Req.server_id b) b ip) = true ->
  mirror_upsert b ip w =
  (mkWorld (set_names (db w)
              (upserted (custom_service_names (db w))
                 (sibling_key (Req.server_id b) b ip) c
                 (or_null (Req.original_name b)) (clock w)))
     (cache w) (clock w),
   Return tt).
Proof.
  intros Hc Hfk. unfold mirror_upsert, bind. rewrite names_get_run, Hc.
  unfold upserted.
  destruct (select_get name_key _ _) eqn:Hsel.
  - reflexivity.
  - unfold try_catch, names_insert, bind, get_db, get_now, put_db, throw, ret.
    rewrite (pk_conflict_None name_key _ _ Hsel), Hfk. reflexivity.
Qed.

(** The table after a successful [POST /api/custom-service-names]. *)
Definition names_after_post (b : Req.t) (w : World) (c : string)
  : list NameRow :=
  let q := bound_key (Req.server_id b) b in
  let o := or_null (Req.original_name b) in
  let rows := upserted (custom_service_names (db w)) q c o (clock w) in
  if wildcard_target b "0.0.0.0" then
    upserted rows (sibling_key (Req.server_id b) b "::") c o (clock w)
  else if wildcard_target b "::" then
    upserted rows (sibling_key (Req.server_id b) b "0.0.0.0") c o (clock w)
  else rows.

Lemma post_custom_service_names_run (b : Req.t) (w : World) :
  names_fk (db w) = true ->
  code (snd (post_custom_service_names b w)) = 200 ->
  exists c, Req.custom_name b = Some c
    /\ fst (post_custom_service_names b w) =
       mkWorld (set_names (db w) (names_after_post b w c))
         (Cache.delete (cache w) "endpoint:ports:local") (clock w).
Proof.
  intros Hfk. unfold post_custom_service_names.
  destruct (validateCustomServiceNameInput b) as [r|] eqn:Hval.
  { apply validateCustomServiceNameInput_code in Hval. cbn. lia. }
  set (q := bound_key (Req.server_id b) b).
  set (o := or_null (Req.original_name b)).
  change (respond _ _ w) with
    (respond
       (bind (names_upsert q (Req.custom_name b) o)
          (fun _ =>
             bind (if wildcard_target b "0.0.0.0" then mirror_upsert b "::"
                   else if wildcard_target b "::"
                        then mirror_upsert b "0.0.0.0" else ret tt)
               (fun _ =>
                  bind (cache_delete "endpoint:ports:local")
                    (fun _ =>
                       ret (mkResp 200
                              (Saved "Custom service name saved successfully"))))))
       (db_failed "Unable to save custom service name") w).
  unfold respond, bind.
  destruct (names_upsert q (Req.custom_name b) o w) as [w1 [[]|msg]] eqn:Hup;
    [|cbn; discriminate].
  destruct (names_upsert_run _ _ _ _ Hfk _ Hup) as (c & Hc & Hq & ->).
  intros _. exists c. split; [assumption|].
  unfold names_after_post. fold q o.
  assert (Hsib : forall ip l,
            fk_ok (set_names (db w) l) (sibling_key (Req.server_id b) b ip)
            = true).
  { intros ip l. rewrite <- Hq. now apply fk_ok_set_names. }
  destruct (wildcard_target b "0.0.0.0");
    [|destruct (wildcard_target b "::")];
    try (rewrite (mirror_upsert_run b _ c _ Hc); [|cbn [db]; apply Hsib]);
    reflexivity.
Qed.

Lemma str_eq_Some (o : option string) (x : string) :
  str_eq o x = true <-> o = Some x.
Proof.
  destruct o as [t|]; simpl; [|split; discriminate].
  rewrite String.eqb_eq. split; congruence.
Qed.

Lemma wildcard_target_key (b : Req.t) (ip : string) :
  wildcard_target b ip = true ->
  Req.host_ip b = Some ip
  /\ truthy_opt truthy_str (Req.container_id b) = false
  /\ bound_key (Req.server_id b) b = sibling_key (Req.server_id b) b ip.
Proof.
  unfold wildcard_target. rewrite !andb_true_iff, !negb_true_iff, str_eq_Some.
  intros [[Hc Hi] Hip]. split; [assumption|]. split; [assumption|].
  unfold bound_key, sibling_key. rewrite Hip, Hi. f_equal.
  unfold or_null. destruct (Req.container_id b) as [s|]; [|reflexivity].
  simpl in Hc. now rewrite Hc.
Qed.

Lemma wildcard_target_unique (b : Req.t) (ip ip' : string) :
  wildcard_target b ip = true -> ip' <> ip -> wildcard_target b ip' = false.
Proof.
  intros H Hne. apply wildcard_target_key in H as (Hip & _ & _).
  unfold wildcard_target. rewrite Hip. simpl.
  destruct (String.eqb_spec ip ip') as [->|_]; [contradiction|].
  apply andb_false_r.
Qed.

Lemma sibling_key_neq (sid : option string) (b : Req.t) (ip ip' : string) :
  ip <> ip' -> sibling_key sid b ip <> sibling_key sid b ip'.
Proof. unfold sibling_key. intros H [= ?]. contradiction. Qed.

(** The two wildcard addresses, each with its sibling. *)
Definition wildcard_pair (ip sib : string) : Prop :=
  (ip = "0.0.0.0" /\ sib = "::") \/ (ip = "::" /\ sib = "0.0.0.0").

Lemma delete_custom_service_names_rows (b : Req.t) (w : World)
  (ip sib : string) :
  wildcard_pair ip sib -> wildcard_target b ip = true ->
  validateCustomServiceNameDeleteInput b = None ->
  custom_service_names (db (fst (delete_custom_service_names b w))) =
  fst (delete_where name_key
         (fst (delete_where name_key (custom_service_names (db w))
                 (sibling_key (Req.server_id b) b ip)))
         (sibling_key (Req.server_id b) b sib)).
Proof.
  intros Hpair Ht Hval. unfold delete_custom_service_names. rewrite Hval.
  destruct (wildcard_target_key _ _ Ht) as (_ & Hc & ->).
  rewrite Hc.
  unfold respond, bind. rewrite names_delete_run. unfold ret.
  rewrite andb_false_r.
  destruct Hpair as [[-> ->]|[-> ->]].
  - rewrite Ht, names_delete_run.
    destruct (0 <? _); reflexivity.
  - rewrite (wildcard_target_unique b "::" "0.0.0.0" Ht) by discriminate.
    rewrite Ht, names_delete_run.
    destruct (0 <? _); reflexivity.
Qed.

(** The design document's mirroring rule, read for note writes: a note
    written to a wildcard address without container on a registered server
    is found under the sibling address as well. *)
Definition note_writes_are_mirrored : Prop :=
  forall b w,
    wildcard_target b "0.0.0.0" = true -> noteTrimmed b <> "" ->
    validateNoteInput b (db w) = None ->
    exists r, r ∈ notes (db (fst (post_notes b w)))
              /\ note_key r = sibling_key (Req.server_id b) b "::"
              /\ note r = noteTrimmed b.

(** C3, as stated, fails: [POST /api/notes] writes the addressed row only. *)
Lemma note_write_is_not_mirrored : ~ note_writes_are_mirrored.
Proof.
  intros H.
  destruct (H padded_note fresh_world) as (r & Hin & Hk & _);
    [reflexivity | discriminate | reflexivity |].
  apply list_elem_of_In in Hin. vm_compute in Hin.
  destruct Hin as [<-|[]]. discriminate Hk.
Qed.

(** C3 (amended): for a custom-name write through the single-item endpoints
    whose target has no container_id, a falsy internal flag and host_ip
    exactly 0.0.0.0 or ::, on a table that satisfies its foreign key, a
    successful upsert leaves the name and the original name under the address
    written and under the sibling wildcard address (same server, port and
    protocol, container_id NULL, internal 0), and a delete that passes
    validation leaves no row under either address.  Note and ignore writes
    are not mirrored: they leave the rows of every identity other than the
    one written as they were. *)
Theorem wildcard_custom_name_is_mirrored (b : Req.t) (w : World)
  (ip sib : string) :
  wildcard_pair ip sib ->
  names_fk (db w) = true ->
  wildcard_target b ip = true ->
  (code (snd (post_custom_service_names b w)) = 200 ->
   exists c, Req.custom_name b = Some c
     /\ holds_name
          (custom_service_names (db (fst (post_custom_service_names b w))))
          (bound_key (Req.server_id b) b) c (or_null (Req.original_name b))
     /\ holds_name
          (custom_service_names (db (fst (post_custom_service_names b w))))
          (sibling_key (Req.server_id b) b sib) c
          (or_null (Req.original_name b)))
  /\ (validateCustomServiceNameDeleteInput b = None ->
      forall r,
        r ∈ custom_service_names (db (fst (delete_custom_service_names b w))) ->
        name_key r <> bound_key (Req.server_id b) b
        /\ name_key r <> sibling_key (Req.server_id b) b sib)
  /\ (forall r, validateNoteInput b (db w) = None ->
      note_key r <> bound_key (Req.server_id b) b ->
      (r ∈ notes (db (fst (post_notes b w))) <-> r ∈ notes (db w)))
  /\ (forall r, validateIgnoreInput b = None ->
      ignore_key r <> bound_key (Req.server_id b) b ->
      (r ∈ ignores (db (fst (post_ignores b w))) <-> r ∈ ignores (db w))).
Proof.
  intros Hpair Hfk Ht.
  assert (Hne : sib <> ip).
  { destruct Hpair as [[-> ->]|[-> ->]]; discriminate. }
  split; [|split; [|split;
    [intros r; apply post_notes_other_rows
    |intros r; apply post_ignores_other_rows]]].
  - intros Hok.
    destruct (post_custom_service_names_run b w Hfk Hok) as (c & Hc & ->).
    exists c. split; [assumption|]. cbn [db custom_service_names set_names].
    unfold names_after_post.
    assert (Hrows :
      (if wildcard_target b "0.0.0.0"
       then upserted
              (upserted (custom_service_names (db w))
                 (bound_key (Req.server_id b) b) c
                 (or_null (Req.original_name b)) (clock w))
              (sibling_key (Req.server_id b) b "::") c
              (or_null (Req.original_name b)) (clock w)
       else if wildcard_target b "::"
            then upserted
                   (upserted (custom_service_names (db w))
                      (bound_key (Req.server_id b) b) c
                      (or_null (Req.original_name b)) (clock w))
                   (sibling_key (Req.server_id b) b "0.0.0.0") c
                   (or_null (Req.original_name b)) (clock w)
            else upserted (custom_service_names (db w))
                   (bound_key (Req.server_id b) b) c
                   (or_null (Req.original_name b)) (clock w))
      = upserted
          (upserted (custom_service_names (db w))
             (bound_key (Req.server_id b) b) c
             (or_null (Req.original_name b)) (clock w))
          (sibling_key (Req.server_id b) b sib) c
          (or_null (Req.original_name b)) (clock w)).
    { destruct Hpair as [[-> ->]|[-> ->]].
      - now rewrite Ht.
      - rewrite (wildcard_target_unique b "::" "0.0.0.0" Ht) by discriminate.
        now rewrite Ht. }
    rewrite Hrows. split.
    + apply holds_name_other; [|apply holds_name_upserted].
      destruct (wildcard_target_key _ _ Ht) as (_ & _ & ->).
      apply sibling_key_neq. congruence.
    + apply holds_name_upserted.
  - intros Hval r Hin.
    rewrite (delete_custom_service_names_rows b w ip sib Hpair Ht Hval) in Hin.
    apply delete_where_elem in Hin as [Hin Hsib].
    apply delete_where_elem in Hin as [_ Hprim].
    destruct (wildcard_target_key _ _ Ht) as (_ & _ & ->). tauto.
Qed.

Definition wildcard_name : Req.t :=
  Req.mk None (Some "local") (Some "0.0.0.0") (Some 8080) (Some "tcp")
    None None (Some "Proxy") (Some "nginx") None None.

Lemma wildcard_custom_name_is_mirrored_witness :
  holds_name
    (custom_service_names
       (db (fst (post_custom_service_names wildcard_name fresh_world))))
    (sibling_key (Some "local") wildcard_name "::") "Proxy" (Some "nginx").
Proof.
  destruct (wildcard_custom_name_is_mirrored wildcard_name fresh_world
              "0.0.0.0" "::" (or_introl (conj eq_refl eq_refl))
              eq_refl eq_refl) as (Hpost & _).
  destruct (Hpost eq_refl) as (c & Hc & _ & Hsib).
  injection Hc as <-. exact Hsib.
Defined.

End NameProps.

(** ** Login *)

Section AuthProps.
Import JS Auth.

Variable bcrypt_compare : string -> string -> bool.

(** C10: with authentication enabled and a password that is not a valid
    recovery key, a login naming an existing user with a wrong password and a
    login naming no user at all get the same answer, 401 with the error
    Invalid credentials, leave the server in the same state, and each runs one
    bcrypt comparison: against the stored hash of the user, and against the
    fixed dummy hash when there is no user. *)
Theorem login_hides_user_existence (s : Server) (known unknown pw : string)
  (u : User) :
  authEnabled s = true ->
  fst (validateKey (recovery s) (now s) pw) = false ->
  truthy_str known = true -> truthy_str unknown = true ->
  truthy_str pw = true ->
  List.find (fun x => String.eqb (username x) (trim known)) (users s) = Some u ->
  bcrypt_compare pw (password_hash u) = false ->
  List.find (fun x => String.eqb (username x) (trim unknown)) (users s) = None ->
  let run1 := login bcrypt_compare s (Some known) (Some pw) in
  let run2 := login bcrypt_compare s (Some unknown) (Some pw) in
  snd (fst run1) = mkAuthResp 401 (AuthError "Invalid credentials")
  /\ snd (fst run2) = mkAuthResp 401 (AuthError "Invalid credentials")
  /\ fst (fst run1) = fst (fst run2)
  /\ snd run1 = [QueryUser (trim known); BcryptCompare pw (password_hash u)]
  /\ snd run2 = [QueryUser (trim unknown); BcryptCompare pw DUMMY_HASH].
Proof.
  intros Hauth Hkey Hk Hu Hpw Hfind Hcmp Hnone run1 run2.
  subst run1 run2. unfold login. rewrite Hauth, Hk, Hu, Hpw. cbn [negb orb].
  destruct (validateKey (recovery s) (now s) pw) as [isKey r].
  cbn [fst] in Hkey. subst isKey.
  cbn [users set_recovery]. rewrite Hfind, Hnone, Hcmp.
  repeat split.
Qed.

End AuthProps.

Definition demo_compare (password hash : string) : bool :=
  String.eqb hash ("bcrypt:" +:+ password).

Definition demo_server : Auth.Server :=
  Auth.mkServer true
    [Auth.mkUser "u1" "admin" "bcrypt:s3cret" None]
    (Auth.mkRecovery None None false) 1000 false false.

Lemma login_hides_user_existence_witness :
  snd (fst (Auth.login demo_compare demo_server (Some "admin") (Some "guess")))
  = snd (fst (Auth.login demo_compare demo_server (Some "nobody")
                (Some "guess"))).
Proof.
  destruct (login_hides_user_existence demo_compare demo_server
              "admin" "nobody" "guess"
              (Auth.mkUser "u1" "admin" "bcrypt:s3cret" None)
              eq_refl eq_refl eq_refl eq_refl eq_refl eq_refl eq_refl eq_refl)
    as (H1 & H2 & _).
  exact (eq_trans H1 (eq_sym H2)).
Defined.

(** ** The ports response cache and the annotation mutations *)

Section CacheProps.
Import JS Store Api.

Definition PORTS_KEY : string := "endpoint:ports:local".

Lemma cache_get_delete {V} (c : gmap string (V * Z)) (k : string) (now : Z) :
  Cache.get (Cache.delete c k) k now = None.
Proof. unfold Cache.get, Cache.delete. now rewrite lookup_delete_eq. Qed.

(** A [GET /api/ports] that finds no live entry under the key does not
    answer from the cache. *)
Lemma get_ports_miss (cache_on : bool)
  (dp sp : outcome (list Aggregator.PortObservation)) (w : World)
  (ttl : Z) (data : list Aggregator.AggregatedPort) :
  Cache.get (cache w) PORTS_KEY (clock w) = None ->
  body (snd (get_ports cache_on dp sp w)) <> Ports true ttl data.
Proof.
  intros Hmiss. unfold get_ports. fold PORTS_KEY. rewrite Hmiss.
  destruct cache_on, dp, sp; cbn; discriminate.
Qed.

(** [POST /api/notes] never touches the cache. *)
Lemma post_notes_cache (b : Req.t) (w : World) :
  cache (fst (post_notes b w)) = cache w.
Proof.
  destruct (validateNoteInput b (db w)) eqn:Hval.
  - unfold post_notes. now rewrite Hval.
  - rewrite (post_notes_run b w Hval).
    destruct (select_get note_key _ _); destruct (String.eqb _ ""); reflexivity.
Qed.

(** [POST /api/ignores] never touches the cache. *)
Lemma post_ignores_cache (b : Req.t) (w : World) :
  cache (fst (post_ignores b w)) = cache w.
Proof.
  destruct (validateIgnoreInput b) eqn:Hval.
  - unfold post_ignores. now rewrite Hval.
  - rewrite (post_ignores_run b w Hval).
    destruct (truthy_bool _); destruct (select_get ignore_key _ _);
      try destruct (fk_ok _ _); reflexivity.
Qed.

(** A handler whose answer 200 is given after [responseCache.delete]. *)
Lemma respond_then_invalidate {A} (m : M A) (r : A -> Response)
  (on_error : string -> Response) (w : World) :
  (forall msg, code (on_error msg) <> 200) ->
  code (snd (respond (bind m (fun a =>
                        bind (cache_delete PORTS_KEY) (fun _ => ret (r a))))
               on_error w)) = 200 ->
  cache (fst (respond (bind m (fun a =>
                         bind (cache_delete PORTS_KEY) (fun _ => ret (r a))))
                on_error w)) !! PORTS_KEY = None.
Proof.
  intros Herr. unfold respond, bind, cache_delete, ret.
  destruct (m w) as [w1 [a|msg]]; cbn.
  - intros _. unfold Cache.delete. apply lookup_delete_eq.
  - intros H. now apply Herr in H.
Qed.

Lemma db_failed_code (details msg : string) : code (db_failed details msg) <> 200.
Proof. cbn. lia. Qed.

Lemma bad_request_code (msg : string) : code (bad_request msg) <> 200.
Proof. cbn. lia. Qed.

Lemma validate_name_ops_code (ops : list Req.t) (i : Z) (r : Response) :
  validate_name_ops i ops = Some r -> code r = 400.
Proof.
  revert i. induction ops as [|op ops IH]; intros i; simpl; [discriminate|].
  destruct (validate_name_op i op) as [r'|] eqn:E; [|apply IH].
  intros [= <-]. unfold validate_name_op in E.
  repeat match type of E with
         | (if ?c then _ else _) = Some _ => destruct c
         end; try discriminate; now injection E as <-.
Qed.

(** The handlers that do delete the cache entry before they answer 200:
    the custom-name upsert and delete, and both batch handlers. *)
Lemma sibling_handlers_invalidate (w : World) :
  (forall b, code (snd (post_custom_service_names b w)) = 200 ->
             cache (fst (post_custom_service_names b w)) !! PORTS_KEY = None)
  /\ (forall b, code (snd (delete_custom_service_names b w)) = 200 ->
               cache (fst (delete_custom_service_names b w)) !! PORTS_KEY = None)
  /\ (forall sid ops,
        code (snd (post_custom_service_names_batch sid ops w)) = 200 ->
        cache (fst (post_custom_service_names_batch sid ops w)) !! PORTS_KEY
        = None)
  /\ (forall sid ops,
        code (snd (post_notes_batch sid ops w)) = 200 ->
        cache (fst (post_notes_batch sid ops w)) !! PORTS_KEY = None).
Proof.
  split; [|split; [|split]].
  - intros b. unfold post_custom_service_names.
    destruct (validateCustomServiceNameInput b) as [r|] eqn:Hval.
    { apply validateCustomServiceNameInput_code in Hval. cbn. lia. }
    unfold respond, bind. rewrite names_get_run.
    destruct (select_get name_key _ _);
      [destruct (names_update _ _ _ w) as [w1 [[]|msg]]
      |destruct (names_insert _ _ _ w) as [w1 [[]|msg]]];
      try (cbn; discriminate);
      (destruct (wildcard_target b "0.0.0.0");
       [destruct (mirror_upsert b "::" w1) as [w2 [[]|msg]]
       |destruct (wildcard_target b "::");
        [destruct (mirror_upsert b "0.0.0.0" w1) as [w2 [[]|msg]]|]]);
      try (cbn; discriminate);
      intros _; cbn; unfold Cache.delete; apply lookup_delete_eq.
  - intros b. unfold delete_custom_service_names.
    destruct (validateCustomServiceNameDeleteInput b) as [r|] eqn:Hval.
    { unfold validateCustomServiceNameDeleteInput in Hval.
      destruct (validateIdentity b) eqn:E.
      - injection Hval as <-. apply validateIdentity_code in E. cbn. lia.
      - apply validateContainer_code in Hval. cbn. lia. }
    unfold respond, bind. rewrite names_delete_run.
    destruct (_ && _);
      destruct (wildcard_target b "0.0.0.0");
      try destruct (wildcard_target b "::");
      rewrite ?names_delete_run; unfold ret; rewrite ?names_delete_run;
      (destruct (0 <? _); cbn; [|discriminate]);
      intros _; unfold Cache.delete; apply lookup_delete_eq.
  - intros sid ops. unfold post_custom_service_names_batch.
    destruct (missing sid || blank sid); [cbn; discriminate|].
    destruct ops as [[|op ops]|]; try (cbn; discriminate).
    destruct (validate_name_ops 0 (op :: ops)) as [r|] eqn:Hval.
    { apply validate_name_ops_code in Hval. cbn. lia. }
    apply (respond_then_invalidate (name_batch_loop sid (op :: ops) [])
             (fun results => mkResp 200 (NameResults results))).
    apply db_failed_code.
  - intros sid ops. unfold post_notes_batch.
    destruct ops as [ops|]; [|cbn; discriminate].
    destruct (missing sid); [cbn; discriminate|].
    apply (respond_then_invalidate (note_batch_loop sid ops [])
             (fun results => mkResp 200 (NoteResults results))).
    apply db_failed_code.
Qed.

Definition port_8080 : Aggregator.PortObservation :=
  Aggregator.mkObs (Some "0.0.0.0") (Some 8080) "tcp" (Some "nginx")
    (Some 4242) None false.

Definition port_9090 : Aggregator.PortObservation :=
  Aggregator.mkObs (Some "0.0.0.0") (Some 9090) "tcp" (Some "caddy")
    (Some 4243) None false.

(** A world whose cache holds the payload of an earlier scan, still live. *)
Definition cached_world : World :=
  mkWorld (mkDB ["local"] [] [] [])
    {[ PORTS_KEY := (Aggregator.aggregate [port_8080], 4000) ]} 1000.

(** C1: the claim does not hold of the code.  A note upsert that succeeds
    leaves the cache entry of the ports endpoint in place, and so does an
    ignore write: the next [GET /api/ports] is answered from the cache, with
    the payload of the scan made before the write. *)
Theorem single_note_and_ignore_keep_ports_cache :
  let stale := Aggregator.aggregate [port_8080] in
  let scan := Return [port_8080; port_9090] in
  let ignore_it :=
    Req.mk None (Some "local") (Some "0.0.0.0") (Some 8080) (Some "tcp")
      None (Some true) None None None None in
  (snd (post_notes padded_note cached_world)
   = mkResp 200 (Saved "Note saved successfully")
   /\ snd (get_ports true scan (Return [])
              (fst (post_notes padded_note cached_world)))
      = mkResp 200 (Ports true RESP_TTL_PORTS stale))
  /\ (snd (post_ignores ignore_it cached_world)
      = mkResp 200 (Saved "Ignore status updated")
      /\ snd (get_ports true scan (Return [])
                 (fst (post_ignores ignore_it cached_world)))
         = mkResp 200 (Ports true RESP_TTL_PORTS stale)).
Proof.
  intros stale scan ignore_it.
  assert (Hhit : forall w, cache w = cache cached_world -> clock w = 1000 ->
            snd (get_ports true scan (Return []) w)
            = mkResp 200 (Ports true RESP_TTL_PORTS stale)).
  { intros w Hc Ht. unfold get_ports, Cache.get. fold PORTS_KEY.
    rewrite Hc, Ht. unfold cached_world. cbn [cache].
    rewrite lookup_singleton_eq. reflexivity. }
  split; (split; [reflexivity|]); apply Hhit.
  - apply post_notes_cache.
  - reflexivity.
  - apply post_ignores_cache.
  - reflexivity.
Qed.

End CacheProps.

(** ** Batch operations *)

Section BatchProps.
Import JS Store Api.

(** The operations of a notes batch for which the loop body pushes an
    outcome: those that fail the field checks, a set whose note is not
    blank, and a delete. *)
Definition fields_rejected (op : Req.t) : bool :=
  missing (Req.action op) || missing (Req.host_ip op)
  || negb (present (Req.host_port op))
  || bad_port (Req.host_port op) || bad_protocol (Req.protocol op).

Definition is_set_with_note (op : Req.t) : bool :=
  str_eq (Req.action op) "set"
  && truthy_opt truthy_str (Req.note op).

Definition pushes_outcome (op : Req.t) : bool :=
  fields_rejected op
  || (if is_set_with_note op
      then truthy_str (trim (default "" (Req.note op)))
      else str_eq (Req.action op) "delete").

Lemma notes_get_run (q : Key) (w : World) :
  notes_get q w = (w, Return (select_get note_key (notes (db w)) q)).
Proof. reflexivity. Qed.

Lemma note_batch_try_length (sid : option string) (op : Req.t) (w w' : World)
  (res : list NoteOutcome) :
  note_batch_try sid op w = (w', Return res) ->
  (length res <= 1)%nat
  /\ ((if is_set_with_note op
       then truthy_str (trim (default "" (Req.note op)))
       else str_eq (Req.action op) "delete") = true ->
      length res = 1%nat).
Proof.
  unfold note_batch_try, is_set_with_note.
  destruct (str_eq (Req.action op) "set"
            && truthy_opt truthy_str (Req.note op)).
  - destruct (truthy_str (trim _)).
    + unfold bind. rewrite notes_get_run. unfold ret.
      destruct (select_get note_key _ _).
      * destruct (notes_update _ _ w) as [w1 [[]|msg]]; [|discriminate].
        intros [= <- <-]. cbn. split; [lia | reflexivity].
      * destruct (notes_insert _ _ _ w) as [w1 [[]|msg]]; [|discriminate].
        intros [= <- <-]. cbn. split; [lia | reflexivity].
    + intros [= <- <-]. cbn. split; [lia | discriminate].
  - destruct (str_eq (Req.action op) "delete").
    + unfold bind. destruct (notes_delete _ w) as [w1 [changes|msg]];
        [|discriminate].
      intros [= <- <-]. cbn. split; [lia | reflexivity].
    + intros [= <- <-]. cbn. split; [lia | discriminate].
Qed.

(** The loop body of the notes batch never throws: a failing statement
    becomes the outcome of its item. *)
Lemma note_batch_op_total (sid : option string) (op : Req.t) (w : World) :
  exists w' res,
    note_batch_op sid op w = (w', Return res)
    /\ (length res <= 1)%nat
    /\ (pushes_outcome op = true -> length res = 1%nat)
    /\ (fields_rejected op = false ->
        forall w1 msg, note_batch_try sid op w = (w1, Throw msg) ->
          w' = w1
          /\ res = [mkNoteOutcome false None (Some msg) (Req.host_ip op)
                      (Req.host_port op) (Req.container_id op) None None]).
Proof.
  unfold note_batch_op, pushes_outcome, fields_rejected.
  destruct (missing (Req.action op) || missing (Req.host_ip op)
            || negb (present (Req.host_port op))); cbn [orb].
  { exists w, [note_failure
                 "Missing required fields: action, host_ip, host_port"].
    cbn. repeat split; try lia; discriminate. }
  destruct (bad_port (Req.host_port op)); cbn [orb].
  { exists w, [note_failure "host_port must be a valid port number (1-65535)"].
    cbn. repeat split; try lia; discriminate. }
  destruct (bad_protocol (Req.protocol op)); cbn [orb].
  { exists w, [note_failure
                 "protocol is required and must be either 'tcp' or 'udp'"].
    cbn. repeat split; try lia; discriminate. }
  unfold try_catch.
  destruct (note_batch_try sid op w) as [w1 [res|msg]] eqn:Htry.
  - exists w1, res. destruct (note_batch_try_length _ _ _ _ _ Htry) as [H1 H2].
    split; [reflexivity|]. split; [assumption|]. split; [assumption|].
    intros _ w2 msg' [=].
  - exists w1. eexists. split; [reflexivity|]. cbn [length].
    split; [lia|]. split; [reflexivity|].
    intros _ w2 msg' [= <- <-]. split; reflexivity.
Qed.

Lemma note_batch_loop_total (sid : option string) (ops : list Req.t)
  (acc : list NoteOutcome) (w : World) :
  exists w' results,
    note_batch_loop sid ops acc w = (w', Return results)
    /\ (length results <= length acc + length ops)%nat
    /\ ((forall op, op ∈ ops -> pushes_outcome op = true) ->
        length results = (length acc + length ops)%nat).
Proof.
  revert acc w. induction ops as [|op ops IH]; intros acc w.
  - exists w, acc. cbn. repeat split; lia.
  - destruct (note_batch_op_total sid op w) as (w1 & res & Hop & Hle & Heq & _).
    destruct (IH (acc ++ res) w1) as (w2 & results & Hloop & Hle' & Heq').
    exists w2, results. cbn [note_batch_loop]. unfold bind at 1. rewrite Hop.
    split; [exact Hloop|]. rewrite length_app in Hle', Heq'. cbn [length].
    split; [lia|]. intros Hall.
    rewrite Heq'.
    + rewrite Heq; [lia|]. apply Hall. apply elem_of_cons. now left.
    + intros op' Hin. apply Hall. apply elem_of_cons. now right.
Qed.

Lemma validate_name_op_action (i : Z) (op : Req.t) :
  validate_name_op i op = None ->
  str_eq (Req.action op) "set"
  || str_eq (Req.action op) "delete" = true.
Proof.
  unfold validate_name_op.
  destruct (str_eq (Req.action op) "set"
            || str_eq (Req.action op) "delete");
    [reflexivity | discriminate].
Qed.

Lemma validate_name_ops_all (ops : list Req.t) (i : Z) :
  validate_name_ops i ops = None ->
  forall op, op ∈ ops -> exists j, validate_name_op j op = None.
Proof.
  revert i. induction ops as [|op ops IH]; intros i; simpl.
  - intros _ op Hin. now apply elem_of_nil in Hin.
  - destruct (validate_name_op i op) eqn:E; [discriminate|].
    intros Hrest op' Hin. apply elem_of_cons in Hin as [->|Hin].
    + now exists i.
    + now apply (IH (i + 1)).
Qed.

Lemma name_batch_op_length (sid : option string) (op : Req.t) (i : Z)
  (w w' : World) (res : list NameOutcome) :
  validate_name_op i op = None ->
  name_batch_op sid op w = (w', Return res) -> length res = 1%nat.
Proof.
  intros Hval. apply validate_name_op_action in Hval.
  unfold name_batch_op.
  destruct (str_eq (Req.action op) "set").
  - unfold bind. rewrite names_get_run. unfold ret.
    destruct (select_get name_key _ _).
    + destruct (names_update _ _ _ w) as [w1 [[]|msg]]; [|discriminate].
      now intros [= <- <-].
    + destruct (names_insert _ _ _ w) as [w1 [[]|msg]]; [|discriminate].
      now intros [= <- <-].
  - cbn [orb] in Hval. rewrite Hval. unfold bind. rewrite names_delete_run.
    now intros [= <- <-].
Qed.

Lemma name_batch_loop_length (sid : option string) (ops : list Req.t)
  (acc results : list NameOutcome) (w w' : World) :
  (forall op, op ∈ ops -> exists j, validate_name_op j op = None) ->
  name_batch_loop sid ops acc w = (w', Return results) ->
  length results = (length acc + length ops)%nat.
Proof.
  revert acc w. induction ops as [|op ops IH]; intros acc w Hall.
  - cbn. intros [= <- <-]. lia.
  - cbn [name_batch_loop]. unfold bind at 1.
    destruct (name_batch_op sid op w) as [w1 [res|msg]] eqn:Hop; [|discriminate].
    intros Hloop. apply IH in Hloop.
    + destruct (Hall op) as (j & Hj); [apply elem_of_cons; now left|].
      rewrite Hloop, length_app, (name_batch_op_length _ _ _ _ _ _ Hj Hop).
      cbn [length]. lia.
    + intros op' Hin. apply Hall. apply elem_of_cons. now right.
Qed.

(** The custom-names loop stops at the first statement that throws. *)
Lemma name_batch_loop_abort (sid : option string) (ops1 ops2 : list Req.t)
  (op : Req.t) (acc r1 : list NameOutcome) (w w1 w2 : World) (msg : string) :
  name_batch_loop sid ops1 acc w = (w1, Return r1) ->
  name_batch_op sid op w1 = (w2, Throw msg) ->
  name_batch_loop sid (ops1 ++ op :: ops2) acc w = (w2, Throw msg).
Proof.
  revert acc w. induction ops1 as [|op1 ops1 IH]; intros acc w.
  - cbn [name_batch_loop app]. intros [= <- <-] Hop.
    unfold bind. now rewrite Hop.
  - cbn [name_batch_loop app]. unfold bind.
    destruct (name_batch_op sid op1 w) as [w' [res|m]]; [|discriminate].
    apply IH.
Qed.

(** The design document's sentence on batches, read for the custom-names
    batch: whatever the statements do, the answer lists one outcome per
    operation. *)
Definition name_batch_lists_every_outcome : Prop :=
  forall sid ops w,
    missing sid || blank sid = false -> ops <> [] ->
    validate_name_ops 0 ops = None ->
    exists results,
      body (snd (post_custom_service_names_batch sid (Some ops) w))
      = NameResults results
      /\ length results = length ops.

Definition set_name_op : Req.t :=
  Req.mk (Some "set") None (Some "10.0.0.1") (Some 8080) (Some "tcp")
    None None (Some "Proxy") None None None.

Definition delete_name_op : Req.t :=
  Req.mk (Some "delete") None (Some "10.0.0.1") (Some 9090) (Some "tcp")
    None None None None None None.

(** C4, as stated, fails: in the custom-names batch a statement that throws
    (here the INSERT for a server that is not registered) is caught by the
    handler as a whole, which answers 500 without any list of outcomes. *)
Lemma name_batch_aborts_on_failure : ~ name_batch_lists_every_outcome.
Proof.
  intros H.
  destruct (H (Some "ghost") [set_name_op; delete_name_op] fresh_world)
    as (results & Hbody & _); [reflexivity | discriminate | reflexivity |].
  discriminate Hbody.
Qed.

(** C4 (amended): the notes batch applies each operation independently.  Its
    loop body never throws: a statement that fails becomes the outcome
    success:false of its item, with the message, and the loop goes on with
    the next operation from the state the failed one left; the handler
    answers 200 with at most one outcome per operation, and exactly one per
    operation when each is rejected by the field checks, a set with a note
    that is not blank, or a delete.  The custom-names batch validates every
    operation first and then applies them in order: when it answers 200 it
    lists exactly one outcome per operation; a statement that fails aborts
    it with 500 at that operation, the operations before it staying applied
    and the ones after it never run. *)
Theorem batch_outcomes :
  (forall sid ops w,
     missing sid = false ->
     exists results,
       snd (post_notes_batch sid (Some ops) w) = mkResp 200 (NoteResults results)
       /\ (length results <= length ops)%nat
       /\ ((forall op, op ∈ ops -> pushes_outcome op = true) ->
           length results = length ops))
  /\ (forall sid op rest acc w,
        exists w' res,
          note_batch_op sid op w = (w', Return res)
          /\ note_batch_loop sid (op :: rest) acc w
             = note_batch_loop sid rest (acc ++ res) w'
          /\ (fields_rejected op = false ->
              forall w1 msg, note_batch_try sid op w = (w1, Throw msg) ->
                w' = w1
                /\ res = [mkNoteOutcome false None (Some msg) (Req.host_ip op)
                            (Req.host_port op) (Req.container_id op)
                            None None]))
  /\ (forall sid ops w,
        code (snd (post_custom_service_names_batch sid (Some ops) w)) = 200 ->
        exists results,
          body (snd (post_custom_service_names_batch sid (Some ops) w))
          = NameResults results
          /\ length results = length ops)
  /\ (forall sid ops1 op ops2 w w1 r1 w2 msg,
        missing sid || blank sid = false ->
        validate_name_ops 0 (ops1 ++ op :: ops2) = None ->
        name_batch_loop sid ops1 [] w = (w1, Return r1) ->
        name_batch_op sid op w1 = (w2, Throw msg) ->
        post_custom_service_names_batch sid (Some (ops1 ++ op :: ops2)) w
        = (w2, mkResp 500
                 (Failed "Database operation failed"
                    (Some "Unable to process batch custom service name operations")
                    None))).
Proof.
  split; [|split; [|split]].
  - intros sid ops w Hsid. unfold post_notes_batch. rewrite Hsid.
    destruct (note_batch_loop_total sid ops [] w)
      as (w1 & results & Hloop & Hle & Heq).
    exists results. unfold respond, bind. rewrite Hloop. cbn.
    split; [reflexivity|]. cbn in Hle, Heq. split; assumption.
  - intros sid op rest acc w.
    destruct (note_batch_op_total sid op w) as (w1 & res & Hop & _ & _ & Hfail).
    exists w1, res. split; [assumption|]. split; [|assumption].
    cbn [note_batch_loop]. unfold bind at 1. now rewrite Hop.
  - intros sid ops w. unfold post_custom_service_names_batch.
    destruct (missing sid || blank sid); [cbn; discriminate|].
    destruct ops as [|op ops]; [cbn; discriminate|].
    destruct (validate_name_ops 0 (op :: ops)) as [r|] eqn:Hval.
    { apply validate_name_ops_code in Hval. cbn. lia. }
    unfold respond, bind.
    destruct (name_batch_loop sid (op :: ops) [] w) as [w1 [results|msg]] eqn:Hloop;
      [|cbn; discriminate].
    intros _. exists results. cbn. split; [reflexivity|].
    apply name_batch_loop_length in Hloop; [exact Hloop|].
    now apply (validate_name_ops_all _ 0).
  - intros sid ops1 op ops2 w w1 r1 w2 msg Hsid Hval Hloop Hop.
    unfold post_custom_service_names_batch. rewrite Hsid, Hval.
    unfold respond, bind.
    rewrite (name_batch_loop_abort sid ops1 ops2 op [] r1 w w1 w2 msg Hloop Hop).
    destruct (ops1 ++ op :: ops2) eqn:E; [|reflexivity].
    now destruct ops1.
Qed.

End BatchProps.

(** ** ReachabilityProbe *)

Section ProbeProps.
Import Resolver Probe.

(** The design document's sentence on stage timeouts, read for HEAD and
    GET: when HEAD is left unanswered, GET is still attempted with a full
    budget of its own, so a GET answer that would come within
    [PING_TIMEOUT] of its request makes the probe reachable through GET. *)
Definition head_timeout_spares_get : Prop :=
  forall scheme net latency st ct tx,
    head net = Hangs ->
    get net = Responds latency st ct tx ->
    0 <= latency < PING_TIMEOUT -> st < 500 ->
    reachable (snd (testProtocol scheme net)) = true
    /\ method (snd (testProtocol scheme net)) = Some "GET".

Definition deaf_to_head : Network :=
  mkNet Hangs (Responds 10 200 (Some "text/html") (Some "ok")) Hangs.

(** C2, as stated, fails: HEAD and GET are given the signal of one
    controller, armed once; after a HEAD that timed out the signal has
    aborted and the GET is rejected before any answer can come. *)
Lemma head_timeout_starves_get : ~ head_timeout_spares_get.
Proof.
  intros H.
  destruct (H "http" deaf_to_head 10 200 (Some "text/html") (Some "ok"))
    as [Hr _];
    [reflexivity | reflexivity | unfold PING_TIMEOUT; lia | lia |].
  discriminate Hr.
Qed.

Lemma fetch_after_abort (r : Reply) :
  fetch PING_TIMEOUT r = (PING_TIMEOUT, inr ABORTED).
Proof. reflexivity. Qed.

(** C2 (amended): the HEAD and GET stages share the one abort signal of the
    probe, armed for [PING_TIMEOUT] when the probe starts.  When the HEAD
    stage runs into that timeout, the GET request is rejected at once,
    whatever the network would have answered: what is left of the probe is
    the permissive stage.  For a scheme other than https the probe resolves
    at [PING_TIMEOUT] to reachable:false; for https the permissive request
    enforces a timeout of its own, and an answer below 500 that comes within
    [PING_TIMEOUT] of that request makes the probe reachable. *)
Theorem head_timeout_leaves_permissive_stage (net : Network) :
  fetch 0 (head net) = (PING_TIMEOUT, inr ABORTED) ->
  (forall scheme,
     testProtocol scheme net = permissive_stage scheme net PING_TIMEOUT)
  /\ (forall scheme g,
        testProtocol scheme (mkNet (head net) g (permissive net))
        = testProtocol scheme net)
  /\ (forall scheme,
        scheme <> "https" ->
        testProtocol scheme net
        = (PING_TIMEOUT, unreachable "No successful response"))
  /\ (forall latency st ct tx,
        permissive net = Responds latency st ct tx ->
        0 <= latency < PING_TIMEOUT -> 0 < st < 500 ->
        testProtocol "https" net
        = (PING_TIMEOUT + latency, reached "https" "GET" st latency None)).
Proof.
  intros Hhead.
  assert (Hrun : forall scheme n,
            head n = head net ->
            testProtocol scheme n = permissive_stage scheme n PING_TIMEOUT).
  { intros scheme n Hn. unfold testProtocol. rewrite Hn, Hhead.
    unfold get_stage. now rewrite fetch_after_abort. }
  split; [intros; now apply Hrun|]. split; [|split].
  - intros scheme g. rewrite !Hrun by reflexivity.
    unfold permissive_stage. reflexivity.
  - intros scheme Hne. rewrite Hrun by reflexivity. unfold permissive_stage.
    destruct (String.eqb_spec scheme "https"); [contradiction | reflexivity].
  - intros latency st ct tx Hperm Hlat Hst. rewrite Hrun by reflexivity.
    unfold permissive_stage, permissive_request. cbn [String.eqb Ascii.eqb].
    rewrite Hperm.
    destruct (Z.ltb_spec latency PING_TIMEOUT) as [_|?]; [|lia].
    destruct (Z.eqb_spec st 0) as [?|_]; [lia|].
    destruct (Z.ltb_spec st 500) as [_|?]; [|lia].
    do 2 f_equal. lia.
Qed.

Definition self_signed : Network :=
  mkNet Hangs (Responds 10 200 None None) (Responds 30 401 None None).

Lemma head_timeout_leaves_permissive_stage_witness :
  testProtocol "https" self_signed
  = (PING_TIMEOUT + 30, reached "https" "GET" 401 30 None).
Proof.
  destruct (head_timeout_leaves_permissive_stage self_signed eq_refl)
    as (_ & _ & _ & H).
  apply (H 30 401 None None eq_refl); unfold PING_TIMEOUT; lia.
Defined.

End ProbeProps.

(** ** The foreign key of [custom_service_names] is an invariant

    Every handler keeps [names_fk]: the statements that add a row check the
    key, the others keep the keys of the rows and the registered servers. *)

Section ForeignKey.
Import JS Store Api.

Definition keeps_fk {A} (m : M A) : Prop :=
  forall w, names_fk (db w) = true -> names_fk (db (fst (m w))) = true.

Lemma keeps_fk_ret {A} (a : A) : keeps_fk (ret a).
Proof. intros w H. exact H. Qed.

Lemma keeps_fk_throw {A} (msg : string) : keeps_fk (@throw A msg).
Proof. intros w H. exact H. Qed.

Lemma keeps_fk_bind {A B} (m : M A) (f : A -> M B) :
  keeps_fk m -> (forall a, keeps_fk (f a)) -> keeps_fk (bind m f).
Proof.
  intros Hm Hf w H. unfold bind. specialize (Hm w H).
  destruct (m w) as [w1 [a|msg]]; cbn [fst] in *; [now apply Hf | exact Hm].
Qed.

Lemma keeps_fk_try_catch {A} (m : M A) (h : string -> M A) :
  keeps_fk m -> (forall msg, keeps_fk (h msg)) -> keeps_fk (try_catch m h).
Proof.
  intros Hm Hh w H. unfold try_catch. specialize (Hm w H).
  destruct (m w) as [w1 [a|msg]]; cbn [fst] in *; [exact Hm | now apply Hh].
Qed.

Lemma keeps_fk_state {A} (m : M A) :
  (forall w, custom_service_names (db (fst (m w))) = custom_service_names (db w)
             /\ servers (db (fst (m w))) = servers (db w)) ->
  keeps_fk m.
Proof.
  intros Hm w H. destruct (Hm w) as [Hn Hs].
  unfold names_fk, fk_ok in *. now rewrite Hn, Hs.
Qed.

Lemma keeps_fk_cache_delete (k : string) : keeps_fk (cache_delete k).
Proof. apply keeps_fk_state. intros w. split; reflexivity. Qed.

Lemma keeps_fk_names_get (q : Key) : keeps_fk (names_get q).
Proof. apply keeps_fk_state. intros w. split; reflexivity. Qed.

Lemma keeps_fk_notes_get (q : Key) : keeps_fk (notes_get q).
Proof. apply keeps_fk_state. intros w. split; reflexivity. Qed.

Lemma keeps_fk_notes_delete (q : Key) : keeps_fk (notes_delete q).
Proof. apply keeps_fk_state. intros w. split; reflexivity. Qed.

Lemma keeps_fk_notes_update (t : string) (q : Key) : keeps_fk (notes_update t q).
Proof. apply keeps_fk_state. intros w. split; reflexivity. Qed.

Lemma keeps_fk_notes_insert (k : Key) (t : string) (b : bool) :
  keeps_fk (notes_insert k t b).
Proof.
  apply keeps_fk_state. intros w.
  unfold notes_insert, bind, get_db, get_now, put_db, throw. cbv beta iota.
  destruct (pk_conflict _ _ _); [split; reflexivity|].
  destruct (negb _); split; reflexivity.
Qed.

Lemma keeps_fk_ignores_get (q : Key) : keeps_fk (ignores_get q).
Proof. apply keeps_fk_state. intros w. split; reflexivity. Qed.

Lemma keeps_fk_ignores_delete (q : Key) : keeps_fk (ignores_delete q).
Proof. apply keeps_fk_state. intros w. split; reflexivity. Qed.

Lemma keeps_fk_ignores_insert (k : Key) : keeps_fk (ignores_insert k).
Proof.
  apply keeps_fk_state. intros w.
  unfold ignores_insert, bind, get_db, get_now, put_db, throw. cbv beta iota.
  destruct (pk_conflict _ _ _); [split; reflexivity|].
  destruct (negb _); split; reflexivity.
Qed.

Lemma keeps_fk_names_delete (q : Key) : keeps_fk (names_delete q).
Proof.
  intros w H. rewrite names_delete_run. cbn [fst db]. unfold names_fk in *.
  rewrite forallb_forall in *. intros r Hin. cbn in Hin.
  apply filter_In in Hin as [Hin _]. unfold fk_ok. cbn. now apply H.
Qed.

Lemma keeps_fk_names_update (cn o : option string) (q : Key) :
  keeps_fk (names_update cn o q).
Proof.
  intros w H. unfold names_update, bind, get_db, get_now, put_db, throw, ret.
  cbv beta iota. destruct cn as [c|].
  - cbn [fst db]. unfold names_fk in *. rewrite forallb_forall in *.
    intros r Hin. cbn in Hin. apply in_map_iff in Hin as (r0 & <- & Hin).
    specialize (H r0 Hin). unfold fk_ok in *. cbn.
    now destruct (key_eqb (name_key r0) q).
  - now destruct (existsb _ _).
Qed.

Lemma keeps_fk_names_insert (k : Key) (cn o : option string) :
  keeps_fk (names_insert k cn o).
Proof.
  intros w H. unfold names_insert, bind, get_db, get_now, put_db, throw.
  cbv beta iota. destruct cn as [c|]; [|exact H].
  destruct (pk_conflict _ _ _); [exact H|].
  destruct (fk_ok (db w) k) eqn:Hk; cbn [negb]; [|exact H].
  cbn [fst db]. unfold names_fk in *. rewrite forallb_forall in *.
  intros r Hin. cbn in Hin. apply in_app_iff in Hin as [Hin|[<-|[]]].
  - specialize (H r Hin). unfold fk_ok in *. now cbn.
  - unfold fk_ok in *. now cbn.
Qed.

Lemma keeps_fk_respond (m : M Response) (on_error : string -> Response)
  (w : World) :
  keeps_fk m -> names_fk (db w) = true ->
  names_fk (db (fst (respond m on_error w))) = true.
Proof.
  intros Hm H. unfold respond. specialize (Hm w H).
  now destruct (m w) as [w1 [r|msg]].
Qed.

Create HintDb keeps_fk.
#[local] Hint Resolve keeps_fk_ret keeps_fk_throw keeps_fk_cache_delete
  keeps_fk_names_get keeps_fk_names_delete keeps_fk_names_update
  keeps_fk_names_insert keeps_fk_notes_get keeps_fk_notes_delete
  keeps_fk_notes_update keeps_fk_notes_insert keeps_fk_ignores_get
  keeps_fk_ignores_delete keeps_fk_ignores_insert : keeps_fk.

(** Split a computation along its binds, branches and handlers, down to the
    statements. *)
Ltac keeps_fk_tac :=
  repeat first
    [ solve [auto with keeps_fk]
    | match goal with
      | |- keeps_fk (if ?c then _ else _) => destruct c
      | |- keeps_fk (match ?o with Some _ => _ | None => _ end) => destruct o
      end
    | apply keeps_fk_try_catch; [|intros ?]
    | apply keeps_fk_bind; [|intros ?] ].

Lemma keeps_fk_name_batch_loop (sid : option string) (ops : list Req.t)
  (acc : list NameOutcome) : keeps_fk (name_batch_loop sid ops acc).
Proof.
  revert acc. induction ops as [|op ops IH]; intros acc; cbn.
  - apply keeps_fk_ret.
  - apply keeps_fk_bind; [|intros res; apply IH].
    unfold name_batch_op. keeps_fk_tac.
Qed.

Lemma keeps_fk_note_batch_loop (sid : option string) (ops : list Req.t)
  (acc : list NoteOutcome) : keeps_fk (note_batch_loop sid ops acc).
Proof.
  revert acc. induction ops as [|op ops IH]; intros acc; cbn.
  - apply keeps_fk_ret.
  - apply keeps_fk_bind; [|intros res; apply IH].
    unfold note_batch_op, note_batch_try. keeps_fk_tac.
Qed.

(** Every annotation handler keeps the foreign key of the names table. *)
Lemma handlers_keep_names_fk (w : World) :
  names_fk (db w) = true ->
  (forall b, names_fk (db (fst (post_notes b w))) = true)
  /\ (forall b, names_fk (db (fst (post_ignores b w))) = true)
  /\ (forall b, names_fk (db (fst (post_custom_service_names b w))) = true)
  /\ (forall b, names_fk (db (fst (delete_custom_service_names b w))) = true)
  /\ (forall sid ops,
        names_fk (db (fst (post_custom_service_names_batch sid ops w))) = true)
  /\ (forall sid ops, names_fk (db (fst (post_notes_batch sid ops w))) = true).
Proof.
  intros H. repeat split.
  - intros b. unfold post_notes.
    destruct (validateNoteInput b (db w)); [exact H|].
    apply keeps_fk_respond; [|exact H]. keeps_fk_tac.
  - intros b. unfold post_ignores.
    destruct (validateIgnoreInput b); [exact H|].
    apply keeps_fk_respond; [|exact H]. keeps_fk_tac.
  - intros b. unfold post_custom_service_names.
    destruct (validateCustomServiceNameInput b); [exact H|].
    apply keeps_fk_respond; [|exact H]. unfold mirror_upsert. keeps_fk_tac.
  - intros b. unfold delete_custom_service_names.
    destruct (validateCustomServiceNameDeleteInput b); [exact H|].
    apply keeps_fk_respond; [|exact H]. keeps_fk_tac.
  - intros sid ops. unfold post_custom_service_names_batch.
    destruct (missing sid || blank sid); [exact H|].
    destruct ops as [[|op ops]|]; try exact H.
    destruct (validate_name_ops 0 (op :: ops)); [exact H|].
    apply keeps_fk_respond; [|exact H].
    apply keeps_fk_bind; [apply keeps_fk_name_batch_loop|intros ?].
    keeps_fk_tac.
  - intros sid ops. unfold post_notes_batch.
    destruct ops as [ops|]; [|exact H].
    destruct (missing sid); [exact H|].
    apply keeps_fk_respond; [|exact H].
    apply keeps_fk_bind; [apply keeps_fk_note_batch_loop|intros ?].
    keeps_fk_tac.
Qed.

End ForeignKey.

(** ** Worked examples *)

Section Examples.
Import JS.

Example classify_ssh_port :
  Classifier.detectServiceType 22 (Some "nginx")
  = Classifier.mkDesc "SSH" "system" "Secure Shell (SSH)".
Proof. reflexivity. Qed.

Example classify_by_owner :
  Classifier.detectServiceType 5000 (Some "/usr/sbin/SSHD -D")
  = Classifier.mkDesc "SSH" "system" "SSH service".
Proof. reflexivity. Qed.

Example classify_by_range :
  Classifier.detectServiceType 3000 None
  = Classifier.mkDesc "Web Service" "web" "Web service"
  /\ Classifier.detectServiceType 631 (Some "cupsd")
     = Classifier.mkDesc "System Service" "system" "System service"
  /\ Classifier.detectServiceType 5000 (Some "")
     = Classifier.mkDesc "Service" "service" "Application service".
Proof. repeat split. Qed.

Example resolve_redirect :
  let http :=
    Resolver.mkProbe true (Some 302) (Some "http") (Some "HEAD") (Some 12)
      None None in
  let down := Resolver.mkProbe false None None None None None (Some "x") in
  Resolver.determineServiceStatus
    (Classifier.mkDesc "HTTP Alt" "web" "HTTP alternative port") down http
  = Resolver.mkStatus "accessible" "green" "HTTP Alt - Web service accessible"
      "HTTP alternative port" (Some "http").
Proof. reflexivity. Qed.

Example resolve_teapot_title :
  let http :=
    Resolver.mkProbe true (Some 418) (Some "http") (Some "GET") (Some 12)
      (Some false) None in
  let down := Resolver.mkProbe false None None None None None (Some "x") in
  Resolver.title
    (Resolver.determineServiceStatus
       (Classifier.mkDesc "Web Service" "web" "Web service") down http)
  = "Web Service - Web accessible (HTTP 418)".
Proof. reflexivity. Qed.

Example aggregate_two_owners :
  let a := Aggregator.mkObs (Some "0.0.0.0") (Some 80) "tcp" (Some "nginx")
             (Some 10) None false in
  let b := Aggregator.mkObs (Some "0.0.0.0") (Some 80) "tcp" (Some "caddy")
             (Some 10) (Some "c1") false in
  let c := Aggregator.mkObs (Some "0.0.0.0") (Some 0) "tcp" (Some "ghost")
             (Some 11) None false in
  Aggregator.aggregate [a; c; b]
  = [Aggregator.mkAgg
       (Aggregator.mkGroup a [Some "nginx"; Some "caddy"] [10])
       "nginx, caddy"].
Proof. reflexivity. Qed.

Example probe_head_rejected_get_answers :
  Probe.testProtocol "http"
    (Probe.mkNet (Probe.Responds 5 404 None None)
       (Probe.Responds 7 200 (Some "text/html") (Some "ok")) Probe.Hangs)
  = (12, Probe.reached "http" "GET" 200 7 (Some false)).
Proof. reflexivity. Qed.

(** The same two operations on a server that is not registered: the notes
    batch records the failed INSERT on its item and carries on. *)
Example notes_batch_records_failure :
  let set_note :=
    Req.mk (Some "set") None (Some "10.0.0.1") (Some 8080) (Some "tcp")
      (Some "db box") None None None None None in
  let delete_note :=
    Req.mk (Some "delete") None (Some "10.0.0.1") (Some 9090) (Some "tcp")
      None None None None None None in
  snd (Api.post_notes_batch (Some "ghost") (Some [set_note; delete_note])
         fresh_world)
  = Api.mkResp 200
      (Api.NoteResults
         [Api.mkNoteOutcome false None (Some Store.FK_FAILED)
            (Some "10.0.0.1") (Some 8080) None None None;
          Api.mkNoteOutcome true (Some "delete") None (Some "10.0.0.1")
            (Some 9090) None (Some 0) (Some 0)]).
Proof. reflexivity. Qed.

Example names_batch_aborts :
  snd (Api.post_custom_service_names_batch (Some "ghost")
         (Some [set_name_op; delete_name_op]) fresh_world)
  = Api.mkResp 500
      (Api.Failed "Database operation failed"
         (Some "Unable to process batch custom service name operations") None).
Proof. reflexivity. Qed.

End Examples.

(** * Further properties of the code *)

(** ** ReachabilityProbe: bounds and shape of the result *)

Section ProbeMore.
Import JS Resolver Probe.







(** The shape of what a probe resolves to. *)
Definition well_formed_probe (scheme : string) (r : ProbeResult) : Prop :=
  if reachable r then
    exists st, statusCode r = Some st /\ st < 500
      /\ protocol r = Some scheme /\ error r = None
      /\ ((method r = Some "HEAD" /\ st <> 404 /\ isSPA r = None)
          \/ (method r = Some "GET" /\ (isSPA r = Some true -> st = 404)))
  else
    statusCode r = None /\ error r = Some "No successful response".

Lemma permissive_stage_shape (scheme : string) (net : Network) (start : Z) :
  well_formed_probe scheme (snd (permissive_stage scheme net start)).
Proof.
  unfold permissive_stage. destruct (String.eqb scheme "https").
  - destruct (permissive_request start (permissive net)) as [t [st|msg]].
    + destruct (Z.ltb_spec st 500); cbn; [|split; reflexivity].
      exists st. repeat split; try assumption. right.
      split; [reflexivity | discriminate].
    + cbn. split; reflexivity.
  - cbn. split; reflexivity.
Qed.

Lemma get_stage_shape (scheme : string) (net : Network) (start : Z) :
  well_formed_probe scheme (snd (get_stage scheme net start)).
Proof.
  unfold get_stage. destruct (fetch start (get net)) as [t [resp|msg]].
  - destruct (Z.ltb_spec (fstatus resp) 500); cbn; [|split; reflexivity].
    exists (fstatus resp). repeat split; try assumption. right.
    split; [reflexivity|].
    destruct (Z.eqb_spec (fstatus resp) 404); [tauto | discriminate].
  - apply permissive_stage_shape.
Qed.

Lemma head_stage_shape (scheme : string) (net : Network) :
  well_formed_probe scheme (snd (testProtocol scheme net)).
Proof.
  unfold testProtocol. destruct (fetch 0 (head net)) as [t [resp|msg]].
  - destruct (Z.ltb_spec (fstatus resp) 500) as [Hlt|];
      [destruct (Z.eqb_spec (fstatus resp) 404) as [|Hne]|];
      cbn [andb negb]; try apply get_stage_shape.
    cbn. exists (fstatus resp). repeat split; try assumption. left.
    repeat split. assumption.
  - apply get_stage_shape.
Qed.

(** X2: the result of a probe is well formed.  A reachable result carries a
    status below 500, the scheme probed and no error; it was obtained by HEAD
    (then the status is not 404 and there is no SPA flag) or by GET (then the
    SPA flag can only be set on a 404).  An unreachable result carries no
    status and the error text of the common exit. *)
Theorem testProtocol_result_shape (scheme : string) (net : Network) :
  well_formed_probe scheme (snd (testProtocol scheme net)).
Proof. apply head_stage_shape. Qed.

(** X3: the permissive request matters only after a GET that was rejected,
    and only for https: for any other scheme, and whenever the GET fetch
    brings back a response (a 5xx included), what the network would do with
    the permissive request does not change the result. *)
Theorem permissive_reply_only_after_rejected_get (scheme : string)
  (net : Network) (p : Reply) :
  (scheme <> "https"
   \/ exists t resp,
        fetch (fst (fetch 0 (head net))) (get net) = (t, inl resp)) ->
  testProtocol scheme (mkNet (head net) (get net) p) = testProtocol scheme net.
Proof.
  intros H. unfold testProtocol, get_stage, permissive_stage. cbn [head get permissive].
  destruct (fetch 0 (head net)) as [t0 [r0|m0]]; cbn [fst] in H.
  - destruct ((fstatus r0 <? 500) && negb (fstatus r0 =? 404)); [reflexivity|].
    destruct H as [Hne|(t & resp & ->)]; [|reflexivity].
    destruct (fetch t0 (get net)) as [t [resp|msg]]; [reflexivity|].
    destruct (String.eqb_spec scheme "https"); [contradiction | reflexivity].
  - destruct H as [Hne|(t & resp & ->)]; [|reflexivity].
    destruct (fetch t0 (get net)) as [t [resp|msg]]; [reflexivity|].
    destruct (String.eqb_spec scheme "https"); [contradiction | reflexivity].
Qed.

Lemma permissive_reply_only_after_rejected_get_witness :
  testProtocol "https"
    (mkNet (Responds 5 404 None None) (Responds 7 503 None None)
       (Responds 1 200 None None))
  = testProtocol "https"
      (mkNet (Responds 5 404 None None) (Responds 7 503 None None) Hangs).
Proof.
  apply (permissive_reply_only_after_rejected_get "https"
           (mkNet (Responds 5 404 None None) (Responds 7 503 None None) Hangs)
           (Responds 1 200 None None)).
  right. eexists. eexists. reflexivity.
Defined.

End ProbeMore.

(** ** StatusResolver: what every answer looks like *)

Section ResolverMore.
Import JS Classifier Resolver.

Ltac split_ifs :=
  repeat match goal with
         | |- context [if ?c then _ else _] => destruct c eqn:?
         end.

(** X4: the colour is a function of the status, and the status is one of
    five: system is gray, accessible is green, listening is yellow,
    unreachable and error are red, for every descriptor and every pair of
    probe results. *)
Theorem status_determines_color (info : ServiceDescriptor)
  (https http : ProbeResult) :
  let r := determineServiceStatus info https http in
  In (status r, color r)
     [("system", "gray"); ("accessible", "green"); ("listening", "yellow");
      ("unreachable", "red"); ("error", "red")].
Proof.
  cbv zeta. unfold determineServiceStatus.
  destruct (String.eqb (type info) "system"); [cbn; tauto|].
  destruct (workingResponse https http) as [w|]; [|cbn; tauto].
  destruct (String.eqb (type info) "web").
  - unfold web_status. split_ifs; cbn [status color]; try (cbn; tauto);
      unfold other_status; split_ifs; cbn; tauto.
  - split_ifs; unfold other_status; split_ifs; cbn; tauto.
Qed.

Lemma workingResponse_None (https http : ProbeResult) :
  workingResponse https http = None <->
  reachable https = false /\ reachable http = false.
Proof.
  unfold workingResponse.
  destruct (reachable https), (reachable http); cbn;
    split_ifs; split; try discriminate; try tauto; intros [? ?]; discriminate.
Qed.

Lemma workingResponse_reachable (https http w : ProbeResult) :
  workingResponse https http = Some w ->
  reachable w = true /\ (w = https \/ w = http).
Proof.
  unfold workingResponse.
  destruct (reachable https) eqn:E1, (reachable http) eqn:E2; cbn;
    split_ifs; intros [= <-]; tauto.
Qed.

Lemma status_with_working_response (info : ServiceDescriptor)
  (https http w : ProbeResult) :
  String.eqb (type info) "system" = false ->
  workingResponse https http = Some w ->
  status (determineServiceStatus info https http) <> "unreachable"
  /\ (status (determineServiceStatus info https http) = "error" ->
      num_ge (statusCode w) 500 = true).
Proof.
  intros Hsys Hw. unfold determineServiceStatus. rewrite Hsys, Hw.
  destruct (String.eqb (type info) "web").
  - unfold web_status. split_ifs; cbn [status];
      try (split; [discriminate | (discriminate || reflexivity)]);
      unfold other_status; split_ifs; cbn [status];
      split; discriminate.
  - split_ifs; unfold other_status; split_ifs; cbn [status];
      split; discriminate.
Qed.

(** X5: for a descriptor that is not of type system, the answer is
    unreachable exactly when neither probe reached the port. *)
Theorem unreachable_iff_no_probe_landed (info : ServiceDescriptor)
  (https http : ProbeResult) :
  type info <> "system" ->
  (status (determineServiceStatus info https http) = "unreachable"
   <-> reachable https = false /\ reachable http = false).
Proof.
  intros Hsys. apply String.eqb_neq in Hsys.
  destruct (workingResponse https http) as [w|] eqn:Hw.
  - destruct (status_with_working_response info https http w Hsys Hw) as [H _].
    split; [contradiction|].
    intros Hno. apply workingResponse_None in Hno. congruence.
  - split; [intros _; now apply workingResponse_None|].
    intros _. unfold determineServiceStatus. now rewrite Hsys, Hw.
Qed.

Lemma unreachable_iff_no_probe_landed_witness :
  status (determineServiceStatus (mkDesc "Service" "service" "Application service")
            (Probe.unreachable "No successful response")
            (Probe.unreachable "No successful response"))
  = "unreachable".
Proof.
  apply (unreachable_iff_no_probe_landed
           (mkDesc "Service" "service" "Application service")).
  - discriminate.
  - split; reflexivity.
Defined.

End ResolverMore.

(** ** [parseInt(string, 10)] *)


Section ParseIntProps.
Import JS JSNumber.

Lemma parse_digits_acc (d : Decimal.uint) (acc : positive) :
  parse_digits (NilEmpty.string_of_uint d) (Z.pos acc)
  = Z.pos (Pos.of_uint_acc d acc).
Proof.
  revert acc.
  induction d; intros acc;
    cbn [NilEmpty.string_of_uint parse_digits Pos.of_uint_acc];
    [reflexivity|..];
    match goal with
    | |- context [digit_value ?c] =>
        let v := eval vm_compute in (digit_value c) in
        change (digit_value c) with v
    end;
    cbv beta iota; rewrite <- IHd; f_equal; lia.
Qed.

Lemma parse_digits_uint (d : Decimal.uint) :
  parse_digits (NilEmpty.string_of_uint d) 0 = Z.of_N (Pos.of_uint d).
Proof.
  induction d; cbn [NilEmpty.string_of_uint parse_digits Pos.of_uint];
    [reflexivity|..];
    match goal with
    | |- context [digit_value ?c] =>
        let v := eval vm_compute in (digit_value c) in
        change (digit_value c) with v
    end;
    cbv beta iota; [exact IHd|..]; cbn [Z.of_N];
    rewrite <- parse_digits_acc; f_equal.
Qed.

Lemma string_of_uint_head (d : Decimal.uint) :
  d <> Decimal.Nil ->
  exists c r, NilEmpty.string_of_uint d = String c r
              /\ present (digit_value c) = true
              /\ is_space c = false /\ c <> "-"%char /\ c <> "+"%char.
Proof.
  destruct d; [congruence|..]; intros _; cbn [NilEmpty.string_of_uint];
    eexists; eexists; (split; [reflexivity|]);
    repeat split; discriminate.
Qed.

Lemma parseInt_unsigned (d : Decimal.uint) :
  d <> Decimal.Nil ->
  parseInt (NilEmpty.string_of_uint d) = Some (Z.of_N (Pos.of_uint d)).
Proof.
  intros Hd. pose proof (parse_digits_uint d) as Hv.
  destruct (string_of_uint_head d Hd) as (c & r & Hs & Hdig & Hsp & Hm & Hp).
  unfold parseInt. rewrite Hs in *. cbn [trimStart]. rewrite Hsp.
  destruct c as [[] [] [] [] [] [] [] []]; try congruence;
    cbv beta iota; rewrite Hdig, Hv;
    now destruct (Pos.of_uint d).
Qed.

Lemma parseInt_negative (d : Decimal.uint) :
  d <> Decimal.Nil ->
  parseInt (String "-" (NilEmpty.string_of_uint d))
  = Some (- Z.of_N (Pos.of_uint d)).
Proof.
  intros Hd. pose proof (parse_digits_uint d) as Hv.
  destruct (string_of_uint_head d Hd) as (c & r & Hs & Hdig & _).
  unfold parseInt. cbn [trimStart is_space]. cbv beta iota.
  change (is_space "-") with false. cbv beta iota.
  rewrite Hs in *. rewrite Hdig, Hv.
  now destruct (Pos.of_uint d).
Qed.

(** The decimal text of an integer parses back to that integer. *)
Lemma parseInt_num_to_string (z : Z) : parseInt (num_to_string z) = Some z.
Proof.
  unfold num_to_string. destruct z as [|p|p]; cbn [Z.to_int].
  - reflexivity.
  - cbn [NilEmpty.string_of_int].
    rewrite parseInt_unsigned by apply DecimalPos.Unsigned.to_uint_nonnil.
    now rewrite DecimalPos.Unsigned.of_to.
  - cbn [NilEmpty.string_of_int].
    rewrite parseInt_negative by apply DecimalPos.Unsigned.to_uint_nonnil.
    now rewrite DecimalPos.Unsigned.of_to.
Qed.

End ParseIntProps.

(** ** [GET /api/ping] *)


Section PingProps.
Import JS JSNumber Classifier Resolver Probe Ping.

Ltac split_ifs :=
  repeat match goal with
         | |- context [if ?c then _ else _] => destruct c eqn:?
         end.

(** What the resolver makes of two results that [testProtocol] can give. *)
Lemma resolved_probes (info : ServiceDescriptor) (https http : ProbeResult) :
  well_formed_probe "https" https ->
  well_formed_probe "http" http ->
  String.eqb (Classifier.type info) "system" = false ->
  let r := determineServiceStatus info https http in
  In (Resolver.status r, Resolver.color r)
     [("accessible", "green"); ("listening", "yellow"); ("unreachable", "red")]
  /\ (Resolver.status r = "unreachable"
      <-> Resolver.reachable https = false /\ Resolver.reachable http = false)
  /\ (sprotocol r = None
      \/ (sprotocol r = Some "https" /\ Resolver.reachable https = true)
      \/ (sprotocol r = Some "http" /\ Resolver.reachable http = true)).
Proof.
  intros Hs Hh Hsys. cbv zeta.
  destruct (workingResponse https http) as [w|] eqn:Hw.
  - destruct (status_with_working_response info https http w Hsys Hw)
      as [Hne Herr].
    destruct (workingResponse_reachable _ _ _ Hw) as [Hr Hor].
    assert (Hwf : exists scheme st,
               statusCode w = Some st /\ st < 500
               /\ Resolver.protocol w = Some scheme
               /\ ((scheme = "https" /\ Resolver.reachable https = true)
                   \/ (scheme = "http" /\ Resolver.reachable http = true))).
    { destruct Hor as [-> | ->];
        [unfold well_formed_probe in Hs; rewrite Hr in Hs;
         destruct Hs as (st & E & Hlt & Hp & _); exists "https", st
        |unfold well_formed_probe in Hh; rewrite Hr in Hh;
         destruct Hh as (st & E & Hlt & Hp & _); exists "http", st];
        repeat split; auto. }
    destruct Hwf as (scheme & st & Est & Hlt & Hp & Hsch).
    split; [|split].
    + unfold determineServiceStatus. rewrite Hsys, Hw.
      unfold web_status, other_status. rewrite Est. cbn [num_ge num_lt num_eq].
      split_ifs; cbn; try tauto; lia.
    + split; [contradiction|].
      intros Hno. apply workingResponse_None in Hno. congruence.
    + unfold determineServiceStatus. rewrite Hsys, Hw.
      unfold web_status, other_status. rewrite Est, Hp.
      cbn [num_ge num_lt num_eq].
      split_ifs; cbn [sprotocol]; try (left; reflexivity);
        destruct Hsch as [[-> ?] | [-> ?]]; tauto.
  - pose proof Hw as Hno. apply workingResponse_None in Hno.
    unfold determineServiceStatus. rewrite Hsys, Hw. cbn.
    repeat split; tauto.
Qed.

Lemma container_verdict_cases (health : option string * option string) :
  let state := toLowerCase (render_opt (or_null (fst health))) in
  let h := toLowerCase (render_opt (or_null (snd health))) in
  let '(color, status, _) := container_verdict health in
  In (status, color) [("reachable", "green"); ("unknown", "yellow");
                      ("unreachable", "red"); ("unknown", "gray")]
  /\ (color = "green" <-> state = "running" /\ h = "healthy")
  /\ (color = "red"
      <-> state = "exited" \/ state = "dead" \/ state = "created").
Proof.
  cbv zeta. unfold container_verdict.
  destruct (String.eqb_spec
              (toLowerCase (render_opt (or_null (fst health)))) "running")
    as [-> | Hrun].
  - destruct (String.eqb_spec
                (toLowerCase (render_opt (or_null (snd health)))) "healthy")
      as [-> | Hh].
    + cbn. intuition discriminate.
    + split_ifs; cbn; intuition discriminate.
  - destruct (String.eqb_spec
                (toLowerCase (render_opt (or_null (fst health)))) "exited");
      [cbn; intuition (discriminate || congruence)|].
    destruct (String.eqb_spec
                (toLowerCase (render_opt (or_null (fst health)))) "dead");
      [cbn; intuition (discriminate || congruence)|].
    destruct (String.eqb_spec
                (toLowerCase (render_opt (or_null (fst health)))) "created");
      cbn; intuition (discriminate || congruence).
Qed.

(** X6: whatever the query, the health report and the network, a ping that
    is answered by this server with a status object gives one of seven
    combinations of status, colour and [reachable]; the status [error] of the
    resolver is never among them, because a probe never hands the resolver a
    status of 500 or more. *)
Theorem ping_answer_table (env : Env) (q : Query) (r : PingStatus) :
  ping env q = Status r ->
  In (Ping.status r, Ping.color r, Ping.reachable r)
     [("system", "gray", true); ("accessible", "green", true);
      ("listening", "yellow", true); ("unreachable", "red", false);
      ("reachable", "green", true); ("unknown", "yellow", false);
      ("unknown", "gray", false)].
Proof.
  unfold ping. intros H.
  destruct (Api.missing (host_ip q) || Api.missing (host_port q));
    [discriminate|].
  destruct (parseInt (default "" (host_port q))) as [port|]; [|discriminate].
  destruct ((port <=? 0) || (65535 <? port)); [discriminate|].
  destruct (str_eq (internal q) "true"
            && truthy_opt truthy_str (container_id q)).
  - destruct (truthy_opt truthy_str (server_id q)
              && negb (str_eq (server_id q) "local")).
    + destruct (peer_url env (default "" (server_id q))) as [row|];
        [|discriminate].
      destruct (negb (truthy_opt truthy_str row)); [discriminate|].
      destruct (proxy env _ _) as [[st body]|]; discriminate.
    + pose proof (container_verdict_cases
                    (container_health env (default "" (container_id q))))
        as Hc. cbv zeta in Hc.
      destruct (container_verdict _) as [[color status] title].
      injection H as <-. cbn [Ping.status Ping.color Ping.reachable].
      destruct Hc as (Hin & _).
      destruct Hin as [E|[E|[E|[E|[]]]]]; injection E as <- <-; cbn; tauto.
  - destruct (String.eqb (Classifier.type (detectServiceType port (owner q)))
                "system" || str_eq (source q) "system") eqn:E.
    + injection H as <-. cbn. tauto.
    + cbv zeta in H. injection H as <-.
      cbn [Ping.status Ping.color Ping.reachable].
      apply orb_false_elim in E as [Hsys _].
      match goal with
      | |- context [determineServiceStatus ?i ?a ?b] =>
          destruct (resolved_probes i a b (head_stage_shape "https" _)
                      (head_stage_shape "http" _) Hsys) as (Hin & _);
          cbv zeta in Hin;
          destruct (determineServiceStatus i a b) as [st co ti de pr]
      end.
      cbn [Resolver.status Resolver.color] in *.
      destruct Hin as [E|[E|[E|[]]]]; injection E as <- <-; cbn; tauto.
Qed.

Definition quiet : Network := mkNet Hangs Hangs Hangs.
Definition plain_web : Network :=
  mkNet (Responds 5 200 (Some "text/html") None) Hangs Hangs.

Definition lone_host : Env :=
  mkEnv (fun _ => Store.Return None) (fun _ _ => Store.Throw "offline")
    (fun _ => (Some "running", Some "healthy")) (fun _ => None) false
    "172.17.0.1" (fun _ _ => quiet) (fun _ _ => plain_web).

Definition ask (ip port : string) : Query :=
  mkQuery (Some ip) (Some port) None None None None None None None.

Lemma ping_answer_table_witness :
  In ("accessible", "green", true)
     [("system", "gray", true); ("accessible", "green", true);
      ("listening", "yellow", true); ("unreachable", "red", false);
      ("reachable", "green", true); ("unknown", "yellow", false);
      ("unknown", "gray", false)].
Proof.
  exact (ping_answer_table lone_host (ask "10.0.0.5" "8080")
           (mkPing true "accessible" "green" "HTTP Alt - Web service accessible"
              (Some "http") "web" "HTTP Alt" (Some "HTTP alternative port"))
           eq_refl).
Defined.

(** X7: a port that is neither an internal container port nor a system
    port is probed over https and then http on the host chosen for it, and
    the answer is [reachable] exactly when one of the two probes landed; the
    protocol it names, if any, is that of a probe that landed. *)
Theorem ping_reachable_iff_probe_landed (env : Env) (q : Query) (port : Z)
  (r : PingStatus) :
  parseInt (default "" (host_port q)) = Some port ->
  str_eq (internal q) "true" && truthy_opt truthy_str (container_id q)
  = false ->
  Classifier.type (detectServiceType port (owner q)) <> "system" ->
  str_eq (source q) "system" = false ->
  ping env q = Status r ->
  let host := pingable_host env q (default "" (host_ip q)) in
  let https := snd (testProtocol "https" (https_net env host port)) in
  let http := snd (testProtocol "http" (http_net env host port)) in
  Ping.reachable r = Resolver.reachable https || Resolver.reachable http
  /\ (Ping.protocol r = None
      \/ (Ping.protocol r = Some "https" /\ Resolver.reachable https = true)
      \/ (Ping.protocol r = Some "http" /\ Resolver.reachable http = true)).
Proof.
  intros Hport Hint Hsys Hsrc H. cbv zeta. unfold ping in H.
  destruct (Api.missing (host_ip q) || Api.missing (host_port q));
    [discriminate|].
  rewrite Hport, Hint in H.
  destruct ((port <=? 0) || (65535 <? port)); [discriminate|].
  apply String.eqb_neq in Hsys. rewrite Hsys, Hsrc in H. cbn [orb] in H.
  cbv zeta in H. injection H as <-. cbn [Ping.reachable Ping.protocol].
  match goal with
  | |- context [determineServiceStatus ?i ?a ?b] =>
      destruct (resolved_probes i a b (head_stage_shape "https" _)
                  (head_stage_shape "http" _) Hsys) as (_ & Hiff & Hpr);
      cbv zeta in Hiff, Hpr;
      destruct (determineServiceStatus i a b) as [st co ti de pr];
      set (hs := Resolver.reachable a) in *;
      set (h := Resolver.reachable b) in *
  end.
  cbn [Resolver.status sprotocol] in *. split.
  - destruct (String.eqb_spec st "unreachable") as [E|E]; cbn [negb].
    + apply Hiff in E as [-> ->]. reflexivity.
    + destruct hs, h; try reflexivity. exfalso. apply E, Hiff. now split.
  - destruct Hpr as [-> | [[-> Hr] | [-> Hr]]]; cbn; auto.
Qed.

Lemma ping_reachable_iff_probe_landed_witness :
  true = false || true
  /\ (Some "http" = None
      \/ (Some "http" = Some "https" /\ false = true)
      \/ (Some "http" = Some "http" /\ true = true)).
Proof.
  exact (ping_reachable_iff_probe_landed lone_host (ask "10.0.0.5" "8080") 8080
           (mkPing true "accessible" "green" "HTTP Alt - Web service accessible"
              (Some "http") "web" "HTTP Alt" (Some "HTTP alternative port"))
           eq_refl eq_refl ltac:(discriminate) eq_refl eq_refl).
Defined.

(** X8: the port of a container, asked of this server ([internal=true] with
    a container id, and no other server named), is judged by the health of
    the container alone: it is [reachable] exactly when the container runs
    and is healthy, [unreachable] exactly when it has exited, is dead or was
    only created, and no protocol is named. *)
Theorem ping_container_health (env : Env) (q : Query) (r : PingStatus) :
  str_eq (internal q) "true" = true ->
  truthy_opt truthy_str (container_id q) = true ->
  ping env q = Status r ->
  let health := container_health env (default "" (container_id q)) in
  let state := toLowerCase (render_opt (or_null (fst health))) in
  let h := toLowerCase (render_opt (or_null (snd health))) in
  (Ping.reachable r = true <-> state = "running" /\ h = "healthy")
  /\ (Ping.status r = "unreachable"
      <-> state = "exited" \/ state = "dead" \/ state = "created")
  /\ Ping.protocol r = None /\ serviceType r = "service".
Proof.
  intros Hint Hcid H. cbv zeta. unfold ping in H.
  destruct (Api.missing (host_ip q) || Api.missing (host_port q));
    [discriminate|].
  destruct (parseInt (default "" (host_port q))) as [port|]; [|discriminate].
  destruct ((port <=? 0) || (65535 <? port)); [discriminate|].
  rewrite Hint, Hcid in H. cbn [andb] in H.
  destruct (truthy_opt truthy_str (server_id q)
            && negb (str_eq (server_id q) "local")).
  - destruct (peer_url env (default "" (server_id q))) as [row|];
      [|discriminate].
    destruct (negb (truthy_opt truthy_str row)); [discriminate|].
    destruct (proxy env _ _) as [[st body]|]; discriminate.
  - pose proof (container_verdict_cases
                  (container_health env (default "" (container_id q))))
      as Hc. cbv zeta in Hc.
    destruct (container_verdict _) as [[color status] title].
    injection H as <-.
    cbn [Ping.status Ping.reachable Ping.protocol serviceType].
    destruct Hc as (Hin & Hgreen & Hred).
    split; [|split; [|split; reflexivity]].
    + rewrite <- Hgreen. apply String.eqb_eq.
    + rewrite <- Hred.
      destruct Hin as [E|[E|[E|[E|[]]]]]; injection E as <- <-;
        split; intro; first [discriminate | reflexivity].
Qed.

Definition inside (container port : string) : Query :=
  mkQuery (Some "0.0.0.0") (Some port) None None (Some "true")
    (Some container) None None None.

Lemma ping_container_health_witness :
  (true = true <-> "running" = "running" /\ "healthy" = "healthy")
  /\ ("reachable" = "unreachable"
      <-> "running" = "exited" \/ "running" = "dead"
          \/ "running" = "created")
  /\ @None string = None /\ "service" = "service".
Proof.
  exact (ping_container_health lone_host (inside "4f1d" "5432")
           (mkPing true "reachable" "green" "Container healthy" None "service"
              "PostgreSQL"
              (Some "Internal port status based on container health"))
           eq_refl eq_refl eq_refl).
Defined.

Lemma num_to_string_truthy (n : Z) : truthy_str (num_to_string n) = true.
Proof.
  pose proof (parseInt_num_to_string n) as H.
  destruct (num_to_string n); [discriminate H | reflexivity].
Qed.

(** X9: the port of a ping is accepted exactly when it lies in 1..65535.
    For a query that names a host and gives the port as the decimal text of
    a number [n], the answer is the 400 [Invalid host_port] if and only if
    [n] is below 1 or above 65535; no later stage gives that answer. *)
Theorem ping_port_range (env : Env) (q : Query) (n : Z) :
  truthy_opt truthy_str (host_ip q) = true ->
  host_port q = Some (num_to_string n) ->
  (ping env q = Rejected 400 "Invalid host_port" <-> n <= 0 \/ 65535 < n).
Proof.
  intros Hip Hport. unfold ping, Api.missing. rewrite Hip, Hport.
  change (default "" (Some (num_to_string n))) with (num_to_string n).
  cbn [truthy_opt negb orb]. rewrite num_to_string_truthy.
  cbn [negb]. rewrite parseInt_num_to_string.
  destruct (Z.leb_spec n 0); [cbn [orb]; split; [lia | reflexivity]|].
  destruct (Z.ltb_spec 65535 n); [cbn [orb]; split; [lia | reflexivity]|].
  cbn [orb]. split; [|lia]. intros Hrej. exfalso.
  destruct (str_eq (internal q) "true"
            && truthy_opt truthy_str (container_id q)).
  - destruct (truthy_opt truthy_str (server_id q)
              && negb (str_eq (server_id q) "local")).
    + destruct (peer_url env (default "" (server_id q))) as [row|];
        [|discriminate].
      destruct (negb (truthy_opt truthy_str row)); [discriminate|].
      destruct (proxy env _ _) as [[st body]|]; discriminate.
    + destruct (container_verdict _) as [[color status] title].
      discriminate.
  - destruct (String.eqb (Classifier.type (detectServiceType n (owner q)))
                "system" || str_eq (source q) "system"); discriminate.
Qed.

Lemma ping_port_range_witness :
  ping lone_host (ask "10.0.0.5" "65536") = Rejected 400 "Invalid host_port"
  <-> 65536 <= 0 \/ 65535 < 65536.
Proof.
  exact (ping_port_range lone_host (ask "10.0.0.5" "65536") 65536
           eq_refl eq_refl).
Defined.

End PingProps.

(** ** The reduction of [GET /api/ports]: keys and order *)

Section AggregatorMore.
Import JS Aggregator.

(** The first observation of each key, in the order of first appearance;
    [seen] holds the keys met so far. *)
Fixpoint first_seen (seen : list string) (l : list PortObservation)
  : list PortObservation :=
  match l with
  | [] => []
  | e :: r =>
      if existsb (String.eqb (key_of e)) seen then first_seen seen r
      else e :: first_seen (seen ++ [key_of e]) r
  end.

Lemma acc_get_seen (acc : list (string * Group)) (key : string) :
  present (acc_get acc key) = existsb (String.eqb key) (List.map fst acc).
Proof.
  induction acc as [|[k g] acc IH]; [reflexivity|]. cbn.
  rewrite (String.eqb_sym key k). destruct (String.eqb k key); [reflexivity|].
  apply IH.
Qed.

Lemma acc_modify_entries (e : PortObservation) (acc : list (string * Group))
  (key : string) :
  List.map (fun kg => entry (snd kg)) (acc_modify (merge e) acc key)
  = List.map (fun kg => entry (snd kg)) acc.
Proof.
  induction acc as [|[k g] acc IH]; [reflexivity|]. cbn.
  destruct (String.eqb k key); cbn; [reflexivity|]. now rewrite IH.
Qed.

Lemma fold_step_entries (l : list PortObservation)
  (acc : list (string * Group)) :
  List.map (fun kg => entry (snd kg)) (fold_left step l acc)
  = List.map (fun kg => entry (snd kg)) acc
    ++ first_seen (List.map fst acc) l.
Proof.
  revert acc. induction l as [|e l IH]; intros acc; cbn [fold_left first_seen].
  - now rewrite app_nil_r.
  - rewrite IH. unfold step. rewrite <- acc_get_seen.
    destruct (acc_get acc (key_of e)) as [g|]; cbn [present].
    + now rewrite acc_modify_keys, acc_modify_entries.
    + rewrite !List.map_app. cbn [List.map fst snd entry].
      now rewrite <- app_assoc.
Qed.

(** X10: the payload of [GET /api/ports] has one entry for each key
    [host_ip:host_port:protocol] among the kept observations, in the order
    in which the keys first appear, and the fields an entry inherits are
    those of the first kept observation of its key: later observations only
    add to [owners] and [pids]. *)
Theorem aggregate_keeps_first_of_each_key (entries : list PortObservation) :
  List.map (fun p => entry (group p)) (aggregate entries)
  = first_seen [] (List.filter keep entries).
Proof.
  unfold aggregate, normalized. rewrite List.map_map. cbn [group].
  now rewrite fold_step_entries.
Qed.

(** X11: no two entries of the payload share a key, and every kept
    observation is represented by the entry of its key. *)
Theorem aggregate_one_entry_per_key (entries : list PortObservation) :
  NoDup (List.map (fun p => key_of (entry (group p))) (aggregate entries))
  /\ forall e, e ∈ entries -> keep e = true ->
       exists p, p ∈ aggregate entries
                 /\ key_of (entry (group p)) = key_of e.
Proof.
  destruct (normalized_inv entries) as (Hnd & Hcov & Hgrp).
  assert (Hkeys : List.map (fun p => key_of (entry (group p)))
                    (aggregate entries)
                  = List.map fst (normalized entries)).
  { unfold aggregate. rewrite List.map_map. cbn [group].
    apply List.map_ext_in. intros [k g] Hin. cbn [fst snd].
    apply list_elem_of_In in Hin. now destruct (Hgrp k g Hin). }
  split; [now rewrite Hkeys|].
  intros e He Hk.
  assert (Hin : key_of e ∈ List.map fst (normalized entries)).
  { apply Hcov, kept_elem. now split. }
  apply list_elem_of_In, in_map_iff in Hin as ([k g] & Hfst & Hin).
  cbn [fst] in Hfst. subst k.
  exists (mkAgg g (join ", " (owners g))). split.
  - apply list_elem_of_In. unfold aggregate. apply in_map_iff.
    exists (key_of e, g). split; [reflexivity | assumption].
  - cbn [group]. apply list_elem_of_In in Hin. now destruct (Hgrp _ g Hin).
Qed.

End AggregatorMore.

(** ** The enrichment of a local scan *)


Section SelectLemmas.
Import JS Store.
Context {R : Type} (key : R -> Key).

Lemma select_get_app (rows : list R) (r : R) (q : Key) :
  select_get key (rows ++ [r]) q
  = match select_get key rows q with
    | Some x => Some x
    | None => if key_eqb (key r) q then Some r else None
    end.
Proof.
  unfold select_get. induction rows as [|x rows IH]; cbn; [reflexivity|].
  destruct (key_eqb (key x) q); [reflexivity | apply IH].
Qed.

Lemma select_get_delete (rows : list R) (q q' : Key) :
  select_get key (fst (delete_where key rows q)) q'
  = if key_eqb q q' then None else select_get key rows q'.
Proof.
  unfold select_get, delete_where. cbn [fst].
  induction rows as [|x rows IH]; cbn; [now destruct (key_eqb q q')|].
  destruct (key_eqb (key x) q) eqn:E; cbn [negb].
  - apply key_eqb_eq in E. rewrite E.
    destruct (key_eqb q q'); [apply IH | apply IH].
  - cbn. destruct (key_eqb (key x) q') eqn:E'; [|apply IH].
    apply key_eqb_eq in E'. rewrite <- E'.
    destruct (key_eqb q (key x)) eqn:E2; [|reflexivity].
    apply key_eqb_eq in E2. rewrite E2, key_eqb_refl in E. discriminate.
Qed.

Lemma select_get_update (f : R -> R) (rows : list R) (q q' : Key) :
  (forall r, key (f r) = key r) ->
  select_get key (update_where key f rows q) q'
  = if key_eqb q q' then option_map f (select_get key rows q')
    else select_get key rows q'.
Proof.
  intros Hf. unfold select_get, update_where.
  induction rows as [|x rows IH]; cbn; [now destruct (key_eqb q q')|].
  destruct (key_eqb (key x) q) eqn:E.
  - rewrite Hf. apply key_eqb_eq in E. rewrite E.
    destruct (key_eqb q q'); [reflexivity | apply IH].
  - destruct (key_eqb (key x) q') eqn:E'; [|apply IH].
    apply key_eqb_eq in E'. rewrite <- E'.
    destruct (key_eqb q (key x)) eqn:E2; [|reflexivity].
    apply key_eqb_eq in E2. rewrite E2, key_eqb_refl in E. discriminate.
Qed.

End SelectLemmas.

Section ScanProps.
Import JS Store Api Scan.

(** X12: the ignore switch is idempotent.  Sending the same request to
    [POST /api/ignores] a second time leaves the store as the first run left
    it and is answered as the first was, whether the request is refused,
    sets the flag, clears it, or fails on the foreign key. *)
Theorem post_ignores_idempotent (b : Req.t) (w : World) :
  post_ignores b (fst (post_ignores b w)) = post_ignores b w.
Proof.
  destruct (validateIgnoreInput b) eqn:Hval.
  - unfold post_ignores. now rewrite Hval.
  - rewrite (post_ignores_run b (fst (post_ignores b w)) Hval).
    rewrite (post_ignores_run b w Hval). cbv zeta.
    set (q := bound_key (Req.server_id b) b).
    destruct (truthy_bool (Req.ignored b));
      destruct (select_get ignore_key (ignores (db w)) q) as [r|] eqn:Hsel;
      cbn [fst db ignores set_ignores]; try rewrite Hsel; try reflexivity.
    + destruct (fk_ok (db w) q) eqn:Hfk; cbn [fst db ignores set_ignores].
      * rewrite select_get_app, Hsel. cbn [ignore_key].
        now rewrite key_eqb_refl.
      * now rewrite Hsel, Hfk.
    + now rewrite select_get_delete, key_eqb_refl.
Qed.

(** X13: a local scan shows the note last saved.  After [POST /api/notes]
    has accepted a request, the scan gives the port of that identity the
    trimmed text of the request, or [null] when the trimmed text is empty;
    the note it gives to a port of another identity, and the [ignored] flag
    of every port, are as before. *)
Theorem scan_shows_saved_note (b : Req.t) (w : World) (p : Port) :
  validateNoteInput b (db w) = None ->
  let d' := db (fst (post_notes b w)) in
  (local_key p = bound_key (Req.server_id b) b ->
   Scan.note (enrich d' p)
   = if String.eqb (noteTrimmed b) "" then None else Some (noteTrimmed b))
  /\ (local_key p <> bound_key (Req.server_id b) b ->
      Scan.note (enrich d' p) = Scan.note (enrich (db w) p))
  /\ ignored (enrich d' p) = ignored (enrich (db w) p).
Proof.
  intros Hval. cbv zeta. rewrite (post_notes_run b w Hval). cbv zeta.
  set (q := bound_key (Req.server_id b) b). unfold enrich.
  cbn [Scan.note ignored].
  destruct (select_get note_key (notes (db w)) q) as [r|] eqn:Hsel;
    destruct (String.eqb (noteTrimmed b) "") eqn:Hemp;
    cbn [fst db notes ignores set_notes].
  - rewrite select_get_delete. repeat split.
    + intros ->. now rewrite key_eqb_refl.
    + intros Hne. rewrite key_eqb_neq; [reflexivity | congruence].
  - rewrite select_get_update by reflexivity. repeat split.
    + intros ->. now rewrite key_eqb_refl, Hsel.
    + intros Hne. rewrite key_eqb_neq; [reflexivity | congruence].
  - repeat split. intros ->. now rewrite Hsel.
  - rewrite select_get_app. cbn [note_key]. repeat split.
    + intros ->. now rewrite Hsel, key_eqb_refl.
    + intros Hne. rewrite (key_eqb_neq q); [|congruence].
      now destruct (select_get note_key (notes (db w)) (local_key p)).
Qed.

Definition seen_8080 : Port := mkPort "0.0.0.0" 8080 "tcp" None false.

Lemma scan_shows_saved_note_witness :
  Scan.note (enrich (db (fst (post_notes padded_note fresh_world))) seen_8080)
  = Some "hi".
Proof.
  exact (proj1 (scan_shows_saved_note padded_note fresh_world seen_8080
                  eq_refl) eq_refl).
Defined.

(** X14: a local scan shows the ignore flag last set.  After
    [POST /api/ignores] has answered 200, the scan gives the port of that
    identity the flag of the request; the flag of a port of another
    identity, and the note of every port, are as before. *)
Theorem scan_shows_ignore_flag (b : Req.t) (w : World) (p : Port) :
  code (snd (post_ignores b w)) = 200 ->
  let d' := db (fst (post_ignores b w)) in
  (local_key p = bound_key (Req.server_id b) b ->
   ignored (enrich d' p) = truthy_bool (Req.ignored b))
  /\ (local_key p <> bound_key (Req.server_id b) b ->
      ignored (enrich d' p) = ignored (enrich (db w) p))
  /\ Scan.note (enrich d' p) = Scan.note (enrich (db w) p).
Proof.
  destruct (validateIgnoreInput b) as [r|] eqn:Hval.
  { unfold post_ignores. rewrite Hval. cbn [snd fst]. intros Hc. exfalso.
    revert Hval Hc. unfold validateIgnoreInput.
    destruct (validateIdentity b) as [r0|] eqn:Hid.
    - intros [= <-]. now rewrite (validateIdentity_code _ _ Hid).
    - destruct (negb (present (Req.ignored b))); [now intros [= <-]|].
      intros Hc. now rewrite (validateContainer_code _ _ Hc). }
  cbv zeta. rewrite (post_ignores_run b w Hval). cbv zeta.
  set (q := bound_key (Req.server_id b) b). unfold enrich.
  cbn [Scan.note ignored].
  destruct (truthy_bool (Req.ignored b));
    destruct (select_get ignore_key (ignores (db w)) q) as [r|] eqn:Hsel;
    cbn [fst snd db notes ignores set_ignores].
  - intros _. repeat split. intros ->. now rewrite Hsel.
  - destruct (fk_ok (db w) q); cbn [fst snd db notes ignores set_ignores code];
      [intros _ | discriminate].
    rewrite select_get_app. cbn [ignore_key]. repeat split.
    + intros ->. now rewrite Hsel, key_eqb_refl.
    + intros Hne. rewrite (key_eqb_neq q); [|congruence].
      now destruct (select_get ignore_key (ignores (db w)) (local_key p)).
  - intros _. rewrite select_get_delete. repeat split.
    + intros ->. now rewrite key_eqb_refl.
    + intros Hne. rewrite key_eqb_neq; [reflexivity | congruence].
  - intros _. repeat split. intros ->. now rewrite Hsel.
Qed.

Definition hide_8080 : Req.t :=
  Req.mk None (Some "local") (Some "0.0.0.0") (Some 8080) (Some "tcp")
    None (Some true) None None None None.

Lemma scan_shows_ignore_flag_witness :
  ignored (enrich (db (fst (post_ignores hide_8080 fresh_world))) seen_8080)
  = true.
Proof.
  exact (proj1 (scan_shows_ignore_flag hide_8080 fresh_world seen_8080
                  eq_refl) eq_refl).
Defined.

End ScanProps.

(** ** Custom names: what a DELETE finds, and the validation of a batch *)

Section NameMore.
Import JS Store Api.
Local Open Scope store_scope.

Lemma delete_where_count {R : Type} (key : R -> Key) (rows : list R)
  (q : Key) :
  0 <= snd (delete_where key rows q)
  /\ (snd (delete_where key rows q) = 0 <-> forall r, r ∈ rows -> key r <> q)
  /\ (snd (delete_where key rows q) = 0 -> fst (delete_where key rows q) = rows).
Proof.
  unfold delete_where. cbn [fst snd]. split; [lia|].
  induction rows as [|x rows [IH1 IH2]]; cbn [List.filter].
  - split; [|reflexivity]. split; [|reflexivity].
    intros _ r Hin. now apply elem_of_nil in Hin.
  - destruct (key_eqb (key x) q) eqn:E; cbn [negb length].
    + split; [|lia]. split; [lia|]. intros H. exfalso.
      apply (H x); [apply elem_of_cons; now left | now apply key_eqb_eq].
    + split.
      * rewrite IH1. split.
        -- intros H r Hin. apply elem_of_cons in Hin as [-> | Hin];
             [|now apply H].
           intros Heq. rewrite Heq, key_eqb_refl in E. discriminate.
        -- intros H r Hin. apply H. apply elem_of_cons. now right.
      * intros H. now rewrite IH2.
Qed.

(** The keys a DELETE may address: the identity of the request, the same
    identity without container when the request names one, and the sibling
    wildcard address. *)
Definition delete_targets (b : Req.t) : list Key :=
  let q := bound_key (Req.server_id b) b in
  q
  :: (if truthy_opt truthy_str (Req.container_id b)
      then [mkKey (server_id q) (host_ip q) (host_port q) (protocol q) None
              (internal q)]
      else [])
  ++ (if wildcard_target b "0.0.0.0"
      then [sibling_key (Req.server_id b) b "::"]
      else if wildcard_target b "::"
      then [sibling_key (Req.server_id b) b "0.0.0.0"]
      else []).

Lemma world_eta (w : World) (d : DB) :
  d = db w -> mkWorld d (cache w) (clock w) = w.
Proof. intros ->. now destruct w. Qed.

Lemma set_names_same (d : DB) : set_names d (custom_service_names d) = d.
Proof. now destruct d. Qed.

Lemma names_delete_nothing (k : Key) (w : World) :
  snd (delete_where name_key (custom_service_names (db w)) k) = 0 ->
  names_delete k w = (w, Return 0).
Proof.
  intros H. rewrite names_delete_run, H.
  destruct (delete_where_count name_key (custom_service_names (db w)) k)
    as (_ & _ & Hsame).
  rewrite (Hsame H), set_names_same. f_equal. now apply world_eta.
Qed.

(** The last DELETE statement of the handler, on a key [k], when the
    statement before it has found nothing under [q]. *)
Lemma last_delete (w : World) (q k : Key) (targets : list Key)
  (run : World * Response) :
  (forall r, r ∈ custom_service_names (db w) -> name_key r <> q) ->
  targets = [q; k] ->
  run = (if 0 <? snd (delete_where name_key (custom_service_names (db w)) k)
         then
           (mkWorld
              (set_names (db w)
                 (fst (delete_where name_key (custom_service_names (db w)) k)))
              (Cache.delete (cache w) "endpoint:ports:local") (clock w),
            mkResp 200 (Saved "Custom service name deleted successfully"))
         else
           (w, mkResp 404 (Failed "Custom service name not found" None None)))
  ->
  (code (snd run) = 200 \/ code (snd run) = 404)
  /\ (code (snd run) = 404
      <-> forall r k', r ∈ custom_service_names (db w) -> k' ∈ targets ->
            name_key r <> k')
  /\ (code (snd run) = 404 -> fst run = w).
Proof.
  intros Hq -> ->.
  destruct (delete_where_count name_key (custom_service_names (db w)) k)
    as (Hk0 & Hk1 & Hk2).
  assert (Hall : (forall r, r ∈ custom_service_names (db w) -> name_key r <> k)
                 <-> (forall r k', r ∈ custom_service_names (db w) ->
                        k' ∈ [q; k] -> name_key r <> k')).
  { split.
    - intros H r k' Hr Hk'.
      apply elem_of_cons in Hk' as [-> | Hk']; [now apply Hq|].
      apply list_elem_of_singleton in Hk' as ->. now apply H.
    - intros H r Hr. apply (H r k Hr).
      apply elem_of_cons. right. now apply list_elem_of_singleton. }
  rewrite <- Hall.
  destruct (Z.ltb_spec 0
              (snd (delete_where name_key (custom_service_names (db w)) k)));
    cbn [fst snd code].
  - split; [now left|]. split; [|discriminate]. split; [discriminate|].
    intros H'. apply Hk1 in H'. lia.
  - split; [now right|]. split; [|reflexivity]. split; [|reflexivity].
    intros _. apply Hk1. lia.
Qed.

Ltac finish_delete :=
  match goal with
  | |- context [names_delete ?k ?w] =>
      let E := fresh "E" in
      destruct (Z.eq_dec
                  (snd (delete_where name_key (custom_service_names (db w)) k))
                  0) as [E|E];
      [rewrite (names_delete_nothing k w E), E; reflexivity
      |rewrite names_delete_run; unfold ret, cache_delete;
       rewrite ?Z.add_0_l, ?Z.add_0_r;
       destruct (Z.ltb_spec 0
                   (snd (delete_where name_key
                           (custom_service_names (db w)) k)));
       [reflexivity
       |pose proof (proj1 (delete_where_count name_key
                             (custom_service_names (db w)) k)); lia]]
  end.

(** X15: [DELETE /api/custom-service-names] on a valid request answers 200
    or 404, and 404 exactly when the table holds no row under any key the
    request may address; the store and the cache are then as they were. *)
Theorem delete_custom_service_names_not_found (b : Req.t) (w : World) :
  validateCustomServiceNameDeleteInput b = None ->
  let run := delete_custom_service_names b w in
  (code (snd run) = 200 \/ code (snd run) = 404)
  /\ (code (snd run) = 404
      <-> forall r k, r ∈ custom_service_names (db w) ->
            k ∈ delete_targets b -> name_key r <> k)
  /\ (code (snd run) = 404 -> fst run = w).
Proof.
  intros Hval. cbv zeta.
  set (q := bound_key (Req.server_id b) b).
  set (rows := custom_service_names (db w)).
  destruct (delete_where_count name_key rows q) as (Hc0 & Hc1 & Hc2).
  destruct (Z.eq_dec (snd (delete_where name_key rows q)) 0) as [Ez|Ez].
  - assert (Hq : forall r, r ∈ rows -> name_key r <> q) by now apply Hc1.
    assert (Hrun : delete_custom_service_names b w
              = respond
                  (legacy <-
                     (if truthy_opt truthy_str (Req.container_id b)
                      then names_delete
                             (mkKey (server_id q) (host_ip q) (host_port q)
                                (protocol q) None (internal q))
                      else ret 0) ;;
                   variant <-
                     (if wildcard_target b "0.0.0.0"
                      then names_delete (sibling_key (Req.server_id b) b "::")
                      else if wildcard_target b "::"
                      then names_delete
                             (sibling_key (Req.server_id b) b "0.0.0.0")
                      else ret 0) ;;
                   if 0 <? 0 + legacy + variant then
                     cache_delete "endpoint:ports:local" ;;;
                     ret (mkResp 200
                            (Saved "Custom service name deleted successfully"))
                   else
                     ret (mkResp 404
                            (Failed "Custom service name not found" None None)))
                  (db_failed "Unable to delete custom service name") w).
    { unfold delete_custom_service_names. rewrite Hval. fold q.
      unfold respond. unfold bind at 1.
      now rewrite (names_delete_nothing q w Ez). }
    destruct (truthy_opt truthy_str (Req.container_id b)) eqn:Htc.
    + assert (Hw0 : forall ip, wildcard_target b ip = false).
      { intros ip. unfold wildcard_target. now rewrite Htc. }
      apply (last_delete w q
               (mkKey (server_id q) (host_ip q) (host_port q) (protocol q)
                  None (internal q))); [assumption| |].
      * unfold delete_targets. fold q. now rewrite Htc, !Hw0.
      * rewrite Hrun, !Hw0. unfold respond, bind. finish_delete.
    + destruct (wildcard_target b "0.0.0.0") eqn:Hw0;
        [|destruct (wildcard_target b "::") eqn:Hw1].
      * apply (last_delete w q (sibling_key (Req.server_id b) b "::"));
          [assumption| |].
        -- unfold delete_targets. fold q. now rewrite Htc, Hw0.
        -- rewrite Hrun. unfold respond, bind. unfold ret at 1.
           finish_delete.
      * apply (last_delete w q (sibling_key (Req.server_id b) b "0.0.0.0"));
          [assumption| |].
        -- unfold delete_targets. fold q. now rewrite Htc, Hw0, Hw1.
        -- rewrite Hrun. unfold respond, bind. unfold ret at 1.
           finish_delete.
      * rewrite Hrun. unfold delete_targets. fold q. rewrite Htc, Hw0, Hw1.
        unfold respond, bind, ret. cbn [fst snd code app].
        split; [now right|]. split; [|reflexivity]. split; [|reflexivity].
        intros _ r k Hr Hk. apply list_elem_of_singleton in Hk as ->.
        now apply Hq.
  - assert (Hpos : 0 < snd (delete_where name_key rows q)) by lia.
    assert (Hcode : code (snd (delete_custom_service_names b w)) = 200).
    { unfold delete_custom_service_names. rewrite Hval. fold q.
      unfold respond. unfold bind at 1. rewrite names_delete_run. fold rows.
      apply Z.eqb_neq in Ez. rewrite Ez. cbn [andb]. unfold bind at 1.
      unfold ret at 1.
      set (w1 := mkWorld _ _ _). unfold bind at 1.
      assert (Hv : forall k, exists w2 v, names_delete k w1 = (w2, Return v)
                                          /\ 0 <= v).
      { intros k. rewrite names_delete_run. eexists _, _.
        split; [reflexivity|]. apply delete_where_count. }
      assert (Hr : exists w2 v,
                 (if wildcard_target b "0.0.0.0"
                  then names_delete (sibling_key (Req.server_id b) b "::")
                  else if wildcard_target b "::"
                  then names_delete (sibling_key (Req.server_id b) b "0.0.0.0")
                  else ret 0) w1 = (w2, Return v) /\ 0 <= v).
      { destruct (wildcard_target b "0.0.0.0"); [apply Hv|].
        destruct (wildcard_target b "::"); [apply Hv|].
        exists w1, 0. split; [reflexivity | lia]. }
      destruct Hr as (w2 & v & -> & Hv0).
      destruct (Z.ltb_spec 0 (snd (delete_where name_key rows q) + 0 + v));
        [|lia].
      reflexivity. }
    rewrite Hcode. split; [now left|]. split; [|discriminate].
    split; [discriminate|]. intros H. exfalso. apply Ez, Hc1.
    intros r Hr. apply (H r q Hr). unfold delete_targets. fold q.
    apply elem_of_cons. now left.
Qed.

Lemma validate_name_op_index (i j : Z) (op : Req.t) :
  validate_name_op i op = None -> validate_name_op j op = None.
Proof.
  unfold validate_name_op.
  repeat match goal with
         | |- (if ?c then _ else _) = None -> _ =>
             destruct c; [discriminate|]
         end.
  reflexivity.
Qed.

Lemma validate_name_ops_first (ops1 ops2 : list Req.t) (op : Req.t) (i : Z) :
  (forall o, o ∈ ops1 -> validate_name_op 0 o = None) ->
  validate_name_ops i (ops1 ++ op :: ops2)
  = match validate_name_op (i + Z.of_nat (length ops1)) op with
    | Some r => Some r
    | None => validate_name_ops (i + Z.of_nat (length ops1) + 1) ops2
    end.
Proof.
  revert i. induction ops1 as [|o ops1 IH]; intros i Hall.
  - cbn [app length validate_name_ops Z.of_nat]. now rewrite Z.add_0_r.
  - cbn [app validate_name_ops].
    rewrite (validate_name_op_index 0 i o)
      by (apply Hall, elem_of_cons; now left).
    rewrite IH by (intros o' Ho'; apply Hall, elem_of_cons; now right).
    replace (i + 1 + Z.of_nat (length ops1))
      with (i + Z.of_nat (length (o :: ops1))) by (cbn [length]; lia).
    reflexivity.
Qed.

(** X16: the batch of custom names is validated as a whole before any
    statement runs.  When the operations before one are valid and that one is
    not, the answer is the 400 that names its index, and nothing is written:
    the store and the cache are as they were, whatever follows it in the
    batch. *)
Theorem name_batch_rejects_at_first_invalid (sid : option string)
  (ops1 ops2 : list Req.t) (op : Req.t) (r : Response) (w : World) :
  missing sid || blank sid = false ->
  (forall o, o ∈ ops1 -> validate_name_op 0 o = None) ->
  validate_name_op (Z.of_nat (length ops1)) op = Some r ->
  post_custom_service_names_batch sid (Some (ops1 ++ op :: ops2)) w = (w, r)
  /\ code r = 400.
Proof.
  intros Hsid Hall Hop.
  assert (Hv : validate_name_ops 0 (ops1 ++ op :: ops2) = Some r).
  { rewrite validate_name_ops_first by assumption. rewrite Z.add_0_l. now rewrite Hop. }
  split; [|now apply (validate_name_ops_code _ _ _ Hv)].
  unfold post_custom_service_names_batch. rewrite Hsid, Hv.
  now destruct ops1.
Qed.


Definition nameless_op : Req.t :=
  Req.mk (Some "set") None (Some "0.0.0.0") (Some 8080) (Some "tcp")
    None None None None None None.

Definition named_op : Req.t :=
  Req.mk (Some "set") None (Some "0.0.0.0") (Some 9090) (Some "tcp")
    None None (Some "Proxy") None None None.

Lemma name_batch_rejects_at_first_invalid_witness :
  post_custom_service_names_batch (Some "local")
    (Some ([named_op] ++ nameless_op :: [named_op])) fresh_world
  = (fresh_world,
     bad_request (at_index 1 ("custom_name is required for " +:+ dq +:+ "set"
                              +:+ dq +:+ " action")))
  /\ code (bad_request
             (at_index 1 ("custom_name is required for " +:+ dq +:+ "set"
                          +:+ dq +:+ " action"))) = 400.
Proof.
  apply (name_batch_rejects_at_first_invalid (Some "local") [named_op]
           [named_op] nameless_op _ fresh_world eq_refl).
  - intros o Ho. apply list_elem_of_singleton in Ho as ->. reflexivity.
  - reflexivity.
Defined.

Definition unnamed_8080 : Req.t :=
  Req.mk None (Some "local") (Some "10.0.0.5") (Some 8080) (Some "tcp")
    None None None None None None.

Lemma delete_custom_service_names_not_found_witness :
  code (snd (delete_custom_service_names unnamed_8080 fresh_world)) = 404
  /\ fst (delete_custom_service_names unnamed_8080 fresh_world) = fresh_world.
Proof.
  destruct (delete_custom_service_names_not_found unnamed_8080 fresh_world
              eq_refl) as (_ & H404 & Hsame).
  assert (Hc : code (snd (delete_custom_service_names unnamed_8080
                            fresh_world)) = 404).
  { apply H404. intros r k Hr. now apply elem_of_nil in Hr. }
  split; [exact Hc | exact (Hsame Hc)].
Defined.

End NameMore.

(** ** Accounts: the recovery key, setup and change-password *)


Section RecoveryProps.
Import JS Auth Recovery.

Lemma append_truthy (a b : string) :
  truthy_str b = true -> truthy_str (a +:+ b) = true.
Proof. destruct a; [trivial | reflexivity]. Qed.

Lemma buildFriendlyKey_truthy (d : Draw) : truthy_str (buildFriendlyKey d) = true.
Proof.
  unfold buildFriendlyKey. apply append_truthy, append_truthy. reflexivity.
Qed.

(** X17: the life of a recovery key.  A key generated at [t0] in recovery
    mode is accepted exactly for the key itself and up to fifteen minutes
    after [t0]; once marked as used it is never accepted again; and once a
    validation has found it expired it is never accepted again, whatever the
    clock says later. *)
Theorem recovery_key_lifecycle (r : RecoveryManager) (t0 : Z) (d : Draw) :
  let key := buildFriendlyKey d in
  let r1 := snd (generateKey true r t0 d) in
  fst (generateKey true r t0 d) = Some key
  /\ (forall now k,
        fst (validateKey r1 now k)
        = String.eqb key k && (now <=? t0 + 900000))
  /\ (forall now k, fst (validateKey (markAsUsed r1) now k) = false)
  /\ (forall late k0, t0 + 900000 < late ->
        forall now k,
          fst (validateKey (snd (validateKey r1 late k0)) now k) = false).
Proof.
  cbv zeta. unfold generateKey. cbn [negb fst snd].
  split; [reflexivity|]. unfold validateKey, markAsUsed.
  cbn [recoveryKey used expiresAt truthy_opt str_eq].
  rewrite buildFriendlyKey_truthy. cbn [negb orb].
  change (default 0 (Some (t0 + 15 * 60 * 1000))) with (t0 + 900000).
  split; [|split].
  - intros now k. destruct (Z.ltb_spec (t0 + 900000) now);
      destruct (Z.leb_spec now (t0 + 900000)); try lia; cbn [fst].
    + now rewrite andb_false_r.
    + now rewrite andb_true_r.
  - reflexivity.
  - intros late k0 Hlate now k.
    destruct (Z.ltb_spec (t0 + 900000) late); [|lia].
    unfold invalidate. cbn [recoveryKey truthy_opt snd].
    rewrite buildFriendlyKey_truthy. reflexivity.
Qed.

End RecoveryProps.

Section RecoveryLogin.
Import JS Auth.
Variable bcrypt_compare : string -> string -> bool.

Lemma validateKey_true (r : RecoveryManager) (now : Z) (k : string) :
  fst (validateKey r now k) = true ->
  snd (validateKey r now k) = r /\ recoveryKey r = Some k /\ used r = false
  /\ truthy_str k = true.
Proof.
  unfold validateKey.
  destruct (recoveryKey r) as [key|] eqn:Hk; cbn [truthy_opt negb orb];
    [|discriminate].
  destruct (truthy_str key) eqn:Ht; cbn [negb orb]; [|discriminate].
  destruct (used r); [discriminate|].
  destruct (default 0 (expiresAt r) <? now); [discriminate|].
  cbn [fst snd str_eq]. intros E. apply String.eqb_eq in E. subst key.
  repeat split; assumption.
Qed.

Lemma validateKey_used (r : RecoveryManager) (now : Z) (k : string) :
  used r = true -> fst (validateKey r now k) = false.
Proof.
  intros H. unfold validateKey. rewrite H, orb_true_r. reflexivity.
Qed.

(** X18: a login with the recovery key takes the first account, whatever
    user name is given, without any password comparison, and spends the key:
    afterwards no input is accepted as a recovery key at any time, also when
    the session could not be opened and the answer is 500. *)
Theorem recovery_login_burns_key (s : Server) (un pw : string) (u : User)
  (rest : list User) :
  authEnabled s = true ->
  truthy_str un = true ->
  fst (validateKey (recovery s) (now s) pw) = true ->
  users s = u :: rest ->
  let run := login bcrypt_compare s (Some un) (Some pw) in
  let s' := fst (fst run) in
  let resp := snd (fst run) in
  (forall now' k, fst (validateKey (recovery s') now' k) = false)
  /\ users s' = users s
  /\ (resp = mkAuthResp 200 (LoggedIn (username u) true)
      \/ resp = mkAuthResp 500 (AuthError "Recovery failed"))
  /\ (Auth.code resp = 200 ->
      In (SessionSave (id u) (username u) true) (snd run))
  /\ (forall e, In e (snd run) ->
        match e with
        | BcryptCompare _ _ | QueryUser _ | UpdateLastLogin _ _ => False
        | _ => True
        end).
Proof.
  intros Hauth Hun Hkey Hu. cbv zeta.
  destruct (validateKey_true _ _ _ Hkey) as (Hr & _ & _ & Hpw).
  unfold login. rewrite Hauth, Hun, Hpw. cbn [negb orb].
  destruct (validateKey (recovery s) (now s) pw) as [isKey r] eqn:Hv.
  cbn [fst snd] in Hkey, Hr. subst isKey r.
  cbn [users set_recovery]. rewrite Hu.
  unfold open_session. cbn [regenerate_fails save_fails set_recovery].
  destruct (regenerate_fails s); [|destruct (save_fails s)];
    cbn [fst snd recovery users Auth.code].
  all: split; [intros now' k; now apply validateKey_used|].
  all: split; [assumption|].
  all: split; [tauto|].
  all: split; [try discriminate; intros _; cbn; tauto|].
  all: intros e He; cbn in He;
    repeat match type of He with
           | _ \/ _ => destruct He as [<- | He]
           | False => destruct He
           end; exact I.
Qed.

End RecoveryLogin.

Section LoginMore.
Import JS Auth.
Variable bcrypt_compare : string -> string -> bool.

(** What identifies an account and lets it in. *)
Definition credentials (u : User) : string * string * string :=
  (id u, username u, password_hash u).

Lemma touch_credentials (s : Server) (uid : string) :
  List.map credentials (users (touch s uid)) = List.map credentials (users s).
Proof.
  unfold touch. cbn [users]. rewrite List.map_map. apply List.map_ext.
  intros u. now destruct (String.eqb (id u) uid).
Qed.

(** X27: a login never rewrites credentials.  Whatever the request and the
    answer, the accounts afterwards are the accounts before with the same
    ids, names and password hashes; the only column that can move is
    [last_login], and it moves only for the account found under the trimmed
    user name, to the current time, after its password has verified. *)
Theorem login_never_rewrites_credentials (s : Server)
  (uname password : option string) :
  let s' := fst (fst (login bcrypt_compare s uname password)) in
  List.map credentials (users s') = List.map credentials (users s)
  /\ (users s' = users s
      \/ exists un pw u,
           uname = Some un /\ password = Some pw
           /\ List.find (fun x => String.eqb (username x) (trim un)) (users s)
              = Some u
           /\ bcrypt_compare pw (password_hash u) = true
           /\ users s'
              = List.map
                  (fun x => if String.eqb (id x) (id u)
                            then mkUser (id x) (username x) (password_hash x)
                                   (Some (now s))
                            else x) (users s)).
Proof.
  cbv zeta. unfold login.
  destruct (negb (authEnabled s)); [cbn; tauto|].
  destruct uname as [un|]; [|cbn; tauto].
  destruct password as [pw|]; [|cbn; tauto].
  destruct (negb (truthy_str un) || negb (truthy_str pw)); [cbn; tauto|].
  destruct (validateKey (recovery s) (now s) pw) as [isKey r].
  destruct isKey.
  - cbn [users set_recovery]. destruct (users s) as [|u l] eqn:Hu.
    + cbn [fst users set_recovery]. rewrite Hu. tauto.
    + destruct (open_session _ _ _ _) as [resp ev].
      cbn [fst users set_recovery]. rewrite Hu. tauto.
  - cbn [users set_recovery].
    destruct (List.find _ (users s)) as [u|] eqn:Hfind;
      [|cbn [fst users set_recovery]; tauto].
    destruct (bcrypt_compare pw (password_hash u)) eqn:Hcmp;
      [|cbn [fst users set_recovery]; tauto].
    destruct (open_session _ _ _ _) as [resp ev]. cbn [fst].
    split; [now rewrite touch_credentials|].
    right. exists un, pw, u. repeat split; assumption.
Qed.

End LoginMore.

Section AccountProps.
Import JS Auth Account.
Variable bcrypt_compare : string -> string -> bool.
Variable bcrypt_hash : string -> string.

(** X19: setup creates the first account and no other.  With an account in
    the table nothing is written and the answer is a 400; with an empty
    table either nothing is written, or the request was valid (a user name
    of at least 3 characters once trimmed, a password of at least 8) and the
    table holds exactly the new account, under the trimmed name and the hash
    of the password: this also when the session could not be opened and the
    answer is 500. *)
Theorem setup_creates_the_first_account_only (s : Server) (uuid : string)
  (uname password : option string) :
  let run := setup bcrypt_hash s uuid uname password in
  let s' := fst (fst run) in
  let resp := snd (fst run) in
  (users s <> [] -> s' = s /\ code resp = 400)
  /\ (users s = [] ->
      (s' = s /\ code resp = 400)
      \/ (exists un pw,
            uname = Some un /\ password = Some pw
            /\ 3 <= Z.of_nat (String.length (trim un))
            /\ 8 <= Z.of_nat (String.length pw)
            /\ users s' = [mkUser uuid (trim un) (bcrypt_hash pw)
                             (Some (now s))]
            /\ ((code resp = 200
                 /\ snd run = Some (mkSession (Some uuid) (Some (trim un))
                                      false))
                \/ (code resp = 500 /\ snd run = None)))).
Proof.
  cbv zeta. unfold setup.
  destruct (negb (authEnabled s)); [cbn; tauto|].
  destruct uname as [un|]; cbn [truthy_opt negb orb]; [|cbn; tauto].
  destruct (truthy_str un); cbn [negb orb]; [|cbn; tauto].
  destruct password as [pw|]; cbn [truthy_opt negb orb]; [|cbn; tauto].
  destruct (truthy_str pw); cbn [negb orb]; [|cbn; tauto].
  change (default "" (Some un)) with un. change (default "" (Some pw)) with pw.
  destruct (Z.ltb_spec (Z.of_nat (String.length (trim un))) 3);
    [cbn; tauto|].
  destruct (Z.ltb_spec (Z.of_nat (String.length pw)) 8); [cbn; tauto|].
  destruct (users s) as [|u0 l] eqn:Hu.
  - cbn [List.length Z.of_nat Z.ltb Z.compare app].
    split; [congruence|]. intros _. right. exists un, pw.
    destruct (regenerate_fails s); [|destruct (save_fails s)];
      cbn [fst snd users set_users code]; repeat split; try assumption;
      tauto.
  - cbn [List.length]. destruct (Z.ltb_spec 0 (Z.of_nat (S (length l))));
      [|lia].
    cbn [fst snd code]. split; [tauto | congruence].
Qed.

(** X20: the stored hash is replaced only under the guards of
    change-password.  Either the table of users is as it was, or the session
    names a user that exists, the new password has at least 8 characters,
    the session carries the flag set by a recovery login or the current
    password verifies against the stored hash, and exactly the rows of that
    user carry the hash of the new password; the answer is then 200, or 500
    when the session could not be saved, and the flag is cleared. *)
Theorem change_password_guards (s : Server) (session : option Session)
  (currentPassword newPassword : option string) :
  let run := change_password bcrypt_compare bcrypt_hash s session
               currentPassword newPassword in
  let s' := fst (fst run) in
  let resp := snd (fst run) in
  (s' = s /\ snd run = session /\ code resp <> 200)
  \/ (exists sess uid user pw,
        session = Some sess /\ userId sess = Some uid
        /\ newPassword = Some pw
        /\ 8 <= Z.of_nat (String.length pw)
        /\ List.find (fun u => String.eqb (id u) uid) (users s) = Some user
        /\ (requirePasswordChange sess = true
            \/ exists cur, currentPassword = Some cur
                 /\ bcrypt_compare cur (password_hash user) = true)
        /\ users s'
           = List.map
               (fun u => if String.eqb (id u) (id user)
                         then mkUser (id u) (username u) (bcrypt_hash pw)
                                (last_login u)
                         else u) (users s)
        /\ snd run = Some (mkSession (userId sess) (sessionUser sess) false)
        /\ (code resp = 200 \/ code resp = 500)).
Proof.
  cbv zeta. unfold change_password.
  destruct (negb (authEnabled s)); [left; cbn; repeat split; discriminate|].
  destruct session as [sess|]; [|left; cbn; repeat split; discriminate].
  destruct (userId sess) as [uid|] eqn:Huid; cbn [truthy_opt negb];
    [|left; cbn; repeat split; discriminate].
  destruct (truthy_str uid); cbn [negb];
    [|left; cbn; repeat split; discriminate].
  destruct newPassword as [pw|]; cbn [truthy_opt negb];
    [|left; cbn; repeat split; discriminate].
  destruct (truthy_str pw); cbn [negb];
    [|left; cbn; repeat split; discriminate].
  change (default "" (Some pw)) with pw.
  change (default "" (Some uid)) with uid.
  destruct (Z.ltb_spec (Z.of_nat (String.length pw)) 8);
    [left; cbn; repeat split; discriminate|].
  destruct (requirePasswordChange sess) eqn:Hflag; cbn [negb andb].
  - destruct (List.find _ (users s)) as [user|] eqn:Hfind;
      [|left; cbn; repeat split; discriminate].
    right. exists sess, uid, user, pw.
    destruct (save_fails s); cbn [fst snd users set_users code];
      repeat split; auto; now rewrite Huid.
  - destruct currentPassword as [cur|]; cbn [truthy_opt negb];
      [|left; cbn; repeat split; discriminate].
    destruct (truthy_str cur); cbn [negb];
      [|left; cbn; repeat split; discriminate].
    destruct (List.find _ (users s)) as [user|] eqn:Hfind;
      [|left; cbn; repeat split; discriminate].
    change (default "" (Some cur)) with cur.
    destruct (bcrypt_compare cur (password_hash user)) eqn:Hcmp; cbn [negb];
      [|left; cbn; repeat split; discriminate].
    right. exists sess, uid, user, pw.
    destruct (save_fails s); cbn [fst snd users set_users code];
      repeat split; eauto; now rewrite Huid.
Qed.

(** X21: the way back in after a lock-out.  A recovery login that opens its
    session saves it with [requirePasswordChange] set; with that session
    change-password asks for no current password, stores the hash of the new
    password (of at least 8 characters) for the account, answers 200 and
    clears the flag. *)
Theorem recovery_then_change_password (s : Server) (un key new : string)
  (u : User) (rest : list User) :
  authEnabled s = true ->
  truthy_str un = true ->
  fst (validateKey (recovery s) (now s) key) = true ->
  users s = u :: rest ->
  truthy_str (id u) = true ->
  regenerate_fails s = false -> save_fails s = false ->
  8 <= Z.of_nat (String.length new) ->
  let run1 := login bcrypt_compare s (Some un) (Some key) in
  let saved := mkSession (Some (id u)) (Some (username u)) true in
  let run2 := change_password bcrypt_compare bcrypt_hash (fst (fst run1))
                (Some saved) None (Some new) in
  snd (fst run1) = mkAuthResp 200 (LoggedIn (username u) true)
  /\ In (SessionSave (id u) (username u) true) (snd run1)
  /\ snd (fst run2) = mkResponse 200 PasswordChanged
  /\ snd run2 = Some (mkSession (Some (id u)) (Some (username u)) false)
  /\ hd_error (users (fst (fst run2)))
     = Some (mkUser (id u) (username u) (bcrypt_hash new) (last_login u)).
Proof.
  intros Hauth Hun Hkey Hu Hid Hreg Hsave Hlen. cbv zeta.
  destruct (validateKey_true _ _ _ Hkey) as (Hr & _ & _ & Hpw).
  assert (Hnew : truthy_str new = true).
  { destruct new; [cbn in Hlen; lia | reflexivity]. }
  unfold login. rewrite Hauth, Hun, Hpw. cbn [negb orb].
  destruct (validateKey (recovery s) (now s) key) as [isKey r] eqn:Hv.
  cbn [fst snd] in Hkey, Hr. subst isKey r.
  cbn [users set_recovery]. rewrite Hu.
  unfold open_session. cbn [regenerate_fails save_fails set_recovery].
  rewrite Hreg, Hsave. cbn [fst snd].
  split; [reflexivity|]. split; [cbn; tauto|].
  unfold change_password.
  cbn [authEnabled users save_fails userId requirePasswordChange sessionUser
       truthy_opt negb andb set_recovery].
  rewrite Hauth, Hid, Hnew, Hsave. cbn [negb].
  change (default "" (Some new)) with new.
  change (default "" (Some (id u))) with (id u).
  destruct (Z.ltb_spec (Z.of_nat (String.length new)) 8); [lia|].
  rewrite Hu. cbn [List.find]. rewrite String.eqb_refl.
  cbn [fst snd users set_users List.map hd_error]. rewrite String.eqb_refl.
  repeat split.
Qed.

End AccountProps.

Definition demo_hash (password : string) : string := "bcrypt:" +:+ password.

Definition spent_key : Auth.RecoveryManager :=
  Auth.mkRecovery (Some "BriskOtter0A1B") (Some 5000) false.

Definition locked_out : Auth.Server :=
  Auth.mkServer true [Auth.mkUser "u-1" "admin" "bcrypt:forgotten" None]
    spent_key 1000 false false.

Lemma recovery_login_burns_key_witness :
  fst (Auth.validateKey
         (Auth.recovery
            (fst (fst (Auth.login demo_compare locked_out
                         (Some "whoever") (Some "BriskOtter0A1B")))))
         1001 "BriskOtter0A1B") = false.
Proof.
  exact (proj1 (recovery_login_burns_key demo_compare locked_out "whoever"
                  "BriskOtter0A1B"
                  (Auth.mkUser "u-1" "admin" "bcrypt:forgotten" None) []
                  eq_refl eq_refl eq_refl eq_refl) 1001 "BriskOtter0A1B").
Defined.

Lemma recovery_then_change_password_witness :
  snd (fst (Account.change_password demo_compare demo_hash
              (fst (fst (Auth.login demo_compare locked_out (Some "whoever")
                           (Some "BriskOtter0A1B"))))
              (Some (Account.mkSession (Some "u-1") (Some "admin") true)) None
              (Some "correct horse")))
  = Account.mkResponse 200 Account.PasswordChanged.
Proof.
  exact (proj1 (proj2 (proj2
           (recovery_then_change_password demo_compare demo_hash locked_out
              "whoever" "BriskOtter0A1B" "correct horse"
              (Auth.mkUser "u-1" "admin" "bcrypt:forgotten" None) []
              eq_refl eq_refl eq_refl eq_refl eq_refl eq_refl eq_refl
              ltac:(cbn; lia))))).
Defined.

(** ** The table of servers: [POST /api/servers] and [DELETE /api/servers/:id] *)


Section ServersProps.
Import JS Store Api Servers.

Lemma has_id_elem (l : list ServerRow) (i : string) :
  has_id l i = true <-> exists r, r ∈ l /\ id r = i.
Proof.
  unfold has_id. rewrite existsb_exists. split.
  - intros (r & Hin & E). exists r. split; [now apply list_elem_of_In|].
    now apply String.eqb_eq.
  - intros (r & Hin & E). exists r. split; [now apply list_elem_of_In|].
    now apply String.eqb_eq.
Qed.

Lemma has_id_ids (l : list ServerRow) (i : string) :
  has_id l i = true <-> i ∈ List.map id l.
Proof.
  rewrite has_id_elem, list_elem_of_In, in_map_iff. split.
  - intros (r & Hin & E). exists r. split; [assumption|].
    now apply list_elem_of_In.
  - intros (r & E & Hin). exists r. split; [now apply list_elem_of_In|].
    assumption.
Qed.

Lemma filter_elem {A} (f : A -> bool) (l : list A) (x : A) :
  x ∈ List.filter f l <-> x ∈ l /\ f x = true.
Proof. rewrite !list_elem_of_In. apply filter_In. Qed.

Lemma validateServerIdParam_ok (sid : option string) :
  validateServerIdParam sid = None -> exists i, sid = Some i.
Proof.
  unfold validateServerIdParam, missing. destruct sid as [i|]; [eauto|].
  discriminate.
Qed.

(** A server row once the server [i] is gone: a reference to [i] as parent
    is cleared. *)
Definition orphaned (i : string) (r : ServerRow) : ServerRow :=
  if opt_str_eqb (parentId r) (Some i)
  then mkServerRow (id r) (label r) (url r) (type r) None (platform_type r)
         (unreachable r)
  else r.

Lemma delete_servers_run (sid : option string) (g : Registry) :
  code (snd (delete_servers sid g)) = 200 ->
  exists i, sid = Some i /\ i <> "local" /\ has_id (rows g) i = true
            /\ fst (delete_servers sid g) = deleteTransaction i g.
Proof.
  unfold delete_servers.
  destruct (validateServerIdParam sid) as [r|] eqn:Hval.
  { unfold validateServerIdParam in Hval.
    destruct (missing sid || blank sid); [|discriminate].
    injection Hval as <-. discriminate. }
  destruct (validateServerIdParam_ok sid Hval) as (i & ->).
  change (default "" (Some i)) with i.
  destruct (has_id (rows g) i) eqn:Hhas; cbn [negb]; [|discriminate].
  destruct (String.eqb_spec i "local") as [->|Hloc]; [discriminate|].
  intros _. exists i. now repeat split.
Qed.

Lemma deleteTransaction_rows (i : string) (g : Registry) :
  rows (deleteTransaction i g)
  = List.map (orphaned i)
      (List.filter (fun r => negb (String.eqb (id r) i)) (rows g)).
Proof.
  unfold deleteTransaction. cbn [rows].
  induction (rows g) as [|r l IH]; [reflexivity|].
  cbn [List.map List.filter]. fold (orphaned i r).
  assert (Hid : id (orphaned i r) = id r)
    by (unfold orphaned; now destruct (opt_str_eqb (parentId r) (Some i))).
  rewrite Hid. destruct (String.eqb (id r) i); cbn [negb List.map];
    [apply IH|]. now rewrite IH.
Qed.

Lemma orphaned_parent (i : string) (r : ServerRow) :
  parentId (orphaned i r) <> Some i.
Proof.
  unfold orphaned. destruct (opt_str_eqb (parentId r) (Some i)) eqn:E.
  - discriminate.
  - intros Hp. apply opt_str_eqb_eq in Hp. congruence.
Qed.

Lemma neq_filter (i j : string) :
  negb (String.eqb j i) = true <-> j <> i.
Proof. rewrite negb_true_iff. apply String.eqb_neq. Qed.

(** X22: a server that is deleted leaves no trace, and nothing else goes.
    When [DELETE /api/servers/:id] answers 200 the server existed and is not
    [local]; afterwards no row of [servers] has its id or names it as
    parent, and no note, ignore or custom name refers to it; the rows of the
    three annotation tables that refer to other servers are all still
    there, and the other servers are there as they were, in their order,
    but for the reference to the deleted parent. *)
Theorem delete_server_leaves_no_trace (sid : option string) (g : Registry) :
  code (snd (delete_servers sid g)) = 200 ->
  let g' := fst (delete_servers sid g) in
  exists i,
    sid = Some i /\ i <> "local" /\ has_id (rows g) i = true
    /\ has_id (rows g') i = false
    /\ (forall r, r ∈ rows g' -> parentId r <> Some i)
    /\ (forall n, n ∈ notes g' <->
          n ∈ notes g /\ server_id (note_key n) <> i)
    /\ (forall n, n ∈ ignores g' <->
          n ∈ ignores g /\ server_id (ignore_key n) <> i)
    /\ (forall n, n ∈ custom_service_names g' <->
          n ∈ custom_service_names g /\ server_id (name_key n) <> i)
    /\ rows g'
       = List.map (orphaned i)
           (List.filter (fun r => negb (String.eqb (id r) i)) (rows g)).
Proof.
  intros Hcode. cbv zeta.
  destruct (delete_servers_run sid g Hcode) as (i & -> & Hloc & Hhas & ->).
  exists i. split; [reflexivity|]. split; [assumption|]. split; [assumption|].
  split; [|split; [|split; [|split; [|split]]]].
  - apply not_true_is_false. intros E.
    apply has_id_elem in E as (r & Hin & Hid).
    rewrite deleteTransaction_rows in Hin.
    apply list_elem_of_In, in_map_iff in Hin as (r0 & <- & Hin).
    apply filter_In in Hin as [_ Hf]. apply neq_filter in Hf.
    unfold orphaned in Hid. now destruct (opt_str_eqb _ _).
  - intros r Hin. rewrite deleteTransaction_rows in Hin.
    apply list_elem_of_In, in_map_iff in Hin as (r0 & <- & _).
    apply orphaned_parent.
  - intros n. unfold deleteTransaction. cbn [notes].
    now rewrite filter_elem, neq_filter.
  - intros n. unfold deleteTransaction. cbn [ignores].
    now rewrite filter_elem, neq_filter.
  - intros n. unfold deleteTransaction. cbn [custom_service_names].
    now rewrite filter_elem, neq_filter.
  - apply deleteTransaction_rows.
Qed.

Definition two_servers : Registry :=
  mkRegistry
    [mkServerRow "local" "Local Server" "http://localhost:3000" "local" None
       (Some "auto") 0;
     mkServerRow "nas" "NAS" "http://nas:4999" "peer" None (Some "unknown") 0;
     mkServerRow "vm" "VM" "http://vm:4999" "peer" (Some "nas")
       (Some "unknown") 0]
    [mkNote (mkKey "nas" "0.0.0.0" 8080 "tcp" None false) "proxy" 1000 None]
    [] [].

Lemma delete_server_leaves_no_trace_witness :
  exists i,
    Some "nas" = Some i /\ i <> "local"
    /\ has_id (rows two_servers) i = true
    /\ has_id (rows (fst (delete_servers (Some "nas") two_servers))) i = false
    /\ (forall r, r ∈ rows (fst (delete_servers (Some "nas") two_servers)) ->
          parentId r <> Some i)
    /\ (forall n, n ∈ notes (fst (delete_servers (Some "nas") two_servers)) <->
          n ∈ notes two_servers /\ server_id (note_key n) <> i)
    /\ (forall n,
          n ∈ ignores (fst (delete_servers (Some "nas") two_servers)) <->
          n ∈ ignores two_servers /\ server_id (ignore_key n) <> i)
    /\ (forall n,
          n ∈ custom_service_names
                (fst (delete_servers (Some "nas") two_servers)) <->
          n ∈ custom_service_names two_servers
          /\ server_id (name_key n) <> i)
    /\ rows (fst (delete_servers (Some "nas") two_servers))
       = List.map (orphaned i)
           (List.filter (fun r => negb (String.eqb (id r) i))
              (rows two_servers)).
Proof. exact (delete_server_leaves_no_trace (Some "nas") two_servers eq_refl). Defined.

Variable url_parses : string -> bool.

(** The integrity of the four tables: ids are unique, and every reference to
    a server (a parent, the server of a note, an ignore or a custom name) is
    to a row of [servers]. *)
Definition consistent (g : Registry) : Prop :=
  NoDup (List.map id (rows g))
  /\ (forall r, r ∈ rows g -> parent_ok (rows g) (parentId r) = true)
  /\ (forall n, n ∈ notes g ->
        has_id (rows g) (server_id (note_key n)) = true)
  /\ (forall n, n ∈ ignores g ->
        has_id (rows g) (server_id (ignore_key n)) = true)
  /\ (forall n, n ∈ custom_service_names g ->
        has_id (rows g) (server_id (name_key n)) = true).

Lemma has_id_same_ids (l l' : list ServerRow) (i : string) :
  List.map id l' = List.map id l -> has_id l' i = has_id l i.
Proof.
  intros E. destruct (has_id l i) eqn:H.
  - apply has_id_ids. rewrite E. now apply has_id_ids.
  - apply not_true_is_false. intros H'. apply has_id_ids in H'.
    rewrite E in H'. apply has_id_ids in H'. congruence.
Qed.

Lemma parent_ok_same_ids (l l' : list ServerRow) (p : option string) :
  List.map id l' = List.map id l -> parent_ok l' p = parent_ok l p.
Proof. intros E. destruct p; [now apply has_id_same_ids | reflexivity]. Qed.

Lemma has_id_app (l : list ServerRow) (r : ServerRow) (i : string) :
  has_id (l ++ [r]) i = has_id l i || String.eqb (id r) i.
Proof.
  unfold has_id. rewrite existsb_app. cbn. now rewrite orb_false_r.
Qed.

Lemma servers_update_ok (l l' : list ServerRow) (i lb : string)
  (u p : option string) (t : string) (un : Z) (pt : option string) :
  has_id l i = true ->
  servers_update l i lb u p t un pt = inl l' ->
  exists u', u = Some u' /\ parent_ok l p = true
    /\ l' = List.map
              (fun r => if String.eqb (id r) i
                        then mkServerRow (id r) lb u' t p pt un else r) l
    /\ List.map id l' = List.map id l.
Proof.
  intros Hhas. unfold servers_update. rewrite Hhas.
  destruct u as [u'|]; [|discriminate].
  destruct (parent_ok l p) eqn:Hp; [|discriminate].
  intros [= <-]. exists u'. repeat split.
  rewrite List.map_map. apply List.map_ext. intros r.
  now destruct (String.eqb (id r) i).
Qed.

Lemma servers_insert_ok (l l' : list ServerRow) (i lb : string)
  (u p : option string) (t : string) (un : Z) (pt : option string) :
  servers_insert l i lb u p t un pt = inl l' ->
  exists u', u = Some u' /\ has_id l i = false
    /\ l' = l ++ [mkServerRow i lb u' t p pt un]
    /\ parent_ok l' p = true.
Proof.
  unfold servers_insert. destruct u as [u'|]; [|discriminate].
  destruct (has_id l i); [discriminate|].
  destruct (parent_ok _ p) eqn:Hp; [|discriminate].
  intros [= <-]. now exists u'.
Qed.

Lemma post_servers_rows (b : ServerBody) (g : Registry) :
  rows (fst (post_servers url_parses b g)) = rows g
  \/ exists i lb u p t un pt l',
       rows (fst (post_servers url_parses b g)) = l'
       /\ ((has_id (rows g) i = true
            /\ servers_update (rows g) i lb u p t un pt = inl l')
           \/ servers_insert (rows g) i lb u p t un pt = inl l').
Proof.
  unfold post_servers.
  destruct (validateServerInput url_parses b) as [r|nb]; [now left|].
  destruct (missing (b_id nb)); [now left|].
  destruct (_ && _ && _); [now left|].
  destruct (has_id (rows g) (default "" (b_id nb))) eqn:Hhas.
  - destruct (servers_update _ _ _ _ _ _ _ _) as [l'|msg] eqn:E; [|now left].
    right. repeat eexists. left. split; [exact Hhas | exact E].
  - destruct (servers_insert _ _ _ _ _ _ _ _) as [l'|msg] eqn:E; [|now left].
    right. repeat eexists. right. exact E.
Qed.

Lemma post_servers_tables (b : ServerBody) (g : Registry) :
  notes (fst (post_servers url_parses b g)) = notes g
  /\ ignores (fst (post_servers url_parses b g)) = ignores g
  /\ custom_service_names (fst (post_servers url_parses b g))
     = custom_service_names g.
Proof.
  unfold post_servers.
  destruct (validateServerInput url_parses b) as [r|nb]; [now repeat split|].
  destruct (missing (b_id nb)); [now repeat split|].
  destruct (_ && _ && _); [now repeat split|].
  destruct (if has_id _ _ then _ else _) as [l'|msg]; now repeat split.
Qed.

Lemma NoDup_list_filter {A} (f : A -> bool) (l : list A) :
  NoDup l -> NoDup (List.filter f l).
Proof.
  induction 1 as [|x l Hx Hnd IH]; cbn; [constructor|].
  destruct (f x); [|assumption]. constructor; [|assumption].
  intros Hin. apply filter_elem in Hin as [Hin _]. contradiction.
Qed.

(** X23: the two handlers on [servers] keep the integrity of the store.
    If ids are unique and every reference to a server resolves, the same
    holds after [POST /api/servers] and after [DELETE /api/servers/:id],
    whatever the request and the answer; and a server [local] that is there
    stays there. *)
Theorem servers_handlers_keep_integrity (b : ServerBody)
  (sid : option string) (g : Registry) :
  consistent g ->
  consistent (fst (post_servers url_parses b g))
  /\ consistent (fst (delete_servers sid g))
  /\ (has_id (rows g) "local" = true ->
      has_id (rows (fst (post_servers url_parses b g))) "local" = true
      /\ has_id (rows (fst (delete_servers sid g))) "local" = true).
Proof.
  intros (Hnd & Hpar & Hn & Hi & Hc).
  split; [|split].
  - destruct (post_servers_tables b g) as (En & Ei & Ec).
    unfold consistent. rewrite En, Ei, Ec.
    destruct (post_servers_rows b g)
      as [-> | (i & lb & u & p & t & un & pt & l' & -> & [[Hhas E] | E])].
    + now repeat split.
    + apply servers_update_ok in E as (u' & -> & Hp & -> & Eids);
        [|assumption].
      split; [now rewrite Eids|].
      split; [|repeat split; intros n Hin;
               rewrite (has_id_same_ids _ _ _ Eids); auto].
      intros r Hin. rewrite (parent_ok_same_ids _ _ _ Eids).
      apply list_elem_of_In, in_map_iff in Hin as (r0 & <- & Hin0).
      destruct (String.eqb (id r0) i); [exact Hp|].
      apply Hpar. now apply list_elem_of_In.
    + apply servers_insert_ok in E as (u' & -> & Hnew & -> & Hp).
      assert (Hmono : forall j, has_id (rows g) j = true ->
                has_id (rows g ++ [mkServerRow i lb u' t p pt un]) j = true).
      { intros j Hj. now rewrite has_id_app, Hj. }
      split.
      { rewrite List.map_app. apply NoDup_app. split; [assumption|].
        split; [|apply NoDup_singleton].
        intros j Hj Hj'. cbn in Hj'. apply list_elem_of_singleton in Hj'.
        subst j. apply has_id_ids in Hj. congruence. }
      split; [|repeat split; intros n Hin; apply Hmono; auto].
      intros r Hin. apply elem_of_app in Hin as [Hin | Hin].
      * specialize (Hpar r Hin). destruct (parentId r) as [q|];
          [|reflexivity]. now apply Hmono.
      * apply list_elem_of_singleton in Hin. subst r. exact Hp.
  - destruct (code (snd (delete_servers sid g)) =? 200) eqn:Hcode.
    + apply Z.eqb_eq in Hcode.
      destruct (delete_servers_run sid g Hcode) as (i & _ & _ & _ & ->).
      pose proof (deleteTransaction_rows i g) as Hrows.
      assert (Hnopar : forall r, r ∈ rows (deleteTransaction i g) ->
                parentId r <> Some i).
      { intros r Hin. rewrite Hrows in Hin.
        apply list_elem_of_In, in_map_iff in Hin as (r0 & <- & _).
        apply orphaned_parent. }
      assert (Hkeep : forall j, j <> i -> has_id (rows g) j = true ->
                has_id (rows (deleteTransaction i g)) j = true).
      { intros j Hj Hhas. apply has_id_elem in Hhas as (r & Hin & Hid).
        apply has_id_elem. exists (orphaned i r). rewrite Hrows. split.
        - apply list_elem_of_In, in_map_iff. exists r. split; [reflexivity|].
          apply filter_In. split; [now apply list_elem_of_In|].
          apply negb_true_iff, String.eqb_neq. congruence.
        - unfold orphaned. now destruct (opt_str_eqb _ _). }
      split.
      { rewrite Hrows, List.map_map.
        replace (List.map (fun x => id (orphaned i x))
                   (List.filter (fun r => negb (String.eqb (id r) i)) (rows g)))
          with (List.filter (fun j => negb (String.eqb j i))
                  (List.map id (rows g))).
        - now apply NoDup_list_filter.
        - clear. induction (rows g) as [|r l IH]; [reflexivity|].
          cbn [List.map List.filter].
          destruct (String.eqb (id r) i); cbn [negb List.map]; [apply IH|].
          rewrite IH. f_equal. unfold orphaned.
          now destruct (opt_str_eqb _ _). }
      split.
      { intros r Hin. pose proof (Hnopar r Hin) as Hnp.
        rewrite Hrows in Hin.
        apply list_elem_of_In, in_map_iff in Hin as (r0 & <- & Hin0).
        apply filter_In in Hin0 as [Hin0 _].
        apply list_elem_of_In in Hin0. specialize (Hpar r0 Hin0).
        unfold orphaned in *.
        destruct (opt_str_eqb (parentId r0) (Some i)) eqn:Ep; [reflexivity|].
        destruct (parentId r0) as [q|] eqn:Eq; [|reflexivity].
        cbn [parent_ok] in *. apply Hkeep; [|assumption]. congruence. }
      unfold deleteTransaction at 1 3 5.
      cbn [notes ignores custom_service_names].
      repeat split; intros n Hin;
        apply filter_elem in Hin as [Hin Hne]; apply neq_filter in Hne;
        apply Hkeep; auto.
    + assert (E : fst (delete_servers sid g) = g).
      { revert Hcode. unfold delete_servers.
        destruct (validateServerIdParam sid); [reflexivity|].
        destruct (negb _); [reflexivity|].
        destruct (String.eqb _ "local"); [reflexivity|]. discriminate. }
      rewrite E. now repeat split.
  - intros Hloc. split.
    + destruct (post_servers_rows b g)
        as [-> | (i & lb & u & p & t & un & pt & l' & -> & [[Hhas E] | E])].
      * assumption.
      * apply servers_update_ok in E as (u' & _ & _ & _ & Eids);
          [|assumption].
        now rewrite (has_id_same_ids _ _ _ Eids).
      * apply servers_insert_ok in E as (u' & _ & _ & -> & _).
        now rewrite has_id_app, Hloc.
    + unfold delete_servers.
      destruct (validateServerIdParam sid); [assumption|].
      destruct (negb _); [assumption|].
      destruct (String.eqb_spec (default "" sid) "local") as [|Hne];
        [assumption|].
      cbn [fst]. apply has_id_elem in Hloc as (r & Hin & Hid).
      apply has_id_elem. unfold deleteTransaction. cbn [rows].
      exists (orphaned (default "" sid) r). split.
      * apply filter_elem. split.
        -- apply list_elem_of_In, in_map_iff. exists r.
           split; [reflexivity | now apply list_elem_of_In].
        -- unfold orphaned. apply negb_true_iff, String.eqb_neq.
           destruct (opt_str_eqb _ _); cbn [id]; congruence.
      * unfold orphaned. now destruct (opt_str_eqb _ _).
Qed.

(** X24: what [POST /api/servers] stores.  When it answers 200 or 201 the
    request carried an id, a label and a url, and the table holds for that
    id the row of the normalised values (label and url trimmed, type
    defaulting to [peer], platform_type to [unknown]); rows of other ids are
    as they were; 201 is the answer exactly when the id was new.  A row
    stored as a reachable peer has a non-empty url, and when the request
    itself named the type [peer] that url parses. *)
Theorem post_servers_stores_normalised (b : ServerBody) (g : Registry) :
  let run := post_servers url_parses b g in
  code (snd run) = 200 \/ code (snd run) = 201 ->
  exists i lb u,
    b_id b = Some i /\ b_label b = Some lb /\ b_url b = Some u
    /\ let row :=
         mkServerRow i (trim lb) (trim u) (default "peer" (or_null (b_type b)))
           (or_null (b_parentId b))
           (Some (default "unknown" (or_null (b_platform_type b))))
           (if truthy_bool (b_unreachable b) then 1 else 0) in
       row ∈ rows (fst run)
       /\ (forall r, r ∈ rows (fst run) -> id r = i -> r = row)
       /\ (forall r, id r <> i -> (r ∈ rows (fst run) <-> r ∈ rows g))
       /\ (code (snd run) = 201 <-> has_id (rows g) i = false)
       /\ (type row = "peer" -> unreachable row = 0 -> trim (url row) <> "")
       /\ (b_type b = Some "peer" -> trim u <> "" ->
           url_parses (trim u) = true).
Proof.
  cbv zeta. remember (post_servers url_parses b g) as run eqn:Hrun.
  unfold post_servers in Hrun.
  destruct (validateServerInput url_parses b) as [r|nb] eqn:Hval.
  { assert (code r = 400).
    { revert Hval. unfold validateServerInput.
      repeat match goal with
             | |- (if ?c then _ else _) = _ -> _ => destruct c
             end; intros [= <-]; reflexivity. }
    subst run. cbn [snd]. lia. }
  assert (Hnb : nb = normalised b
                /\ exists lb, b_label b = Some lb
                /\ (b_type b = Some "peer" ->
                    forall u, b_url b = Some u -> trim u <> "" ->
                      url_parses (trim u) = true)).
  { revert Hval. unfold validateServerInput, missing.
    destruct (b_label b) as [lb|]; cbn [truthy_opt negb orb]; [|discriminate].
    destruct (negb (truthy_str lb) || blank (Some lb)); [discriminate|].
    destruct (str_eq (b_type b) "peer" && truthy_opt truthy_str (b_url b)
              && negb (blank (b_url b))) eqn:Hpeer.
    - destruct (url_parses (trim (default "" (b_url b)))) eqn:Hurl;
        [|discriminate].
      intros [= <-]. split; [reflexivity|]. exists lb.
      split; [reflexivity|]. intros _ u Hu _. now rewrite Hu in Hurl.
    - intros Hrest.
      assert (nb = normalised b) as ->
        by (destruct (_ && _ && _) in Hrest; congruence).
      split; [reflexivity|]. exists lb. split; [reflexivity|].
      intros Ht u Hu Hne. exfalso.
      rewrite Ht, Hu in Hpeer. cbn in Hpeer.
      destruct (String.eqb_spec u "") as [|Hu0]; [subst u; now cbn in Hne|].
      cbn in Hpeer. destruct (String.eqb_spec (trim u) ""); [contradiction|].
      unfold truthy_str in Hpeer. apply String.eqb_neq in Hu0.
      rewrite Hu0 in Hpeer. discriminate. }
  destruct Hnb as (-> & lb & Hlb & Hparse). clear Hval.
  unfold normalised, missing in Hrun.
  cbn [b_id b_url b_type b_unreachable b_label b_parentId b_platform_type]
    in Hrun.
  rewrite Hlb in Hrun.
  destruct (b_id b) as [i|]; cbn [truthy_opt negb] in Hrun;
    [|subst run; cbn; lia].
  destruct (truthy_str i); cbn [negb] in Hrun; [|subst run; cbn; lia].
  assert (Hcode : forall i' msg, code (save_failed i' msg) <> 200
                                 /\ code (save_failed i' msg) <> 201).
  { intros i' msg. unfold save_failed.
    destruct (includes msg "UNIQUE constraint failed");
      [cbn [code]; lia|].
    destruct (includes (toLowerCase msg) "can only bind"
              || includes (toLowerCase msg) "datatype mismatch");
      cbn [code]; lia. }
  change (default "" (Some i)) with i in Hrun.
  change (default "" (Some (trim lb))) with (trim lb) in Hrun.
  change (default "" (Some (default "peer" (or_null (b_type b)))))
    with (default "peer" (or_null (b_type b))) in Hrun.
  destruct (b_url b) as [u|] eqn:Hu; cbn [truthy_opt] in Hrun.
  2:{ match type of Hrun with
      | _ = (if ?c then _ else _) => destruct c
      end; [subst run; cbn; lia|].
      destruct (has_id (rows g) i) eqn:Hh;
        unfold servers_update, servers_insert in Hrun; rewrite ?Hh in Hrun;
        subst run; cbn [snd];
        pose proof (Hcode i (NOT_NULL_FAILED "servers.url")); lia. }
  destruct (truthy_str u) eqn:Htu.
  2:{ match type of Hrun with
      | _ = (if ?c then _ else _) => destruct c
      end; [subst run; cbn; lia|].
      destruct (has_id (rows g) i) eqn:Hh;
        unfold servers_update, servers_insert in Hrun; rewrite ?Hh in Hrun;
        subst run; cbn [snd];
        pose proof (Hcode i (NOT_NULL_FAILED "servers.url")); lia. }
  change (default "" (Some u)) with u in Hrun.
  match type of Hrun with
  | _ = (if ?c then _ else _) => destruct c eqn:Hguard
  end; [subst run; cbn; lia|].
  set (row := mkServerRow i (trim lb) (trim u)
                (default "peer" (or_null (b_type b)))
                (or_null (b_parentId b))
                (Some (default "unknown" (or_null (b_platform_type b))))
                (if truthy_bool (b_unreachable b) then 1 else 0)).
  assert (Hpeer_url :
            type row = "peer" -> unreachable row = 0 -> trim (url row) <> "").
  { subst row. cbn [type unreachable url]. intros Ht Hun.
    rewrite Ht in Hguard. cbn [str_eq] in Hguard.
    destruct (truthy_bool (b_unreachable b)); [discriminate|].
    cbn [negb andb String.eqb Ascii.eqb Bool.eqb] in Hguard.
    unfold blank in Hguard. apply orb_false_elim in Hguard as [_ Hblank].
    now apply String.eqb_neq. }
  destruct (has_id (rows g) i) eqn:Hhas.
  - unfold servers_update in Hrun. rewrite Hhas in Hrun.
    destruct (parent_ok (rows g) (or_null (b_parentId b)));
      [|subst run; cbn [snd];
        pose proof (Hcode i FK_FAILED); lia].
    subst run. cbn [fst snd code rows set_rows]. intros _. exists i, lb, u.
    split; [reflexivity|]. split; [exact Hlb|]. split; [reflexivity|].
    cbv zeta. fold row.
    split; [|split; [|split; [|split; [|split]]]].
    + apply has_id_elem in Hhas as (r0 & Hin & Hid).
      apply list_elem_of_In, in_map_iff. exists r0.
      rewrite Hid, String.eqb_refl. split; [now subst row|].
      now apply list_elem_of_In.
    + intros r Hin Hid.
      apply list_elem_of_In, in_map_iff in Hin as (r0 & <- & _).
      destruct (String.eqb_spec (id r0) i) as [E|E].
      * subst row. now rewrite E.
      * contradiction.
    + intros r Hid. rewrite !list_elem_of_In, in_map_iff. split.
      * intros (r0 & <- & Hin).
        destruct (String.eqb_spec (id r0) i) as [E|E]; [|assumption].
        cbn in Hid. contradiction.
      * intros Hin. exists r. split; [|assumption].
        destruct (String.eqb_spec (id r) i); [contradiction | reflexivity].
    + rewrite Hhas. split; discriminate.
    + assumption.
    + intros Ht. apply Hparse; [assumption | reflexivity].
  - unfold servers_insert in Hrun. rewrite Hhas in Hrun.
    destruct (parent_ok _ (or_null (b_parentId b)));
      [|subst run; cbn [snd];
        pose proof (Hcode i FK_FAILED); lia].
    subst run. cbn [fst snd code rows set_rows]. intros _. exists i, lb, u.
    split; [reflexivity|]. split; [exact Hlb|]. split; [reflexivity|].
    cbv zeta. fold row.
    split; [|split; [|split; [|split; [|split]]]].
    + apply elem_of_app. right. now apply list_elem_of_singleton.
    + intros r Hin Hid. apply elem_of_app in Hin as [Hin | Hin].
      * exfalso. apply not_true_iff_false in Hhas. apply Hhas.
        apply has_id_elem. now exists r.
      * now apply list_elem_of_singleton in Hin.
    + intros r Hid. rewrite elem_of_app, list_elem_of_singleton.
      split; [|tauto]. intros [Hin | ->]; [assumption|].
      subst row. now cbn in Hid.
    + rewrite Hhas. split; reflexivity.
    + assumption.
    + intros Ht. apply Hparse; [assumption | reflexivity].
Qed.

End ServersProps.

Definition demo_url_parses (s : string) : bool := JS.includes s "://".

Definition new_peer : Servers.ServerBody :=
  Servers.mkBody (Some "nas2") (Some " NAS 2 ") (Some " http://nas2:4999 ")
    None (Some "peer") None None.

Lemma servers_handlers_keep_integrity_witness :
  consistent (fst (Servers.delete_servers (Some "nas") two_servers)).
Proof.
  refine (proj1 (proj2 (servers_handlers_keep_integrity demo_url_parses
                          new_peer (Some "nas") two_servers _))).
  unfold consistent. cbn.
  split; [|split; [|split; [|split]]].
  - repeat (apply NoDup_cons; split;
            [rewrite ?elem_of_cons, elem_of_nil; intuition discriminate|]).
    apply NoDup_nil. exact I.
  - intros r Hr. apply list_elem_of_In in Hr. cbn in Hr.
    destruct Hr as [<-|[<-|[<-|[]]]]; reflexivity.
  - intros n Hn. apply list_elem_of_In in Hn. cbn in Hn.
    destruct Hn as [<-|[]]; reflexivity.
  - intros n Hn. now apply elem_of_nil in Hn.
  - intros n Hn. now apply elem_of_nil in Hn.
Defined.

Lemma post_servers_stores_normalised_witness :
  Servers.mkServerRow "nas2" "NAS 2" "http://nas2:4999" "peer" None
    (Some "unknown") 0
  ∈ Servers.rows (fst (Servers.post_servers demo_url_parses new_peer
                         two_servers)).
Proof.
  destruct (post_servers_stores_normalised demo_url_parses new_peer
              two_servers (or_intror eq_refl))
    as (i & lb & u & Hi & Hlb & Hu & Hrow & _).
  injection Hi as <-. injection Hlb as <-. injection Hu as <-. exact Hrow.
Defined.

(** ** The address of the Docker host: [getDockerHostIP] *)


Section RouteProps.
Import JS Route.

(** A byte as the kernel prints it: two upper-case hexadecimal digits. *)
Definition HEX (n : Z) : string := Recovery.toUpperCase (Recovery.hex_byte n).

Lemma parseInt16_HEX_all :
  forallb (fun n => match parseInt16 (HEX n) with
                    | Some m => m =? n
                    | None => false
                    end)
    (List.map Z.of_nat (seq 0 256)) = true.
Proof. vm_compute. reflexivity. Qed.

Lemma parseInt16_HEX (n : Z) :
  0 <= n < 256 -> parseInt16 (HEX n) = Some n.
Proof.
  intros Hn. pose proof parseInt16_HEX_all as H.
  rewrite forallb_forall in H. specialize (H n).
  destruct (parseInt16 (HEX n)) as [m|].
  - f_equal. apply Z.eqb_eq. apply H. apply in_map_iff.
    exists (Z.to_nat n). split; [lia|]. apply in_seq. lia.
  - exfalso. assert (false = true); [|discriminate]. apply H.
    apply in_map_iff. exists (Z.to_nat n). split; [lia|]. apply in_seq. lia.
Qed.

Lemma HEX_two (n : Z) : exists x y, HEX n = String x (String y EmptyString).
Proof. unfold HEX, Recovery.hex_byte. cbn. eauto. Qed.

Lemma gateway_of_bytes (a b c d : Z) :
  0 <= a < 256 -> 0 <= b < 256 -> 0 <= c < 256 -> 0 <= d < 256 ->
  gateway_of (HEX d +:+ HEX c +:+ HEX b +:+ HEX a)
  = num_to_string a +:+ "." +:+ num_to_string b +:+ "." +:+ num_to_string c
    +:+ "." +:+ num_to_string d.
Proof.
  intros Ha Hb Hc Hd. unfold gateway_of.
  pose proof (parseInt16_HEX a Ha) as Pa.
  pose proof (parseInt16_HEX b Hb) as Pb.
  pose proof (parseInt16_HEX c Hc) as Pc.
  pose proof (parseInt16_HEX d Hd) as Pd.
  destruct (HEX_two a) as (a1 & a2 & Ea).
  destruct (HEX_two b) as (b1 & b2 & Eb).
  destruct (HEX_two c) as (c1 & c2 & Ec).
  destruct (HEX_two d) as (d1 & d2 & Ed).
  rewrite Ea, Eb, Ec, Ed in *.
  change (substring 6 2 _) with (String a1 (String a2 "")).
  change (substring 4 2 _) with (String b1 (String b2 "")).
  change (substring 2 2 _) with (String c1 (String c2 "")).
  change (substring 0 2 _) with (String d1 (String d2 "")).
  rewrite Pa, Pb, Pc, Pd. reflexivity.
Qed.

(** X25: [getDockerHostIP] reads the gateway of the first default route.
    Off macOS, Windows and Docker Desktop, when the first line of
    [/proc/net/route] whose destination and mask are both [00000000] holds
    in its gateway column the bytes [d c b a] in hexadecimal, lowest byte
    first, the answer is the dotted address [a.b.c.d]. *)
Theorem getDockerHostIP_decodes_default_gateway (platform text : string)
  (before after : list string) (line : string) (a b c d : Z) :
  platform <> "darwin" -> platform <> "win32" ->
  split_on "010"%char text = before ++ line :: after ->
  (forall l, In l before ->
     str_eq (field (split_on "009"%char l) 1) "00000000"
     && str_eq (field (split_on "009"%char l) 7) "00000000" = false) ->
  field (split_on "009"%char line) 1 = Some "00000000" ->
  field (split_on "009"%char line) 7 = Some "00000000" ->
  field (split_on "009"%char line) 2
  = Some (HEX d +:+ HEX c +:+ HEX b +:+ HEX a) ->
  0 <= a < 256 -> 0 <= b < 256 -> 0 <= c < 256 -> 0 <= d < 256 ->
  getDockerHostIP platform false (Some text)
  = num_to_string a +:+ "." +:+ num_to_string b +:+ "." +:+ num_to_string c
    +:+ "." +:+ num_to_string d.
Proof.
  intros Hmac Hwin Hsplit Hbefore H1 H7 H2 Ha Hb Hc Hd.
  unfold getDockerHostIP.
  apply String.eqb_neq in Hmac, Hwin. rewrite Hmac, Hwin. cbn [orb].
  rewrite Hsplit. clear Hsplit.
  induction before as [|l before IH]; cbn [app first_default_gateway].
  - rewrite H1, H7, H2. cbn [str_eq]. rewrite String.eqb_refl. cbn [andb].
    change (default "" (Some ?x)) with x.
    now apply gateway_of_bytes.
  - rewrite (Hbefore l) by now left. apply IH.
    intros l' Hl'. apply Hbefore. now right.
Qed.

End RouteProps.

Definition tab : string := String "009"%char EmptyString.
Definition newline : string := String "010"%char EmptyString.

(** A routing table as the kernel prints it, with its header line. *)
Definition proc_net_route : string :=
  "Iface" +:+ tab +:+ "Destination" +:+ tab +:+ "Gateway" +:+ tab +:+ "Flags"
  +:+ tab +:+ "RefCnt" +:+ tab +:+ "Use" +:+ tab +:+ "Metric" +:+ tab
  +:+ "Mask" +:+ newline
  +:+ "eth0" +:+ tab +:+ "000011AC" +:+ tab +:+ "00000000" +:+ tab +:+ "0001"
  +:+ tab +:+ "0" +:+ tab +:+ "0" +:+ tab +:+ "0" +:+ tab +:+ "0000FFFF"
  +:+ newline
  +:+ "eth0" +:+ tab +:+ "00000000" +:+ tab +:+ "0101A8C0" +:+ tab +:+ "0003"
  +:+ tab +:+ "0" +:+ tab +:+ "0" +:+ tab +:+ "0" +:+ tab +:+ "00000000"
  +:+ newline.

Lemma getDockerHostIP_decodes_default_gateway_witness :
  Route.getDockerHostIP "linux" false (Some proc_net_route) = "192.168.1.1".
Proof.
  refine (getDockerHostIP_decodes_default_gateway "linux" proc_net_route
            [_; _] [_] _ 192 168 1 1 _ _ eq_refl _ eq_refl eq_refl eq_refl
            _ _ _ _); try discriminate; try lia.
  intros l [<- | [<- | []]]; reflexivity.
Defined.

(** ** The port lists of [GET /api/containers/:id/details] *)


Section ContainerProps.
Import JS JSNumber Container.

Definition exposed_of (m : Mapping) : Exposed :=
  mkExposed (host_port m) (protocol m).

Lemma or_default_truthy (d : string) (o : option string) :
  truthy_str d = true -> truthy_str (or_default d o) = true.
Proof.
  intros Hd. unfold or_default, or_null. destruct o as [s|]; [|assumption].
  destruct (truthy_str s) eqn:E; assumption.
Qed.

Lemma map_port_spec (cp : string) (hb : option (list Binding)) :
  let '(m, e) := map_port cp hb in
  e = List.map exposed_of (List.filter internal m)
  /\ (forall x, In x m ->
        truthy_str (protocol x) = true /\ truthy_str (host_ip x) = true
        /\ (internal x = true ->
            host_ip x = "0.0.0.0" /\ host_port x = container_port x))
  /\ length m = Nat.max 1 (length (default [] hb)).
Proof.
  unfold map_port. destruct hb as [[|b l]|].
  - cbn. repeat split; try (destruct H as [<- | []]; cbn; auto);
      try (now apply or_default_truthy).
    all: destruct H as [<- | []]; cbn; auto; now apply or_default_truthy.
  - split; [|split].
    + induction (b :: l) as [|y ys IH]; [reflexivity|]. cbn. exact IH.
    + intros x Hx. apply in_map_iff in Hx as (h & <- & _). cbn.
      repeat split; try (now apply or_default_truthy); discriminate.
    + rewrite length_map. cbn. lia.
  - cbn. repeat split; try (destruct H as [<- | []]; cbn; auto);
      try (now apply or_default_truthy).
    all: destruct H as [<- | []]; cbn; auto; now apply or_default_truthy.
Qed.

(** X26: the two port lists of the container details agree.  Every
    container port contributes one mapping per host binding, or a single
    mapping marked internal when it has none; [exposedUnmapped] is exactly
    the list of the internal mappings, in order, each with its port and
    protocol; an internal mapping sits on 0.0.0.0 with the container port as
    host port; and no mapping has an empty address or protocol. *)
Theorem container_ports_agree (ports : list (string * option (list Binding))) :
  let '(m, e) := map_ports ports in
  e = List.map exposed_of (List.filter internal m)
  /\ (forall x, In x m ->
        truthy_str (protocol x) = true /\ truthy_str (host_ip x) = true
        /\ (internal x = true ->
            host_ip x = "0.0.0.0" /\ host_port x = container_port x))
  /\ length m
     = list_sum (List.map (fun ph => Nat.max 1 (length (default [] (snd ph))))
                   ports).
Proof.
  induction ports as [|[cp hb] rest IH]; cbn [map_ports].
  - cbn. repeat split; contradiction.
  - pose proof (map_port_spec cp hb) as H1.
    destruct (map_port cp hb) as [m e].
    destruct (map_ports rest) as [ms es].
    destruct H1 as (He & Hm & Hl). destruct IH as (Hes & Hms & Hls).
    split; [|split].
    + rewrite List.filter_app, List.map_app. now rewrite He, Hes.
    + intros x Hx. apply in_app_or in Hx as [Hx | Hx]; auto.
    + rewrite length_app, Hl, Hls. reflexivity.
Qed.

End ContainerProps.
